(** * ginpb: the protoc-gen-gin generator, its metadata and binding helpers

    A shallow embedding of the parts of [internal/gen], [metadata] and
    [binding] that the specification talks about, followed by the
    properties proved about them.

    Go strings are byte strings; they are modelled by [string], whose
    characters are the 256 values of [ascii].  Go maps are [gmap]s.  The
    generator writes to standard error, may call [os.Exit], and counts the
    handlers it has generated in the package variable [methodSets]; all of
    that is threaded through an explicit state. *)

From Stdlib Require Import Ascii String ZArith Lia Bool DecimalString.
From stdpp Require Import base option list list_monad strings gmap sorting.

Local Open Scope Z_scope.
Local Open Scope nat_scope.
Local Set Warnings "-register-all".

(** ** Package [strings] (the functions the generator uses) *)

Module GoStrings.

Definition LF : ascii := "010"%char.
Definition CR : ascii := "013"%char.
Definition ESC : ascii := "027"%char.
Definition DQUOTE : ascii := "034"%char.
Definition BACKQUOTE : ascii := "096"%char.
Definition TAB : ascii := "009"%char.

Definition str (c : ascii) : string := String c EmptyString.

(** [len(s)] *)
Definition len (s : string) : nat := String.length s.

(** [s[i]]; [None] is the run-time panic of an index out of range. *)
Definition index (s : string) (i : nat) : option ascii := String.get i s.

(** [s[lo:hi]]; [None] is the run-time panic raised when [lo > hi] or
    [hi > len(s)]. *)
Definition slice (s : string) (lo hi : nat) : option string :=
  if (lo <=? hi) && (hi <=? len s) then Some (String.substring lo (hi - lo) s)
  else None.

(** [strings.Split(s, sep)] for a one-byte separator [sep]. *)
Fixpoint Split (s : string) (sep : ascii) : list string :=
  match s with
  | EmptyString => [EmptyString]
  | String c s' =>
      if Ascii.eqb c sep then EmptyString :: Split s' sep
      else match Split s' sep with
           | [] => [str c]
           | p :: ps => String c p :: ps
           end
  end.

(** [strings.Join(elems, sep)] *)
Fixpoint Join (elems : list string) (sep : string) : string :=
  match elems with
  | [] => EmptyString
  | [x] => x
  | x :: rest => x +:+ sep +:+ Join rest sep
  end.

(** [strings.HasPrefix(s, prefix)] *)
Fixpoint HasPrefix (s prefix : string) : bool :=
  match prefix, s with
  | EmptyString, _ => true
  | String p prefix', String c s' => Ascii.eqb c p && HasPrefix s' prefix'
  | String _ _, EmptyString => false
  end.

(** [strings.Contains(s, substr)] *)
Fixpoint Contains (s substr : string) : bool :=
  HasPrefix s substr ||
  match s with
  | EmptyString => false
  | String _ s' => Contains s' substr
  end.

(** [sub] occurs in [s]: what [strings.Contains] decides. *)
Definition occursIn (sub s : string) : Prop := exists a b, s = a +:+ sub +:+ b.

(** [strings.HasSuffix(s, suffix)] *)
Definition HasSuffix (s suffix : string) : bool :=
  (len suffix <=? len s) &&
  String.eqb (String.substring (len s - len suffix) (len suffix) s) suffix.

Definition inCutset (cutset : string) (c : ascii) : bool :=
  existsb (Ascii.eqb c) (list_ascii_of_string cutset).

Fixpoint TrimLeftFunc (f : ascii -> bool) (s : string) : string :=
  match s with
  | EmptyString => EmptyString
  | String c s' => if f c then TrimLeftFunc f s' else s
  end.

Fixpoint TrimRightFunc (f : ascii -> bool) (s : string) : string :=
  match s with
  | EmptyString => EmptyString
  | String c s' =>
      match TrimRightFunc f s' with
      | EmptyString => if f c then EmptyString else str c
      | t => String c t
      end
  end.

(** [strings.Trim(s, cutset)] for a cutset of one-byte characters. *)
Definition Trim (s cutset : string) : string :=
  TrimRightFunc (inCutset cutset) (TrimLeftFunc (inCutset cutset) s).

(** The white space of [strings.TrimSpace] below U+0080:
    tab, line feed, vertical tab, form feed, carriage return, space. *)
Definition isSpace (c : ascii) : bool :=
  let n := nat_of_ascii c in ((9 <=? n) && (n <=? 13)) || (n =? 32).

(** [strings.TrimSpace(s)].  Go also trims the white space runes above
    U+007F (U+0085, U+00A0, ...); the two agree on every string that holds
    none of those, in particular on ASCII. *)
Definition TrimSpace (s : string) : string :=
  TrimRightFunc isSpace (TrimLeftFunc isSpace s).

(** [strings.ReplaceAll(s, old, new)] for a one-byte [old]. *)
Fixpoint ReplaceAll (s : string) (old : ascii) (new : string) : string :=
  match s with
  | EmptyString => EmptyString
  | String c s' =>
      (if Ascii.eqb c old then new else str c) +:+ ReplaceAll s' old new
  end.

Definition isASCIIUpper (c : ascii) : bool :=
  let n := nat_of_ascii c in (65 <=? n) && (n <=? 90).

(** [strings.ToLower(s)] on the bytes below U+0080; Go also maps the
    upper-case letters above U+007F, and agrees on ASCII. *)
Fixpoint ToLower (s : string) : string :=
  match s with
  | EmptyString => EmptyString
  | String c s' =>
      String (if isASCIIUpper c then ascii_of_nat (nat_of_ascii c + 32) else c)
             (ToLower s')
  end.

(** [strconv.Itoa] on a non-negative number, as [%d] and the template
    engine print an [int]. *)
Definition Itoa (n : nat) : string :=
  NilZero.string_of_uint (Nat.to_uint n).

End GoStrings.

Import GoStrings.

(** ** Package [gen]: pure helpers *)

(** [isASCIILower] *)
Definition isASCIILower (c : ascii) : bool :=
  let n := nat_of_ascii c in (97 <=? n) && (n <=? 122).

(** [isASCIIDigit] *)
Definition isASCIIDigit (c : ascii) : bool :=
  let n := nat_of_ascii c in (48 <=? n) && (n <=? 57).

(** [c ^= ' '] on a byte. *)
Definition xorSpace (c : ascii) : ascii :=
  ascii_of_N (N.lxor (N_of_ascii c) 32).

Definition nextIsLower (s : string) : bool :=
  match s with
  | String c _ => isASCIILower c
  | EmptyString => false
  end.

(** The main loop of [camelCase].  The source walks the bytes with an index
    [i] that an inner loop advances over the lower-case run which follows a
    converted letter; [inRun = true] is that inner loop, [inRun = false] the
    head of the outer loop. *)
Fixpoint camelCaseLoop (inRun : bool) (s : string) : string :=
  match s with
  | EmptyString => EmptyString
  | String c rest =>
      if inRun && isASCIILower c then String c (camelCaseLoop true rest)
      else if Ascii.eqb c "_" && nextIsLower rest then camelCaseLoop false rest
      else if isASCIIDigit c then String c (camelCaseLoop false rest)
      else String (if isASCIILower c then xorSpace c else c)
                  (camelCaseLoop true rest)
  end.

(** [camelCase] *)
Definition camelCase (s : string) : string :=
  match s with
  | EmptyString => EmptyString
  | String c rest =>
      if Ascii.eqb c "_" then String "X" (camelCaseLoop false rest)
      else camelCaseLoop false s
  end.

(** [camelCaseVars] *)
Definition camelCaseVars (s : string) : string :=
  Join (map camelCase (Split s ".")) ".".

(** The body of the loop of [transformPath] on one segment [p]: the new
    value of [paths[i]].  [None] is the panic of [p[1:len(p)-1]]. *)
Definition transformSegment (p : string) : option string :=
  if (0 <? len p)
     && ((bool_decide (index p 0 = Some "{"%char)
          && bool_decide (index p (len p - 1) = Some "}"%char))
         || bool_decide (index p 0 = Some ":"%char))
  then q ← slice p 1 (len p - 1); Some (":" +:+ q)
  else Some p.

(** [transformPath] *)
Definition transformPath (path : string) : option string :=
  paths ← mapM transformSegment (Split path "/");
  Some (Join paths "/").


(** ** The protobuf descriptors the generator reads *)

(** [protoreflect.Kind] *)
Inductive Kind :=
| BoolKind | EnumKind | Int32Kind | Sint32Kind | Uint32Kind | Int64Kind
| Sint64Kind | Uint64Kind | Sfixed32Kind | Fixed32Kind | FloatKind
| Sfixed64Kind | Fixed64Kind | DoubleKind | StringKind | BytesKind
| MessageKind | GroupKind.

Global Instance Kind_eq_dec : EqDecision Kind.
Proof. solve_decision. Defined.

(** What the generator reads of a [protoreflect.FieldDescriptor].  Message
    types may refer to each other in cycles, so a field of message kind
    holds the full name of its message; [fd.Message().Fields()] is looked
    up in the descriptor pool of the compiler request. *)
Record FieldDescriptor := {
  fd_Name : string;
  fd_IsMap : bool;
  fd_IsList : bool;
  fd_Kind : Kind;
  fd_Message : string
}.

(** [protogen.GoIdent] *)
Record GoIdent := { GoName : string; GoImportPath : string }.

(** The message [ginext.FieldTags] of the option [(tag.tags)]. *)
Record FieldTags := {
  GetForm : string; GetUri : string; GetJson : string; GetHeader : string;
  GetBinding : string; GetValidate : string; GetXml : string;
  GetYaml : string; GetToml : string; GetProtobuf : string;
  GetMsgpack : string; GetMultipart : string; GetCustom : string
}.

(** What the generator reads of a [protogen.Field]: its descriptor, its Go
    name, and the tag extensions among its options (an extension of string
    type that is not set reads as the empty string). *)
Record Field := {
  f_Name : string;
  f_GoName : string;
  f_JSONName : string;
  f_IsList : bool;
  f_IsMap : bool;
  f_Kind : Kind;
  f_MessageGoName : string;
  f_MapKeyKind : Kind;
  f_MapValueKind : Kind;
  f_MapValueMessageName : string;
  f_Tags : option FieldTags;
  f_FormTag : string; f_UriTag : string; f_HeaderTag : string;
  f_BindingTag : string; f_XmlTag : string; f_YamlTag : string;
  f_TomlTag : string; f_ProtobufTag : string; f_MsgpackTag : string;
  f_MultipartTag : string
}.

(** [protogen.Message] *)
Record Message := {
  msg_FullName : string;
  msg_GoIdent : GoIdent;
  msg_Fields : list Field
}.

(** The [oneof pattern] of [annotations.HttpRule]. *)
Inductive HttpPattern :=
| HttpRule_Get (path : string)
| HttpRule_Put (path : string)
| HttpRule_Post (path : string)
| HttpRule_Delete (path : string)
| HttpRule_Patch (path : string)
| HttpRule_Custom (kind path : string)
| HttpRule_unset.

(** [annotations.HttpRule] *)
Inductive HttpRule :=
| mkHttpRule (pattern : HttpPattern) (body responseBody : string)
             (additionalBindings : list HttpRule).

Definition Pattern (r : HttpRule) : HttpPattern :=
  let 'mkHttpRule p _ _ _ := r in p.
Definition Body (r : HttpRule) : string :=
  let 'mkHttpRule _ b _ _ := r in b.
Definition ResponseBody (r : HttpRule) : string :=
  let 'mkHttpRule _ _ rb _ := r in rb.
Definition AdditionalBindings (r : HttpRule) : list HttpRule :=
  let 'mkHttpRule _ _ _ bs := r in bs.

(** [protogen.Method]; [m_HttpRule] is the extension [google.api.http] of
    the method's options, [None] when it is not set. *)
Record Method := {
  m_GoName : string;
  m_Name : string;
  m_IsStreamingClient : bool;
  m_IsStreamingServer : bool;
  m_Input : Message;
  m_Output : Message;
  m_HttpRule : option HttpRule
}.

(** [protogen.Service] *)
Record Service := {
  svc_GoName : string;
  svc_FullName : string;
  svc_Deprecated : bool;
  svc_Methods : list Method
}.

(** [protogen.File] *)
Record File := { file_Path : string }.

(** ** The descriptors the generator builds *)

Record fieldInfo := {
  fi_Name : string;
  fi_GoName : string;
  fi_GoType : string;
  fi_JsonName : string;
  fi_Tags : gmap string string
}.

Record methodDesc := {
  md_Name : string;
  md_OriginalName : string;
  md_Num : nat;
  md_Request : string;
  md_Reply : string;
  md_Path : string;
  md_Method : string;
  md_HasParams : bool;
  md_HasBody : bool;
  md_Body : string;
  md_ResponseBody : string;
  md_ClientPath : string;
  md_PathParams : list string;
  md_Fields : list fieldInfo
}.

Record serviceDesc := {
  sd_ServiceType : string;
  sd_ServiceName : string;
  sd_Metadata : string;
  sd_Methods : list methodDesc;
  sd_MethodSets : gmap string methodDesc
}.

(** ** What the generator takes from its libraries and its run time *)

(** The regular expressions of the generator, as the source writes them. *)
Definition pathParamPattern : string := "(?i){([a-z.0-9_\s]*)=?([^{}]*)}".
Definition bracePattern : string := "{([^}]+)}".
Definition namedParamPattern (name : string) : string :=
  "(?i){([\s]*" +:+ name +:+ "[\s]*)=?([^{}]*)}".

(** What package [regexp] computes for them. *)
Class Regexp := {
  (** The submatches 1 and 2 of every match of [pathParamPattern] in the
      argument, in order: [FindAllStringSubmatch(path, -1)] in
      [buildPathParams]. *)
  pathParamSubmatches : string -> list (string * string);
  (** The submatch 1 of every match of [bracePattern] in the argument, in
      order: [FindAllStringSubmatch(path, -1)] in [extractPathParams]. *)
  braceSubmatches : string -> list string;
  (** The bounds of the first match of [namedParamPattern name] in [path]:
      [FindStringIndex(path)] in [replacePath]. *)
  namedParamIndex : forall (name path : string), option (nat * nat)
}.

(** Go leaves the order of [for k, v := range m] over a map unspecified:
    it is some enumeration of the entries. *)
Class MapOrder := {
  mapRange : forall {V : Type}, gmap string V -> list (string * V);
  mapRange_perm : forall (V : Type) (m : gmap string V),
      mapRange m ≡ₚ map_to_list m
}.

(** [protogen.GeneratedFile] resolves a Go identifier against the imports it
    has seen so far. *)
Class Protogen := {
  Imports : Type;
  QualifiedGoIdent : Imports -> GoIdent -> string * Imports
}.

(** ** Package [gen]: field information and struct tags *)

(** [strings.SplitN(s, sep, 2)] for a one-byte [sep]: the two parts around
    the first [sep], or [None] when there is no [sep] (the result then has
    one element). *)
Fixpoint SplitN2 (s : string) (sep : ascii) : option (string * string) :=
  match s with
  | EmptyString => None
  | String c s' =>
      if Ascii.eqb c sep then Some (EmptyString, s')
      else match SplitN2 s' sep with
           | Some (a, b) => Some (String c a, b)
           | None => None
           end
  end.

(** [if v != "" { tags[key] = v }] *)
Definition setTag (key value : string) (tags : gmap string string)
  : gmap string string :=
  if String.eqb value "" then tags else <[key := value]> tags.

(** The text of the custom tags, "key1:value1,key2:value2". *)
Definition parseCustomTags (custom : string) (tags : gmap string string)
  : gmap string string :=
  if String.eqb custom "" then tags
  else foldl (fun tags pair =>
                match SplitN2 pair ":" with
                | Some (k, v) => <[TrimSpace k := TrimSpace v]> tags
                | None => tags
                end) tags (Split custom ",").

(** [parseFieldTags] *)
Definition parseFieldTags (field : Field) : gmap string string :=
  let tags : gmap string string := ∅ in
  let tags :=
    match f_Tags field with
    | Some fieldTags =>
        parseCustomTags (GetCustom fieldTags)
          (setTag "multipart" (GetMultipart fieldTags)
          (setTag "msgpack" (GetMsgpack fieldTags)
          (setTag "protobuf" (GetProtobuf fieldTags)
          (setTag "toml" (GetToml fieldTags)
          (setTag "yaml" (GetYaml fieldTags)
          (setTag "xml" (GetXml fieldTags)
          (setTag "validate" (GetValidate fieldTags)
          (setTag "binding" (GetBinding fieldTags)
          (setTag "header" (GetHeader fieldTags)
          (setTag "json" (GetJson fieldTags)
          (setTag "uri" (GetUri fieldTags)
          (setTag "form" (GetForm fieldTags) tags))))))))))))
    | None => tags
    end in
  let tags :=
    setTag "multipart" (f_MultipartTag field)
    (setTag "msgpack" (f_MsgpackTag field)
    (setTag "protobuf" (f_ProtobufTag field)
    (setTag "toml" (f_TomlTag field)
    (setTag "yaml" (f_YamlTag field)
    (setTag "xml" (f_XmlTag field)
    (setTag "binding" (f_BindingTag field)
    (setTag "header" (f_HeaderTag field)
    (setTag "uri" (f_UriTag field)
    (setTag "form" (f_FormTag field) tags))))))))) in
  match tags !! "json" with
  | Some _ => tags
  | None => <["json" := f_Name field]> tags
  end.

(** [getScalarGoType] *)
Definition getScalarGoType (field : Field) : string :=
  match f_Kind field with
  | BoolKind => "bool"
  | Int32Kind | Sint32Kind | Sfixed32Kind => "int32"
  | Uint32Kind | Fixed32Kind => "uint32"
  | Int64Kind | Sint64Kind | Sfixed64Kind => "int64"
  | Uint64Kind | Fixed64Kind => "uint64"
  | FloatKind => "float32"
  | DoubleKind => "float64"
  | StringKind => "string"
  | BytesKind => "[]byte"
  | EnumKind => "int32"
  | MessageKind => "*" +:+ f_MessageGoName field
  | GroupKind => "interface{}"
  end.

(** [getMapKeyType] *)
Definition getMapKeyType (k : Kind) : string :=
  match k with
  | StringKind => "string"
  | Int32Kind | Sint32Kind | Sfixed32Kind => "int32"
  | Int64Kind | Sint64Kind | Sfixed64Kind => "int64"
  | Uint32Kind | Fixed32Kind => "uint32"
  | Uint64Kind | Fixed64Kind => "uint64"
  | _ => "string"
  end.

(** [getMapValueType], on the kind of the value and the name of its
    message. *)
Definition getMapValueType (k : Kind) (messageName : string) : string :=
  match k with
  | BoolKind => "bool"
  | Int32Kind | Sint32Kind | Sfixed32Kind => "int32"
  | Uint32Kind | Fixed32Kind => "uint32"
  | Int64Kind | Sint64Kind | Sfixed64Kind => "int64"
  | Uint64Kind | Fixed64Kind => "uint64"
  | FloatKind => "float32"
  | DoubleKind => "float64"
  | StringKind => "string"
  | BytesKind => "[]byte"
  | EnumKind => "int32"
  | MessageKind => messageName
  | GroupKind => "interface{}"
  end.

(** [getGoType] *)
Definition getGoType (field : Field) : string :=
  if f_IsList field then "[]" +:+ getScalarGoType field
  else if f_IsMap field then
    "map[" +:+ getMapKeyType (f_MapKeyKind field) +:+ "]"
    +:+ getMapValueType (f_MapValueKind field) (f_MapValueMessageName field)
  else getScalarGoType field.

(** [parseMessageFields] *)
Definition parseMessageFields (message : Message) : list fieldInfo :=
  map (fun field =>
         {| fi_Name := f_Name field;
            fi_GoName := f_GoName field;
            fi_GoType := getGoType field;
            fi_JsonName := f_JSONName field;
            fi_Tags := parseFieldTags field |})
      (msg_Fields message).

Definition tagOrder : list string :=
  ["json"; "xml"; "yaml"; "toml"; "form"; "uri"; "header"; "protobuf";
   "msgpack"; "multipart"; "binding"; "validate"].

(** [fmt.Sprintf] of a key and a value as [key:"value"]. *)
Definition tagPart (key value : string) : string :=
  key +:+ ":" +:+ str DQUOTE +:+ value +:+ str DQUOTE.

(** [formatStructTags] *)
Definition formatStructTags `{MapOrder} (tags : gmap string string) : string :=
  if size tags =? 0 then ""
  else
    let ordered :=
      omap (fun key => value ← tags !! key; Some (tagPart key value)) tagOrder in
    let custom :=
      omap (fun kv : string * string =>
              if existsb (String.eqb kv.1) tagOrder then None
              else Some (tagPart kv.1 kv.2))
           (mapRange tags) in
    let parts := ordered ++ custom in
    if 0 <? length parts then str BACKQUOTE +:+ Join parts " " +:+ str BACKQUOTE
    else "".

(** [hasTag] *)
Definition hasTag (field : fieldInfo) (tagName : string) : bool :=
  bool_decide (is_Some (fi_Tags field !! tagName)).

(** [getTag] *)
Definition getTag (field : fieldInfo) (tagName : string) : string :=
  default "" (fi_Tags field !! tagName).

(** ** Package [gen]: the three templates

    [text/template] is a library; what follows is the text each template
    produces for a [serviceDesc], action by action.  A [{{-] removes the
    white space that ends the text before it and a [-}}] the white space
    that starts the text after it; [range] over a map visits the keys in
    increasing order, over a slice in index order. *)

Definition NL : string := str LF.
Definition TB : string := str TAB.
Definition QT : string := str DQUOTE.

(** The text of a [range]: the texts of the elements, one after another. *)
Definition rangeText {A : Type} (body : A -> string) (l : list A) : string :=
  foldr (fun x acc => body x +:+ acc) "" l.

(** The entries of a map in increasing order of their keys. *)
Definition sortedRange {V : Type} (m : gmap string V) : list (string * V) :=
  merge_sort (fun a b : string * V => Is_true (String.leb a.1 b.1))
             (map_to_list m).

(** [_{{$svrType}}_{{.Name}}{{.Num}}_HTTP_Handler] *)
Definition handlerName (svrType : string) (m : methodDesc) : string :=
  "_" +:+ svrType +:+ "_" +:+ md_Name m +:+ Itoa (md_Num m) +:+ "_HTTP_Handler".

(** [Operation{{$svrType}}{{.OriginalName}}] *)
Definition operationConst (svrType : string) (m : methodDesc) : string :=
  "Operation" +:+ svrType +:+ md_OriginalName m.

(** ["/{{$svrName}}/{{.OriginalName}}"], without the quotes. *)
Definition operationName (svrName : string) (m : methodDesc) : string :=
  "/" +:+ svrName +:+ "/" +:+ md_OriginalName m.

Definition hasFields (m : methodDesc) : bool :=
  match md_Fields m with [] => false | _ => true end.

(** The [if err := ...; err != nil {] line of a binding step; [call] is the
    call up to its last argument.  The branch for a method with fields keeps
    the line break and the two tabs before [{{else}}], the other branch
    loses them to [{{- end}}]. *)
Definition bindLine (m : methodDesc) (call : string) : string :=
  if hasFields m
  then "if err := " +:+ call +:+ "&ginReq); err != nil {" +:+ NL +:+ TB +:+ TB
  else "if err := " +:+ call +:+ "&in); err != nil {".

Definition errorBlock : string :=
  NL +:+ TB +:+ TB +:+ TB +:+ "ctx.Error(err)" +:+
  NL +:+ TB +:+ TB +:+ TB +:+ "return" +:+
  NL +:+ TB +:+ TB +:+ "}".

Definition queryBlock (m : methodDesc) : string :=
  NL +:+ TB +:+ TB +:+ "// query" +:+
  NL +:+ TB +:+ TB +:+ bindLine m "ctx.BindQuery(" +:+ errorBlock.

(** The body of the last [{{range .Methods}}] of [serverTemplate]. *)
Definition handlerText (svrType : string) (m : methodDesc) : string :=
  NL +:+ "func " +:+ handlerName svrType m +:+ "(srv " +:+ svrType
     +:+ "HTTPServer) func(ctx *gin.Context) {" +:+
  NL +:+ TB +:+ "return func(ctx *gin.Context) {" +:+
  NL +:+ TB +:+ TB +:+ "// Set operation for middleware" +:+
  NL +:+ TB +:+ TB +:+ "ctx.Set(" +:+ QT +:+ "operation" +:+ QT +:+ ", "
     +:+ operationConst svrType m +:+ ")" +:+
  NL +:+ TB +:+ TB +:+
  NL +:+ TB +:+ TB +:+
  (if hasFields m
   then "var ginReq " +:+ ToLower (md_Name m) +:+ "GinRequest"
   else "var in " +:+ md_Request m) +:+
  (if md_HasBody m
   then
     NL +:+ TB +:+ TB +:+ "// body binding with automatic Content-Type detection" +:+
     NL +:+ TB +:+ TB +:+ bindLine m "binding1.BindByContentType(ctx, " +:+ errorBlock +:+
     (if negb (String.eqb (md_Body m) "") then queryBlock m else "")
   else queryBlock m) +:+
  (if md_HasParams m
   then
     NL +:+ TB +:+ TB +:+ "// params" +:+
     NL +:+ TB +:+ TB +:+ bindLine m "ctx.BindUri(" +:+ errorBlock
   else "") +:+
  NL +:+ TB +:+ TB +:+
  (if hasFields m
   then
     NL +:+ TB +:+ TB +:+ "// Convert gin request to protobuf request" +:+
     NL +:+ TB +:+ TB +:+ "in := ginReq.to" +:+ md_Name m +:+ "Request()" +:+
     NL +:+ TB +:+ TB +:+
     NL +:+ TB +:+ TB +:+ "// Custom field tags detected:" +:+
     NL +:+ TB +:+ TB +:+
     rangeText (fun f =>
       NL +:+ TB +:+ TB +:+ "// Field " +:+ fi_GoName f +:+ ": " +:+
       rangeText (fun kv : string * string =>
                    kv.1 +:+ ":" +:+ QT +:+ kv.2 +:+ QT +:+ " ")
                 (sortedRange (fi_Tags f)))
       (md_Fields m)
   else "") +:+
  NL +:+ TB +:+ TB +:+ "// header,ip等常用信息, form表单信息,包括上传文件" +:+
  NL +:+ TB +:+ TB +:+ "newCtx := metadata.NewContext(ctx)" +:+
  NL +:+ TB +:+ TB +:+
  (if hasFields m
   then "reply, err := srv." +:+ md_Name m +:+ "(newCtx, in)"
   else "reply, err := srv." +:+ md_Name m +:+ "(newCtx, &in)") +:+
  NL +:+ TB +:+ TB +:+ "if err != nil {" +:+
  NL +:+ TB +:+ TB +:+ TB +:+ "ctx.Error(err)" +:+
  NL +:+ TB +:+ TB +:+ TB +:+ "return" +:+
  NL +:+ TB +:+ TB +:+ "}" +:+
  NL +:+ TB +:+ TB +:+ "ctx.JSON(200, reply" +:+ md_ResponseBody m +:+ ")" +:+
  NL +:+ TB +:+ "}" +:+
  NL +:+ "}" +:+
  NL.

(** The line of a route: [r.{{.Method}}("{{.Path}}", ] followed by the
    handler expression. *)
Definition routeCall (m : methodDesc) (handler : string) : string :=
  "r." +:+ md_Method m +:+ "(" +:+ QT +:+ md_Path m +:+ QT +:+ ", " +:+ handler.

(** The declaration of an operation constant, in the first [range] of
    [serverTemplate]. *)
Definition operationConstDecl (svrType svrName : string) (m : methodDesc) : string :=
  "const " +:+ operationConst svrType m +:+ " = "
  +:+ QT +:+ operationName svrName m +:+ QT.

(** The look-up of the middlewares of an operation, in
    [Register...HTTPServerWithOperationMiddleware]. *)
Definition operationLookup (svrType : string) (m : methodDesc) : string :=
  "middlewares[" +:+ operationConst svrType m +:+ "]".

(** What executing [serverTemplate] on [s] writes. *)
Definition serverText (s : serviceDesc) : string :=
  let svrType := sd_ServiceType s in
  let svrName := sd_ServiceName s in
  let methodSets := map snd (sortedRange (sd_MethodSets s)) in
  let handler m := handlerName svrType m +:+ "(srv)" in
  NL +:+
  rangeText (fun m => NL +:+ operationConstDecl svrType svrName m) methodSets +:+
  NL +:+
  NL +:+ "type " +:+ sd_ServiceType s +:+ "HTTPServer interface {" +:+
  rangeText (fun m =>
    NL +:+ TB +:+ md_Name m +:+ "(context.Context, *" +:+ md_Request m
       +:+ ") (*" +:+ md_Reply m +:+ ", error)") methodSets +:+
  NL +:+ "}" +:+
  NL +:+
  NL +:+ "func Register" +:+ sd_ServiceType s +:+ "HTTPServer(r gin.IRouter, srv "
     +:+ sd_ServiceType s +:+ "HTTPServer) {" +:+
  rangeText (fun m =>
    NL +:+ TB +:+ routeCall m (handler m) +:+ ")") (sd_Methods s) +:+
  NL +:+ "}" +:+
  NL +:+
  NL +:+ "func Register" +:+ sd_ServiceType s
     +:+ "HTTPServerWithMiddleware(r gin.IRouter, srv " +:+ sd_ServiceType s
     +:+ "HTTPServer, middlewares ...gin.HandlerFunc) {" +:+
  rangeText (fun m =>
    NL +:+ TB +:+ routeCall m ("append(middlewares, " +:+ handler m +:+ ")...")
       +:+ ")") (sd_Methods s) +:+
  NL +:+ "}" +:+
  NL +:+
  NL +:+ "func Register" +:+ sd_ServiceType s
     +:+ "HTTPServerWithOperationMiddleware(r gin.IRouter, srv "
     +:+ sd_ServiceType s
     +:+ "HTTPServer, middlewares map[string][]gin.HandlerFunc) {" +:+
  rangeText (fun m =>
    NL +:+ TB +:+ "if mws, exists := " +:+ operationLookup svrType m
       +:+ "; exists {" +:+
    NL +:+ TB +:+ TB +:+ routeCall m ("append(mws, " +:+ handler m +:+ ")...")
       +:+ ")" +:+
    NL +:+ TB +:+ "} else {" +:+
    NL +:+ TB +:+ TB +:+ routeCall m (handler m) +:+ ")" +:+
    NL +:+ TB +:+ "}") (sd_Methods s) +:+
  NL +:+ "}" +:+
  NL +:+
  NL +:+
  rangeText (handlerText svrType) (sd_Methods s).

(** The body of the last [{{range .MethodSets}}] of [clientTemplate]. *)
Definition clientMethodText (svrType : string) (m : methodDesc) : string :=
  let invoke args :=
    "err := c.client.Invoke(ctx, " +:+ QT +:+ md_Method m +:+ QT +:+ ", path, "
    +:+ args +:+ ", &out" +:+ md_ResponseBody m +:+ ", opts...)" in
  NL +:+ "func (c *" +:+ svrType +:+ "HTTPClientImpl) " +:+ md_Name m
     +:+ "(ctx context.Context, in *" +:+ md_Request m
     +:+ ", opts ...client.CallOption) (*" +:+ md_Reply m +:+ ", error) {" +:+
  NL +:+ TB +:+ "var out " +:+ md_Reply m +:+
  NL +:+ TB +:+
  NL +:+ TB +:+ "// 构建请求路径" +:+
  NL +:+ TB +:+ "path := " +:+ QT +:+ md_ClientPath m +:+ QT +:+
  (if md_HasParams m
   then
     NL +:+ TB +:+ "// 替换路径参数" +:+
     rangeText (fun p =>
       NL +:+ TB +:+ "path = strings.ReplaceAll(path, " +:+ QT +:+ "{" +:+ p
          +:+ "}" +:+ QT +:+ ", fmt.Sprintf(" +:+ QT +:+ "%v" +:+ QT +:+ ", in."
          +:+ camelCase p +:+ "))") (md_PathParams m)
   else "") +:+
  (if String.eqb (md_Method m) "GET"
   then
     NL +:+ TB +:+ "// GET请求" +:+
     NL +:+ TB +:+ invoke "nil"
   else
     NL +:+ TB +:+ "// " +:+ md_Method m +:+ "请求" +:+
     NL +:+ TB +:+
     (if md_HasBody m
      then invoke ("in" +:+ md_Body m) +:+ NL +:+ TB
      else invoke "nil" +:+ NL +:+ TB)) +:+
  NL +:+ TB +:+
  NL +:+ TB +:+ "if err != nil {" +:+
  NL +:+ TB +:+ TB +:+ "return nil, fmt.Errorf(" +:+ QT +:+ md_Method m +:+ " "
     +:+ md_ClientPath m +:+ " failed: %w" +:+ QT +:+ ", err)" +:+
  NL +:+ TB +:+ "}" +:+
  NL +:+ TB +:+ "return &out, nil" +:+
  NL +:+ "}" +:+
  NL.

(** What executing [clientTemplate] on [s] writes. *)
Definition clientText (s : serviceDesc) : string :=
  let svrType := sd_ServiceType s in
  let methodSets := map snd (sortedRange (sd_MethodSets s)) in
  NL +:+
  NL +:+ "type " +:+ sd_ServiceType s +:+ "HTTPClient interface {" +:+
  rangeText (fun m =>
    NL +:+ TB +:+ md_Name m +:+ "(ctx context.Context, req *" +:+ md_Request m
       +:+ ", opts ...client.CallOption) (rsp *" +:+ md_Reply m
       +:+ ", err error)") methodSets +:+
  NL +:+ "}" +:+
  NL +:+ TB +:+
  NL +:+ "type " +:+ sd_ServiceType s +:+ "HTTPClientImpl struct{" +:+
  NL +:+ TB +:+ "client client.Client" +:+
  NL +:+ "}" +:+
  NL +:+ TB +:+
  NL +:+ "func New" +:+ sd_ServiceType s
     +:+ "HTTPClient(opts ...client.ClientOption) " +:+ sd_ServiceType s
     +:+ "HTTPClient {" +:+
  NL +:+ TB +:+ "c := client.NewClient(opts...)" +:+
  NL +:+ TB +:+ "return &" +:+ sd_ServiceType s +:+ "HTTPClientImpl{client: c}" +:+
  NL +:+ "}" +:+
  NL +:+
  NL +:+
  rangeText (clientMethodText svrType) methodSets.

(** The body of [{{range .MethodSets}}] of [tagsStructTemplate]. *)
Definition tagsMethodText `{MapOrder} (m : methodDesc) : string :=
  let ginRequest := ToLower (md_Name m) +:+ "GinRequest" in
  NL +:+
  (if hasFields m
   then
     NL +:+ "// " +:+ ginRequest +:+ " provides gin binding tags for "
        +:+ md_Request m +:+
     NL +:+ "type " +:+ ginRequest +:+ " struct {" +:+
     NL +:+
     rangeText (fun f =>
       TB +:+ fi_GoName f +:+ " " +:+ fi_GoType f +:+ " "
          +:+ formatStructTags (fi_Tags f) +:+ NL) (md_Fields m) +:+
     "}" +:+
     NL +:+
     NL +:+ "// convert" +:+ md_Name m
        +:+ "GinRequest converts from gin request struct to protobuf struct" +:+
     NL +:+ "func (r *" +:+ ginRequest +:+ ") to" +:+ md_Name m
        +:+ "Request() *" +:+ md_Request m +:+ " {" +:+
     NL +:+ TB +:+ "return &" +:+ md_Request m +:+ "{" +:+
     NL +:+
     rangeText (fun f =>
       TB +:+ TB +:+ fi_GoName f +:+ ": r." +:+ fi_GoName f +:+ "," +:+ NL)
       (md_Fields m) +:+
     TB +:+ "}" +:+
     NL +:+ "}" +:+
     NL +:+
     NL +:+ "// from" +:+ md_Name m
        +:+ "Request converts from protobuf struct to gin request struct  " +:+
     NL +:+ "func from" +:+ md_Name m +:+ "Request(req *" +:+ md_Request m
        +:+ ") *" +:+ ginRequest +:+ " {" +:+
     NL +:+ TB +:+ "return &" +:+ ginRequest +:+ "{" +:+
     NL +:+
     rangeText (fun f =>
       TB +:+ TB +:+ fi_GoName f +:+ ": req." +:+ fi_GoName f +:+ "," +:+ NL)
       (md_Fields m) +:+
     TB +:+ "}" +:+
     NL +:+ "}" +:+
     NL
   else "") +:+
  NL.

(** What executing [tagsStructTemplate] on [s] writes. *)
Definition tagsText `{MapOrder} (s : serviceDesc) : string :=
  "// Internal structs with gin binding tags for protobuf messages" +:+
  NL +:+
  NL +:+
  rangeText tagsMethodText (map snd (sortedRange (sd_MethodSets s))).

(** The first loop of [execute]: [s.MethodSets[m.Name] = m] for every
    method, a later descriptor of a name replacing an earlier one. *)
Definition buildMethodSets (methods : list methodDesc) : gmap string methodDesc :=
  foldl (fun sets m => <[md_Name m := m]> sets) ∅ methods.

(** The descriptor after the first loop of [execute] has filled in its
    [MethodSets]. *)
Definition withMethodSets (s : serviceDesc) : serviceDesc :=
  {| sd_ServiceType := sd_ServiceType s;
     sd_ServiceName := sd_ServiceName s;
     sd_Metadata := sd_Metadata s;
     sd_Methods := sd_Methods s;
     sd_MethodSets := buildMethodSets (sd_Methods s) |}.

(** [serviceDesc.execute]; the three templates parse and execute without an
    error, so no [panic] of [execute] is reached. *)
Definition execute `{MapOrder} (s : serviceDesc) : string :=
  let s := withMethodSets s in
  let buf := serverText s in
  let buf := buf +:+ NL +:+ NL in
  let buf := buf +:+ clientText s in
  let buf := buf +:+ NL +:+ NL in
  let buf := buf +:+ tagsText s in
  Trim buf (str CR +:+ str LF).

(** ** Instances of the library interfaces

    They make the generator executable.  [AsciiRegexp] matches the three
    patterns byte by byte with the leftmost-first rule of package [regexp];
    Go matches code points and folds case beyond ASCII, and agrees with it
    on ASCII paths. *)

Module AsciiRegexp.

(** The shapes the three patterns are made of: one character of a class,
    a greedy star of a class, a greedy optional character, and the start
    or end of a group. *)
Inductive Item :=
| One (p : ascii -> bool)
| Star (p : ascii -> bool)
| Opt (p : ascii -> bool)
| Mark.

(** Match [items] at the start of [s], which is at offset [pos]: the
    offset of the end of the match the engine prefers, and the offsets of
    the marks. *)
Fixpoint matchAt (items : list Item) : string -> nat -> option (nat * list nat) :=
  match items with
  | [] => fun _ pos => Some (pos, [])
  | Mark :: rest => fun s pos =>
      match matchAt rest s pos with
      | Some (e, marks) => Some (e, pos :: marks)
      | None => None
      end
  | One p :: rest => fun s pos =>
      match s with
      | String c s' => if p c then matchAt rest s' (S pos) else None
      | EmptyString => None
      end
  | Opt p :: rest => fun s pos =>
      match s with
      | String c s' =>
          if p c then
            match matchAt rest s' (S pos) with
            | Some r => Some r
            | None => matchAt rest s pos
            end
          else matchAt rest s pos
      | EmptyString => matchAt rest s pos
      end
  | Star p :: rest =>
      fix star (s : string) (pos : nat) : option (nat * list nat) :=
        match s with
        | String c s' =>
            if p c then
              match star s' (S pos) with
              | Some r => Some r
              | None => matchAt rest s pos
              end
            else matchAt rest s pos
        | EmptyString => matchAt rest s pos
        end
  end.

(** All matches from left to right, none overlapping another; [skip]
    counts the characters still covered by the last match. *)
Fixpoint findAll (items : list Item) (s : string) (pos skip : nat)
  : list (nat * nat * list nat) :=
  match s with
  | EmptyString => []
  | String _ s' =>
      match skip with
      | S k => findAll items s' (S pos) k
      | O =>
          match matchAt items s pos with
          | Some (e, marks) => (pos, e, marks) :: findAll items s' (S pos) (e - pos - 1)
          | None => findAll items s' (S pos) 0
          end
      end
  end.

Definition isChar (c : ascii) : ascii -> bool := Ascii.eqb c.
Definition isNot (c : ascii) : ascii -> bool := fun d => negb (Ascii.eqb c d).

(** [\s] of package [regexp]: tab, line feed, form feed, carriage
    return, space. *)
Definition reSpace (c : ascii) : bool :=
  let n := nat_of_ascii c in
  (n =? 9) || (n =? 10) || (n =? 12) || (n =? 13) || (n =? 32).

Definition isLetter (c : ascii) : bool := isASCIILower c || isASCIIUpper c.

(** [(?i)[a-z.0-9_\s]] *)
Definition nameClass (c : ascii) : bool :=
  isLetter c || isChar "." c || isASCIIDigit c || isChar "_" c || reSpace c.

(** [[^{}]] *)
Definition notBrace (c : ascii) : bool := isNot "{" c && isNot "}" c.

Definition foldCase (c : ascii) : ascii :=
  if isASCIIUpper c then ascii_of_nat (nat_of_ascii c + 32) else c.

(** One character of the name spliced into [namedParamPattern]: a dot
    matches any character but a line feed, a letter matches in both
    cases. *)
Definition nameItem (c : ascii) : Item :=
  if isChar "." c then One (isNot LF)
  else One (fun d => Ascii.eqb (foldCase d) (foldCase c)).

Definition pathParamItems : list Item :=
  [One (isChar "{"); Mark; Star nameClass; Mark; Opt (isChar "="); Mark;
   Star notBrace; Mark; One (isChar "}")].

Definition braceItems : list Item :=
  [One (isChar "{"); Mark; One (isNot "}"); Star (isNot "}"); Mark; One (isChar "}")].

Definition namedParamItems (name : string) : list Item :=
  [One (isChar "{"); Star reSpace]
  ++ map nameItem (list_ascii_of_string name)
  ++ [Star reSpace; Opt (isChar "="); Star notBrace; One (isChar "}")].

Definition between (s : string) (lo hi : nat) : string :=
  String.substring lo (hi - lo) s.

Definition findPathParams (path : string) : list (string * string) :=
  map (fun m : nat * nat * list nat =>
         match m.2 with
         | [a; b; c; d] => (between path a b, between path c d)
         | _ => ("", "")
         end)
      (findAll pathParamItems path 0 0).

Definition findBraces (path : string) : list string :=
  map (fun m : nat * nat * list nat =>
         match m.2 with
         | [a; b] => between path a b
         | _ => ""
         end)
      (findAll braceItems path 0 0).

Definition findNamedParam (name path : string) : option (nat * nat) :=
  match findAll (namedParamItems name) path 0 0 with
  | (i0, i1, _) :: _ => Some (i0, i1)
  | [] => None
  end.

Global Instance regexp : Regexp :=
  {| pathParamSubmatches := findPathParams;
     braceSubmatches := findBraces;
     namedParamIndex := findNamedParam |}.

End AsciiRegexp.

(** The enumeration of a map that [map_to_list] gives is one possible order
    of a range. *)
Global Instance canonicalMapOrder : MapOrder :=
  {| mapRange := fun V m => map_to_list m;
     mapRange_perm := fun V m => reflexivity (map_to_list m) |}.

(** A generated file all of whose identifiers live in the package being
    generated: [QualifiedGoIdent] returns [ident.GoName] and imports
    nothing. *)
Global Instance samePackage : Protogen :=
  {| Imports := unit;
     QualifiedGoIdent := fun imports ident => (GoName ident, imports) |}.

(** ** The generator *)

Definition WARN : string := str ESC +:+ "[31mWARN" +:+ str ESC +:+ "[m: ".
Definition ERROR : string := str ESC +:+ "[31mERROR" +:+ str ESC +:+ "[m: ".

Definition MethodGet : string := "GET".
Definition MethodPut : string := "PUT".
Definition MethodPost : string := "POST".
Definition MethodDelete : string := "DELETE".
Definition MethodPatch : string := "PATCH".

Definition deprecationComment : string := "// Deprecated: Do not use.".

(** [fields.ByName(name)] *)
Definition ByName (fields : list FieldDescriptor) (name : string)
  : option FieldDescriptor :=
  List.find (fun fd => String.eqb (fd_Name fd) name) fields.

Definition isMessageOrGroup (k : Kind) : bool :=
  bool_decide (k = MessageKind) || bool_decide (k = GroupKind).

Section Generator.

Context `{Regexp} `{MapOrder} `{Protogen}.

(** The descriptor pool: [MessageFields name] is [md.Fields()] of the
    message with that full name. *)
Variable MessageFields : string -> list FieldDescriptor.

(** A [protogen.GeneratedFile]: its import table and the text printed to
    it so far. *)
Record GeneratedFile := {
  gf_imports : Imports;
  gf_buf : string
}.

(** The state of a run of the plugin: the package variable [methodSets],
    what has been written to standard error (one entry per [Fprintf]),
    and the generated file [g]. *)
Record GenState := {
  methodSets : gmap string nat;
  stderr : list string;
  genfile : GeneratedFile
}.

(** How a piece of the generator ends: it returns, it calls [os.Exit], or
    it panics. *)
Inductive Outcome (A : Type) :=
| Done (a : A) (s : GenState)
| Exited (code : Z) (s : GenState)
| Panicked (s : GenState).
Global Arguments Done {A} a s.
Global Arguments Exited {A} code s.
Global Arguments Panicked {A} s.

Definition Gen (A : Type) : Type := GenState -> Outcome A.

Global Instance Gen_ret : MRet Gen := fun A a s => Done a s.
Global Instance Gen_bind : MBind Gen := fun A B f c s =>
  match c s with
  | Done a s' => f a s'
  | Exited code s' => Exited code s'
  | Panicked s' => Panicked s'
  end.

(** [fmt.Fprintf(os.Stderr, ...)] with the formatted text [line]. *)
Definition eprint (line : string) : Gen unit := fun s =>
  Done tt {| methodSets := methodSets s;
             stderr := stderr s ++ [line];
             genfile := genfile s |}.

(** [os.Exit(code)] *)
Definition osExit {A} (code : Z) : Gen A := fun s => Exited code s.

Definition panic {A} : Gen A := fun s => Panicked s.

(** [methodSets[name]]; a key that is absent reads as 0. *)
Definition getMethodSet (name : string) : Gen nat := fun s =>
  Done (default 0 (methodSets s !! name)) s.

(** [methodSets[name]++] *)
Definition incrMethodSet (name : string) : Gen unit := fun s =>
  Done tt {| methodSets :=
               <[name := S (default 0 (methodSets s !! name))]> (methodSets s);
             stderr := stderr s;
             genfile := genfile s |}.

(** [g.QualifiedGoIdent(ident)] *)
Definition qualifiedGoIdent (ident : GoIdent) : Gen string := fun s =>
  let '(name, imports) := QualifiedGoIdent (gf_imports (genfile s)) ident in
  Done name {| methodSets := methodSets s;
               stderr := stderr s;
               genfile := {| gf_imports := imports;
                             gf_buf := gf_buf (genfile s) |} |}.

(** [g.P(text)]: the text and a line feed are appended to the file. *)
Definition P (text : string) : Gen unit := fun s =>
  Done tt {| methodSets := methodSets s;
             stderr := stderr s;
             genfile := {| gf_imports := gf_imports (genfile s);
                           gf_buf := gf_buf (genfile s) +:+ text +:+ str LF |} |}.

Definition when (b : bool) (c : Gen unit) : Gen unit :=
  if b then c else mret tt.

(** [buildPathParams] *)
Definition buildPathParams (path : string) : Gen (gmap string (option string)) :=
  when (HasSuffix path "/")
    (eprint (WARN +:+ "Path " +:+ path +:+ " should not end with "
             +:+ str DQUOTE +:+ "/" +:+ str DQUOTE +:+ " " +:+ str LF));;
  mret (foldl (fun (res : gmap string (option string)) (m : string * string) =>
                 let name := TrimSpace m.1 in
                 if (1 <? len name) && (0 <? len m.2)
                 then <[name := Some m.2]> res
                 else <[name := None]> res)
              ∅ (pathParamSubmatches path)).

(** [replacePath]; the bounds that [FindStringIndex] returns lie within
    [path]. *)
Definition replacePath (name value path : string) : string :=
  match namedParamIndex name path with
  | Some (i0, i1) =>
      String.substring 0 i0 path +:+ name +:+ ":"
      +:+ ReplaceAll value "*" ".*"
      +:+ String.substring i1 (len path - i1) path
  | None => path
  end.

(** The inner loop of [buildMethodDesc], over the components [comps] of
    the parameter [v], looked up from the field list [fields] on. *)
Fixpoint walkFields (v path : string) (fields : list FieldDescriptor)
         (comps : list string) : Gen unit :=
  match comps with
  | [] => mret tt
  | field :: rest =>
      if String.eqb (TrimSpace field) "" then walkFields v path fields rest
      else
        let field :=
          if Contains field ":" then List.hd "" (Split field ":") else field in
        match ByName fields field with
        | None =>
            eprint (ERROR +:+ "The corresponding field '" +:+ v
                    +:+ "' declaration in message could not be found in '"
                    +:+ path +:+ "'" +:+ str LF);;
            osExit 2
        | Some fd =>
            if fd_IsMap fd then
              eprint (WARN +:+ "The field in path:'" +:+ v
                      +:+ "' shouldn't be a map." +:+ str LF);;
              walkFields v path fields rest
            else if fd_IsList fd then
              eprint (WARN +:+ "The field in path:'" +:+ v
                      +:+ "' shouldn't be a list." +:+ str LF);;
              walkFields v path fields rest
            else if isMessageOrGroup (fd_Kind fd) then
              walkFields v path (MessageFields (fd_Message fd)) rest
            else walkFields v path fields rest
        end
  end.

(** The outer loop of [buildMethodDesc], over the entries of [params] in
    the order of the range; it returns the rewritten [path]. *)
Fixpoint paramsLoop (m : Method) (params : list (string * option string))
         (path : string) : Gen string :=
  match params with
  | [] => mret path
  | (v, s) :: rest =>
      let path := match s with
                  | Some value => replacePath v value path
                  | None => path
                  end in
      walkFields v path (MessageFields (msg_FullName (m_Input m)))
                 (Split v ".");;
      paramsLoop m rest path
  end.

(** [buildMethodDesc].  The fields of the returned descriptor are
    evaluated in the order of the composite literal; the deferred
    increment of [methodSets] runs after that, also when [transformPath]
    panics. *)
Definition buildMethodDesc (m : Method) (method path : string) : Gen methodDesc :=
  params ← buildPathParams path;
  path ← paramsLoop m (mapRange params) path;
  num ← getMethodSet (m_GoName m);
  request ← qualifiedGoIdent (msg_GoIdent (m_Input m));
  reply ← qualifiedGoIdent (msg_GoIdent (m_Output m));
  let routerPath := transformPath path in
  incrMethodSet (m_GoName m);;
  match routerPath with
  | None => panic
  | Some routerPath =>
      mret {| md_Name := m_GoName m;
              md_OriginalName := m_Name m;
              md_Num := num;
              md_Request := request;
              md_Reply := reply;
              md_Path := routerPath;
              md_Method := method;
              md_HasParams := 0 <? size params;
              md_HasBody := false;
              md_Body := "";
              md_ResponseBody := "";
              md_ClientPath := path;
              md_PathParams := [];
              md_Fields := parseMessageFields (m_Input m) |}
  end.

(** [extractPathParams] *)
Definition extractPathParams (path : string) : list string :=
  braceSubmatches path.

(** The [switch] of [buildHTTPRule] on the pattern of the rule: the path
    and the method. *)
Definition rulePathMethod (rule : HttpRule) : string * string :=
  match Pattern rule with
  | HttpRule_Get p => (p, MethodGet)
  | HttpRule_Put p => (p, MethodPut)
  | HttpRule_Post p => (p, MethodPost)
  | HttpRule_Delete p => (p, MethodDelete)
  | HttpRule_Patch p => (p, MethodPatch)
  | HttpRule_Custom kind p => (p, kind)
  | HttpRule_unset => ("", "")
  end.

Definition setPathParams (md : methodDesc) (params : list string) : methodDesc :=
  {| md_Name := md_Name md; md_OriginalName := md_OriginalName md;
     md_Num := md_Num md; md_Request := md_Request md;
     md_Reply := md_Reply md; md_Path := md_Path md;
     md_Method := md_Method md; md_HasParams := md_HasParams md;
     md_HasBody := md_HasBody md; md_Body := md_Body md;
     md_ResponseBody := md_ResponseBody md;
     md_ClientPath := md_ClientPath md;
     md_PathParams := params; md_Fields := md_Fields md |}.

Definition setHasBody (md : methodDesc) (hasBody : bool) : methodDesc :=
  {| md_Name := md_Name md; md_OriginalName := md_OriginalName md;
     md_Num := md_Num md; md_Request := md_Request md;
     md_Reply := md_Reply md; md_Path := md_Path md;
     md_Method := md_Method md; md_HasParams := md_HasParams md;
     md_HasBody := hasBody; md_Body := md_Body md;
     md_ResponseBody := md_ResponseBody md;
     md_ClientPath := md_ClientPath md;
     md_PathParams := md_PathParams md; md_Fields := md_Fields md |}.

Definition setBody (md : methodDesc) (body : string) : methodDesc :=
  {| md_Name := md_Name md; md_OriginalName := md_OriginalName md;
     md_Num := md_Num md; md_Request := md_Request md;
     md_Reply := md_Reply md; md_Path := md_Path md;
     md_Method := md_Method md; md_HasParams := md_HasParams md;
     md_HasBody := md_HasBody md; md_Body := body;
     md_ResponseBody := md_ResponseBody md;
     md_ClientPath := md_ClientPath md;
     md_PathParams := md_PathParams md; md_Fields := md_Fields md |}.

Definition setResponseBody (md : methodDesc) (responseBody : string) : methodDesc :=
  {| md_Name := md_Name md; md_OriginalName := md_OriginalName md;
     md_Num := md_Num md; md_Request := md_Request md;
     md_Reply := md_Reply md; md_Path := md_Path md;
     md_Method := md_Method md; md_HasParams := md_HasParams md;
     md_HasBody := md_HasBody md; md_Body := md_Body md;
     md_ResponseBody := responseBody;
     md_ClientPath := md_ClientPath md;
     md_PathParams := md_PathParams md; md_Fields := md_Fields md |}.

(** [buildHTTPRule] *)
Definition buildHTTPRule (m : Method) (rule : HttpRule) : Gen methodDesc :=
  let '(path, method) := rulePathMethod rule in
  let body := Body rule in
  let responseBody := ResponseBody rule in
  md ← buildMethodDesc m method path;
  let md := setPathParams md (extractPathParams path) in
  (if String.eqb method MethodGet || String.eqb method MethodDelete
   then
     when (negb (String.eqb body ""))
       (eprint (WARN +:+ method +:+ " " +:+ path
                +:+ " body should not be declared." +:+ str LF))
   else
     when (String.eqb body "")
       (eprint (WARN +:+ method +:+ " " +:+ path
                +:+ " does not declare a body." +:+ str LF)));;
  let md :=
    if String.eqb body "*" then setBody (setHasBody md true) ""
    else if negb (String.eqb body "")
         then setBody (setHasBody md true) ("." +:+ camelCaseVars body)
         else setHasBody md false in
  let md :=
    if String.eqb responseBody "*" then setResponseBody md ""
    else if negb (String.eqb responseBody "")
         then setResponseBody md ("." +:+ camelCaseVars responseBody)
         else md in
  mret md.

(** [sd.Methods = append(sd.Methods, buildHTTPRule(g, method, bind))] for
    every additional binding of the rule, in order. *)
Fixpoint appendBindings (m : Method) (binds : list HttpRule)
         (methods : list methodDesc) : Gen (list methodDesc) :=
  match binds with
  | [] => mret methods
  | bind :: rest =>
      md ← buildHTTPRule m bind;
      appendBindings m rest (methods ++ [md])
  end.

(** The body of the loop of [genService] over the methods of the
    service: the new value of [sd.Methods]. *)
Definition genServiceMethod (service : Service) (omitempty : bool)
           (method : Method) (methods : list methodDesc)
  : Gen (list methodDesc) :=
  if m_IsStreamingClient method || m_IsStreamingServer method then mret methods
  else
    match m_HttpRule method with
    | Some rule =>
        methods ← appendBindings method (AdditionalBindings rule) methods;
        md ← buildHTTPRule method rule;
        mret (methods ++ [md])
    | None =>
        if negb omitempty then
          let path := "/" +:+ svc_FullName service +:+ "/" +:+ m_Name method in
          md ← buildMethodDesc method MethodPost path;
          mret (methods ++ [md])
        else mret methods
    end.

Fixpoint genServiceMethods (service : Service) (omitempty : bool)
         (todo : list Method) (methods : list methodDesc)
  : Gen (list methodDesc) :=
  match todo with
  | [] => mret methods
  | method :: rest =>
      methods ← genServiceMethod service omitempty method methods;
      genServiceMethods service omitempty rest methods
  end.

(** The [serviceDesc] that [genService] starts from, with the methods
    that its loop has collected. *)
Definition newServiceDesc (file : File) (service : Service)
           (methods : list methodDesc) : serviceDesc :=
  {| sd_ServiceType := svc_GoName service;
     sd_ServiceName := svc_FullName service;
     sd_Metadata := file_Path file;
     sd_Methods := methods;
     sd_MethodSets := ∅ |}.

(** [genService]; it returns the descriptor [sd] it has built, which the
    source keeps in a local variable. *)
Definition genService (file : File) (service : Service) (omitempty : bool)
  : Gen serviceDesc :=
  when (svc_Deprecated service) (P "//";; P deprecationComment);;
  methods ← genServiceMethods service omitempty (svc_Methods service) [];
  let sd := newServiceDesc file service methods in
  when (negb (length methods =? 0)) (P (execute sd));;
  mret sd.

(** *** What the builder does, read off without its effects

    The definitions below follow the loop of [buildMethodDesc] and say,
    as plain values, what it looks up, what it prints and where it
    stops; the theorems relate them to the functions above. *)

(** The map that [buildPathParams] returns. *)
Definition pathParams (path : string) : gmap string (option string) :=
  foldl (fun (res : gmap string (option string)) (m : string * string) =>
           let name := TrimSpace m.1 in
           if (1 <? len name) && (0 <? len m.2)
           then <[name := Some m.2]> res
           else <[name := None]> res)
        ∅ (pathParamSubmatches path).

(** The name that a component of a parameter is looked up under. *)
Definition fieldKey (field : string) : string :=
  if Contains field ":" then List.hd "" (Split field ":") else field.

(** The field list in which the component after [fd] is looked up. *)
Definition nextFields (fields : list FieldDescriptor) (fd : FieldDescriptor)
  : list FieldDescriptor :=
  if fd_IsMap fd || fd_IsList fd then fields
  else if isMessageOrGroup (fd_Kind fd) then MessageFields (fd_Message fd)
  else fields.

(** Walking the components [comps] of a parameter through the field tree
    from [fields] on: the descriptors found, up to the first component
    that names no field. *)
Fixpoint found (fields : list FieldDescriptor) (comps : list string)
  : list FieldDescriptor :=
  match comps with
  | [] => []
  | field :: rest =>
      if String.eqb (TrimSpace field) "" then found fields rest
      else match ByName fields (fieldKey field) with
           | None => []
           | Some fd => fd :: found (nextFields fields fd) rest
           end
  end.

(** Every component of the parameter names a field. *)
Fixpoint resolves (fields : list FieldDescriptor) (comps : list string) : bool :=
  match comps with
  | [] => true
  | field :: rest =>
      if String.eqb (TrimSpace field) "" then resolves fields rest
      else match ByName fields (fieldKey field) with
           | None => false
           | Some fd => resolves (nextFields fields fd) rest
           end
  end.

Definition mapWarning (v : string) : string :=
  WARN +:+ "The field in path:'" +:+ v +:+ "' shouldn't be a map." +:+ str LF.

Definition listWarning (v : string) : string :=
  WARN +:+ "The field in path:'" +:+ v +:+ "' shouldn't be a list." +:+ str LF.

Definition notFoundError (v path : string) : string :=
  ERROR +:+ "The corresponding field '" +:+ v
  +:+ "' declaration in message could not be found in '"
  +:+ path +:+ "'" +:+ str LF.

(** The warning printed for a field found on the way of parameter [v]. *)
Definition fieldWarning (v : string) (fd : FieldDescriptor) : option string :=
  if fd_IsMap fd then Some (mapWarning v)
  else if fd_IsList fd then Some (listWarning v)
  else None.

(** The parameter [v] of method [m] names fields of the request message
    all the way. *)
Definition paramResolves (m : Method) (v : string) : bool :=
  resolves (MessageFields (msg_FullName (m_Input m))) (Split v ".").

(** The path after the replacements of the parameters [params], in the
    order of the list. *)
Definition finalPath (params : list (string * option string)) (path : string)
  : string :=
  foldl (fun path (p : string * option string) =>
           match p.2 with
           | Some value => replacePath p.1 value path
           | None => path
           end) path params.

(** The parameters of [path] in the order [buildMethodDesc] ranges over
    them. *)
Definition rangedParams (path : string) : list (string * option string) :=
  mapRange (pathParams path).

(** Every parameter of [path] resolves in the request message of [m]. *)
Definition pathResolves (m : Method) (path : string) : bool :=
  forallb (fun p : string * option string => paramResolves m p.1)
          (rangedParams path).

(** [buildMethodDesc] gets as far as its [return] and [transformPath]
    does not panic there. *)
Definition pathBuilds (m : Method) (path : string) : bool :=
  pathResolves m path
  && bool_decide (is_Some (transformPath (finalPath (rangedParams path) path))).

Definition ruleBuilds (m : Method) (rule : HttpRule) : bool :=
  pathBuilds m (rulePathMethod rule).1.

(** The rule and the method do not fit: a body on GET or DELETE, or no
    body on another method. *)
Definition bodyMismatch (method body : string) : bool :=
  if String.eqb method MethodGet || String.eqb method MethodDelete
  then negb (String.eqb body "")
  else String.eqb body "".

(** The state after [lines] more have been written to standard error. *)
Definition printed (s : GenState) (lines : list string) : GenState :=
  {| methodSets := methodSets s;
     stderr := stderr s ++ lines;
     genfile := genfile s |}.

Definition isWarning (line : string) : Prop := HasPrefix line WARN = true.
Definition isError (line : string) : Prop := HasPrefix line ERROR = true.

(** The warnings of the walk of one parameter. *)
Definition walkWarnings (v : string) (fields : list FieldDescriptor)
           (comps : list string) : list string :=
  omap (fieldWarning v) (found fields comps).

(** What [buildPathParams] prints. *)
Definition slashWarning (path : string) : list string :=
  if HasSuffix path "/"
  then [WARN +:+ "Path " +:+ path +:+ " should not end with "
        +:+ str DQUOTE +:+ "/" +:+ str DQUOTE +:+ " " +:+ str LF]
  else [].

(** What the loop over the parameters prints: the warnings of each
    parameter in turn and, at the first parameter that does not resolve,
    the error that ends the run. *)
Fixpoint loopLines (m : Method) (params : list (string * option string))
         (path : string) : list string :=
  match params with
  | [] => []
  | (v, s) :: rest =>
      let path := match s with
                  | Some value => replacePath v value path
                  | None => path
                  end in
      let fields := MessageFields (msg_FullName (m_Input m)) in
      if paramResolves m v
      then walkWarnings v fields (Split v ".") ++ loopLines m rest path
      else walkWarnings v fields (Split v ".") ++ [notFoundError v path]
  end.

(** Everything [buildMethodDesc] prints for [path]. *)
Definition buildLines (m : Method) (path : string) : list string :=
  slashWarning path ++ loopLines m (rangedParams path) path.

(** The qualified names of the request and the reply type, and the import
    table after both have been resolved. *)
Definition qualifiedTypes (m : Method) (imports : Imports)
  : string * string * Imports :=
  let '(request, imports) := QualifiedGoIdent imports (msg_GoIdent (m_Input m)) in
  let '(reply, imports) := QualifiedGoIdent imports (msg_GoIdent (m_Output m)) in
  (request, reply, imports).

(** The descriptor [buildMethodDesc] returns when the counter of the
    method stands at [num] and the types resolve to [request] and
    [reply]; [None] when [transformPath] panics. *)
Definition builtDesc (m : Method) (method path : string) (num : nat)
           (request reply : string) : option methodDesc :=
  routerPath ← transformPath (finalPath (rangedParams path) path);
  Some {| md_Name := m_GoName m;
          md_OriginalName := m_Name m;
          md_Num := num;
          md_Request := request;
          md_Reply := reply;
          md_Path := routerPath;
          md_Method := method;
          md_HasParams := 0 <? size (pathParams path);
          md_HasBody := false;
          md_Body := "";
          md_ResponseBody := "";
          md_ClientPath := finalPath (rangedParams path) path;
          md_PathParams := [];
          md_Fields := parseMessageFields (m_Input m) |}.

(** The state [buildMethodDesc] leaves when it gets past its loop: the
    lines printed, the counter of the method one up, the two types
    imported. *)
Definition builtState (m : Method) (path : string) (s : GenState) : GenState :=
  {| methodSets :=
       <[m_GoName m := S (default 0 (methodSets s !! m_GoName m))]> (methodSets s);
     stderr := stderr s ++ buildLines m path;
     genfile := {| gf_imports := (qualifiedTypes m (gf_imports (genfile s))).2;
                   gf_buf := gf_buf (genfile s) |} |}.

(** The descriptor that [buildHTTPRule] makes of the one that
    [buildMethodDesc] returned. *)
Definition ruleDesc (rule : HttpRule) (md : methodDesc) : methodDesc :=
  let body := Body rule in
  let responseBody := ResponseBody rule in
  {| md_Name := md_Name md;
     md_OriginalName := md_OriginalName md;
     md_Num := md_Num md;
     md_Request := md_Request md;
     md_Reply := md_Reply md;
     md_Path := md_Path md;
     md_Method := md_Method md;
     md_HasParams := md_HasParams md;
     md_HasBody := negb (String.eqb body "");
     md_Body := if String.eqb body "*" then ""
                else if String.eqb body "" then md_Body md
                else "." +:+ camelCaseVars body;
     md_ResponseBody := if String.eqb responseBody "*" then ""
                        else if String.eqb responseBody "" then md_ResponseBody md
                        else "." +:+ camelCaseVars responseBody;
     md_ClientPath := md_ClientPath md;
     md_PathParams := extractPathParams (rulePathMethod rule).1;
     md_Fields := md_Fields md |}.

(** The warning of [buildHTTPRule] about a rule that does not fit its
    method. *)
Definition mismatchWarning (method path body : string) : list string :=
  if bodyMismatch method body then
    [WARN +:+ method +:+ " " +:+ path +:+
     (if String.eqb body "" then " does not declare a body."
      else " body should not be declared.") +:+ str LF]
  else [].

(** The step of [genService] for [method] reaches no exit and no panic. *)
Definition methodBuilds (service : Service) (omitempty : bool) (method : Method)
  : bool :=
  if m_IsStreamingClient method || m_IsStreamingServer method then true
  else match m_HttpRule method with
       | Some rule =>
           forallb (ruleBuilds method) (AdditionalBindings rule ++ [rule])
       | None =>
           omitempty
           || pathBuilds method
                ("/" +:+ svc_FullName service +:+ "/" +:+ m_Name method)
       end.

Definition serviceBuilds (service : Service) (omitempty : bool) : bool :=
  forallb (methodBuilds service omitempty) (svc_Methods service).

(** [md] with its handler number replaced. *)
Definition withNum (md : methodDesc) (num : nat) : methodDesc :=
  {| md_Name := md_Name md; md_OriginalName := md_OriginalName md;
     md_Num := num; md_Request := md_Request md;
     md_Reply := md_Reply md; md_Path := md_Path md;
     md_Method := md_Method md; md_HasParams := md_HasParams md;
     md_HasBody := md_HasBody md; md_Body := md_Body md;
     md_ResponseBody := md_ResponseBody md;
     md_ClientPath := md_ClientPath md;
     md_PathParams := md_PathParams md; md_Fields := md_Fields md |}.

(** A descriptor built for [method]. *)
Definition builtFor (method : Method) (md : methodDesc) : Prop :=
  md_Name md = m_GoName method /\ md_OriginalName md = m_Name method.

(** The state after [g.P(text)]. *)
Definition emitted (s : GenState) (text : string) : GenState :=
  {| methodSets := methodSets s;
     stderr := stderr s;
     genfile := {| gf_imports := gf_imports (genfile s);
                   gf_buf := gf_buf (genfile s) +:+ text +:+ str LF |} |}.

(** What [genService] prints before its loop. *)
Definition deprecationHeader (service : Service) : string :=
  if svc_Deprecated service
  then "//" +:+ NL +:+ deprecationComment +:+ NL
  else "".

(** The state in which the loop of [genService] starts. *)
Definition afterHeader (service : Service) (s : GenState) : GenState :=
  if svc_Deprecated service
  then emitted (emitted s "//") deprecationComment
  else s.

End Generator.

(** ** A small service, for examples *)

Module Demo.

Definition field (name : string) (list : bool) (kind : Kind) : FieldDescriptor :=
  {| fd_Name := name; fd_IsMap := false; fd_IsList := list;
     fd_Kind := kind; fd_Message := "" |}.

(** [message GetUserRequest { string id = 1; repeated string tags = 2; }],
    [message Empty {}] and [message User {}]. *)
Definition MessageFields (name : string) : list FieldDescriptor :=
  if String.eqb name "demo.GetUserRequest"
  then [field "id" false StringKind; field "tags" true StringKind]
  else [].

Definition message (name : string) : Message :=
  {| msg_FullName := "demo." +:+ name;
     msg_GoIdent := {| GoName := name; GoImportPath := "example.com/demo" |};
     msg_Fields := [] |}.

Definition rpc (name : string) (input : string) (rule : option HttpRule) : Method :=
  {| m_GoName := name; m_Name := name;
     m_IsStreamingClient := false; m_IsStreamingServer := false;
     m_Input := message input; m_Output := message "User";
     m_HttpRule := rule |}.

(** [rpc GetUser(GetUserRequest) returns (User)] with
    [get: "/v1/users/{id}"] and the additional binding
    [post: "/v1/users/{id}/{tags}" body: "*"]. *)
Definition getUserRule : HttpRule :=
  mkHttpRule (HttpRule_Get "/v1/users/{id}") "" ""
             [mkHttpRule (HttpRule_Post "/v1/users/{id}/{tags}") "*" "" []].

Definition GetUser : Method := rpc "GetUser" "GetUserRequest" (Some getUserRule).

(** [rpc Ping(Empty) returns (User)] with [get: "/ping"]. *)
Definition pingRule : HttpRule := mkHttpRule (HttpRule_Get "/ping") "" "" [].

Definition Ping : Method := rpc "Ping" "Empty" (Some pingRule).

(** [get: "/v1/users/{id}" body: "*"]: a body on a GET. *)
Definition bodyOnGetRule : HttpRule :=
  mkHttpRule (HttpRule_Get "/v1/users/{id}") "*" "" [].

(** [put: "/v1/users/{id}" body: "user_info.first_name"
    response_body: "*"]. *)
Definition selectorRule : HttpRule :=
  mkHttpRule (HttpRule_Put "/v1/users/{id}") "user_info.first_name" "*" [].

(** [get: "/v1/users/{name}"]: the request message has no field [name]. *)
Definition missingFieldRule : HttpRule :=
  mkHttpRule (HttpRule_Get "/v1/users/{name}") "" "" [].

(** [get: "/v1/users/{tags}"]: the field [tags] is a list. *)
Definition listFieldRule : HttpRule :=
  mkHttpRule (HttpRule_Get "/v1/users/{tags}") "" "" [].

Definition Users : Service :=
  {| svc_GoName := "Users"; svc_FullName := "demo.Users";
     svc_Deprecated := false; svc_Methods := [GetUser; Ping] |}.

Definition Pinger : Service :=
  {| svc_GoName := "Pinger"; svc_FullName := "demo.Pinger";
     svc_Deprecated := false; svc_Methods := [Ping] |}.

Definition file : File := {| file_Path := "demo/users.proto" |}.

(** The state at the start of a run of the plugin. *)
Definition start : GenState :=
  {| methodSets := ∅; stderr := [];
     genfile := {| gf_imports := tt; gf_buf := "" |} |}.

(** The descriptor of [Ping] as [genService] builds it at the start of a
    run. *)
Definition pingDesc : methodDesc :=
  {| md_Name := "Ping"; md_OriginalName := "Ping"; md_Num := 0;
     md_Request := "Empty"; md_Reply := "User"; md_Path := "/ping";
     md_Method := "GET"; md_HasParams := false; md_HasBody := false;
     md_Body := ""; md_ResponseBody := ""; md_ClientPath := "/ping";
     md_PathParams := []; md_Fields := [] |}.

Definition pingerDesc : serviceDesc :=
  {| sd_ServiceType := "Pinger"; sd_ServiceName := "demo.Pinger";
     sd_Metadata := "demo/users.proto"; sd_Methods := [pingDesc];
     sd_MethodSets := ∅ |}.

End Demo.

(** ** Package [gen]: files, and the plugin's main loop *)

Definition Release : string := "v1.0.0".

Definition contextPackage : string := "context".
Definition ginPackage : string := "github.com/gin-gonic/gin".
Definition bindingPackage : string := "github.com/gin-gonic/gin/binding".
Definition bindingutilPackage : string := "github.com/go-kenka/ginpb/binding".
Definition metadataPackage : string := "github.com/go-kenka/ginpb/metadata".
Definition middlewarePackage : string := "github.com/go-kenka/ginpb/middleware".
Definition clientPackage : string := "github.com/go-kenka/ginpb/client".
Definition fmtPackage : string := "fmt".
Definition stringsPackage : string := "strings".

(** [GoImportPath.Ident(name)] *)
Definition Ident (importPath name : string) : GoIdent :=
  {| GoName := name; GoImportPath := importPath |}.

(** [pluginpb.Version], the compiler version of the request. *)
Record Version := {
  GetMajor : Z;
  GetMinor : Z;
  GetPatch : Z;
  GetSuffix : string
}.

(** What the generator reads of a [protogen.Plugin]: the compiler version
    of its request, [None] when the request has none. *)
Record Plugin := { GetCompilerVersion : option Version }.

(** A number as [%d] prints it. *)
Definition formatInt (n : Z) : string := NilZero.string_of_int (Z.to_int n).

(** [protocVersion] *)
Definition protocVersion (gen : Plugin) : string :=
  match GetCompilerVersion gen with
  | None => "(unknown)"
  | Some v =>
      let suffix := if String.eqb (GetSuffix v) "" then "" else "-" +:+ GetSuffix v in
      "v" +:+ formatInt (GetMajor v) +:+ "." +:+ formatInt (GetMinor v)
      +:+ "." +:+ formatInt (GetPatch v) +:+ suffix
  end.

(** What [GenerateFile] and [main] read of a [protogen.File], besides the
    path kept in [File]. *)
Record ProtoFile := {
  pf_File : File;
  pf_Generate : bool;
  pf_Services : list Service;
  pf_GeneratedFilenamePrefix : string;
  pf_GoImportPath : string;
  pf_GoPackageName : string;
  pf_Deprecated : bool
}.

(** The inner loop of [hasHTTPRule], over the methods of one service. *)
Fixpoint hasHTTPRuleMethods (methods : list Method) : bool :=
  match methods with
  | [] => false
  | method :: rest =>
      if m_IsStreamingClient method || m_IsStreamingServer method
      then hasHTTPRuleMethods rest
      else match m_HttpRule method with
           | Some _ => true
           | None => hasHTTPRuleMethods rest
           end
  end.

(** [hasHTTPRule] *)
Fixpoint hasHTTPRule (services : list Service) : bool :=
  match services with
  | [] => false
  | service :: rest =>
      if hasHTTPRuleMethods (svc_Methods service) then true else hasHTTPRule rest
  end.

(** [gen.NewGeneratedFile(filename, goImportPath)] starts a file with the
    import table of that package. *)
Class ProtogenPlugin `{Protogen} := {
  NewImports : forall (filename goImportPath : string), Imports
}.

Global Instance samePackagePlugin : ProtogenPlugin :=
  {| NewImports := fun _ _ => tt |}.

Section FileGenerator.

Context `{Regexp} `{MapOrder} `{ProtogenPlugin}.

Variable MessageFields : string -> list FieldDescriptor.

(** [g.P(prefix, ident, suffix)] with a Go identifier in the middle. *)
Definition PIdent (prefix : string) (ident : GoIdent) (suffix : string) : Gen unit :=
  name ← qualifiedGoIdent ident;
  P (prefix +:+ name +:+ suffix).

(** The loop of [generateFileContent] over the services of the file. *)
Fixpoint genServices (file : File) (services : list Service) (omitempty : bool)
  : Gen unit :=
  match services with
  | [] => mret tt
  | service :: rest =>
      genService MessageFields file service omitempty;;
      genServices file rest omitempty
  end.

(** [generateFileContent] *)
Definition generateFileContent (file : ProtoFile) (omitempty : bool) : Gen unit :=
  if length (pf_Services file) =? 0 then mret tt
  else
    P "// This is a compile-time assertion to ensure that this generated file";;
    P "// is compatible with the resty client it is being compiled against.";;
    PIdent "var _ = new(" (Ident contextPackage "Context") ")";;
    PIdent "var _ = new(" (Ident metadataPackage "GinData") ")";;
    PIdent "var _ = new(" (Ident ginPackage "H") ")";;
    PIdent "var _ = new(" (Ident clientPackage "Client") ")";;
    PIdent "var _ = " (Ident bindingPackage "JSON") "";;
    PIdent "var _ = " (Ident bindingutilPackage "BindByContentType") "";;
    PIdent "var _ = " (Ident middlewarePackage "Chain") "";;
    PIdent "var _ = " (Ident fmtPackage "Sprintf") "";;
    PIdent "var _ = " (Ident stringsPackage "ReplaceAll") "";;
    P "";;
    genServices (pf_File file) (pf_Services file) omitempty.

(** [g := gen.NewGeneratedFile(filename, goImportPath)]: from here on the
    state carries the new, empty file. *)
Definition NewGeneratedFile (filename goImportPath : string) : Gen unit := fun s =>
  Done tt {| methodSets := methodSets s;
             stderr := stderr s;
             genfile := {| gf_imports := NewImports filename goImportPath;
                           gf_buf := "" |} |}.

(** The file [g] that the state carries. *)
Definition currentFile : Gen GeneratedFile := fun s => Done (genfile s) s.

Definition generatedHeader : string :=
  "// Code generated by protoc-gen-gin with resty client. DO NOT EDIT.".

(** [GenerateFile]; [None] is the nil it returns when it generates
    nothing, and the name of the file goes with the file. *)
Definition GenerateFile (gen : Plugin) (file : ProtoFile) (omitempty : bool)
  : Gen (option (string * GeneratedFile)) :=
  if (length (pf_Services file) =? 0)
     || (omitempty && negb (hasHTTPRule (pf_Services file)))
  then mret None
  else
    let filename := pf_GeneratedFilenamePrefix file +:+ ".pb.gin.go" in
    NewGeneratedFile filename (pf_GoImportPath file);;
    P generatedHeader;;
    P "// versions:";;
    P ("// - protoc-gen-gin " +:+ Release);;
    P ("// - protoc             " +:+ protocVersion gen);;
    (if pf_Deprecated file
     then P ("// " +:+ file_Path (pf_File file) +:+ " is a deprecated file.")
     else P ("// source: " +:+ file_Path (pf_File file)));;
    P "";;
    P ("package " +:+ pf_GoPackageName file);;
    P "";;
    generateFileContent file omitempty;;
    g ← currentFile;
    mret (Some (filename, g)).

(** The loop of [main] over the files of the plugin: the files generated,
    in order. *)
Fixpoint generateFiles (gen : Plugin) (files : list ProtoFile) (omitempty : bool)
  : Gen (list (string * GeneratedFile)) :=
  match files with
  | [] => mret []
  | f :: rest =>
      if negb (pf_Generate f) then generateFiles gen rest omitempty
      else
        g ← GenerateFile gen f omitempty;
        generated ← generateFiles gen rest omitempty;
        mret (match g with Some g => g :: generated | None => generated end)
  end.

End FileGenerator.

Module DemoFile.

Definition users : ProtoFile :=
  {| pf_File := Demo.file; pf_Generate := true;
     pf_Services := [Demo.Users; Demo.Pinger];
     pf_GeneratedFilenamePrefix := "demo/users";
     pf_GoImportPath := "example.com/demo";
     pf_GoPackageName := "demo";
     pf_Deprecated := false |}.

Definition plugin : Plugin :=
  {| GetCompilerVersion :=
       Some {| GetMajor := 5; GetMinor := 27; GetPatch := 1; GetSuffix := "rc1" |} |}.

End DemoFile.

(** A field with tags, for examples:
    [string user_id = 1 [(tag.tags) = {json: "id", form: "user",
    custom: "bson:_id, db:user_id"}, (tag.form) = "uid"]]. *)
Module DemoTags.

Definition userId : Field :=
  {| f_Name := "user_id"; f_GoName := "UserId"; f_JSONName := "userId";
     f_IsList := false; f_IsMap := false; f_Kind := StringKind;
     f_MessageGoName := ""; f_MapKeyKind := StringKind;
     f_MapValueKind := StringKind; f_MapValueMessageName := "";
     f_Tags := Some {| GetForm := "user"; GetUri := ""; GetJson := "id";
                       GetHeader := ""; GetBinding := ""; GetValidate := "";
                       GetXml := ""; GetYaml := ""; GetToml := "";
                       GetProtobuf := ""; GetMsgpack := ""; GetMultipart := "";
                       GetCustom := "bson:_id, db:user_id" |};
     f_FormTag := "uid"; f_UriTag := ""; f_HeaderTag := "";
     f_BindingTag := ""; f_XmlTag := ""; f_YamlTag := ""; f_TomlTag := "";
     f_ProtobufTag := ""; f_MsgpackTag := ""; f_MultipartTag := "" |}.

(** The same field without the custom tags. *)
Definition userIdKnown : Field :=
  {| f_Name := "user_id"; f_GoName := "UserId"; f_JSONName := "userId";
     f_IsList := false; f_IsMap := false; f_Kind := StringKind;
     f_MessageGoName := ""; f_MapKeyKind := StringKind;
     f_MapValueKind := StringKind; f_MapValueMessageName := "";
     f_Tags := Some {| GetForm := "user"; GetUri := ""; GetJson := "id";
                       GetHeader := ""; GetBinding := ""; GetValidate := "";
                       GetXml := ""; GetYaml := ""; GetToml := "";
                       GetProtobuf := ""; GetMsgpack := ""; GetMultipart := "";
                       GetCustom := "" |};
     f_FormTag := "uid"; f_UriTag := ""; f_HeaderTag := "";
     f_BindingTag := ""; f_XmlTag := ""; f_YamlTag := ""; f_TomlTag := "";
     f_ProtobufTag := ""; f_MsgpackTag := ""; f_MultipartTag := "" |}.

End DemoTags.

(** ** The custom tags, pair by pair *)

(** The pairs that [parseFieldTags] reads from the text of the custom
    tags: the items between commas that hold a colon, cut at the first
    colon and trimmed. *)
Definition customPairs (custom : string) : list (string * string) :=
  if String.eqb custom "" then []
  else omap (fun pair => match SplitN2 pair ":" with
                         | Some (k, v) => Some (TrimSpace k, TrimSpace v)
                         | None => None
                         end) (Split custom ",").

(** The text holds bytes below 0x80 only.  On such a text [TrimSpace]
    above is [strings.TrimSpace] exactly. *)
Definition isASCII (text : string) : bool :=
  forallb (fun c => nat_of_ascii c <? 128) (list_ascii_of_string text).

(** ** Another order of a range *)

(** The enumeration of [map_to_list] backwards is another order in which
    a range may visit a map.  Go draws the order anew at every range: two
    ranges over the same map need not agree. *)
Definition reversedMapOrder : MapOrder :=
  {| mapRange := fun V m => reverse (map_to_list m);
     mapRange_perm := fun V m => reverse_Permutation (map_to_list m) |}.

(** [message FindRequest { string a_b = 1; A a = 2; }] and
    [message A { string b = 1; }], with [rpc Find(FindRequest)]; two
    placeholders of the path carry a pattern, and the name of the second,
    read as a regular expression, also matches the first. *)
Module DemoOrder.

Definition MessageFields (name : string) : list FieldDescriptor :=
  if String.eqb name "demo.FindRequest"
  then [Demo.field "a_b" false StringKind;
        {| fd_Name := "a"; fd_IsMap := false; fd_IsList := false;
           fd_Kind := MessageKind; fd_Message := "demo.A" |}]
  else if String.eqb name "demo.A" then [Demo.field "b" false StringKind]
  else [].

Definition Find : Method := Demo.rpc "Find" "FindRequest" None.

Definition path : string := "/{a_b=x}/{a.b=y}".

(** A state in which one descriptor has been built for [Find]. *)
Definition later : GenState :=
  {| methodSets := {["Find" := 1]}; stderr := [];
     genfile := {| gf_imports := tt; gf_buf := "" |} |}.

End DemoOrder.

(** [md] with its router path and its client path replaced. *)
Definition withPaths (md : methodDesc) (path clientPath : string) : methodDesc :=
  {| md_Name := md_Name md; md_OriginalName := md_OriginalName md;
     md_Num := md_Num md; md_Request := md_Request md;
     md_Reply := md_Reply md; md_Path := path;
     md_Method := md_Method md; md_HasParams := md_HasParams md;
     md_HasBody := md_HasBody md; md_Body := md_Body md;
     md_ResponseBody := md_ResponseBody md;
     md_ClientPath := clientPath;
     md_PathParams := md_PathParams md; md_Fields := md_Fields md |}.

(** ** Reading a run of the generator *)

(** The name of the file that [GenerateFile] writes for [file]. *)
Definition generatedFilename (file : ProtoFile) : string :=
  pf_GeneratedFilenamePrefix file +:+ ".pb.gin.go".

(** The lines with which every generated file starts. *)
Definition fileHeader (gen : Plugin) (file : ProtoFile) : string :=
  generatedHeader +:+ NL
  +:+ "// versions:" +:+ NL
  +:+ "// - protoc-gen-gin " +:+ Release +:+ NL
  +:+ "// - protoc             " +:+ protocVersion gen +:+ NL
  +:+ (if pf_Deprecated file
       then "// " +:+ file_Path (pf_File file) +:+ " is a deprecated file."
       else "// source: " +:+ file_Path (pf_File file)) +:+ NL
  +:+ NL
  +:+ "package " +:+ pf_GoPackageName file +:+ NL
  +:+ NL.

(** The line that registers the handler of [m] with the router, in
    [Register...HTTPServer]. *)
Definition routeRegistration (svrType : string) (m : methodDesc) : string :=
  routeCall m (handlerName svrType m +:+ "(srv)") +:+ ")".

(** The first line of the definition of the handler of [m]. *)
Definition handlerSignature (svrType : string) (m : methodDesc) : string :=
  "func " +:+ handlerName svrType m +:+ "(srv " +:+ svrType
  +:+ "HTTPServer) func(ctx *gin.Context) {".

(** The first line of the method of the client for [m]. *)
Definition clientSignature (svrType : string) (m : methodDesc) : string :=
  "func (c *" +:+ svrType +:+ "HTTPClientImpl) " +:+ md_Name m
  +:+ "(ctx context.Context, in *" +:+ md_Request m
  +:+ ", opts ...client.CallOption) (*" +:+ md_Reply m +:+ ", error) {".

(** A method for which [genService] and [hasHTTPRule] look at the HTTP
    rule, and find one. *)
Definition hasRule (method : Method) : bool :=
  negb (m_IsStreamingClient method || m_IsStreamingServer method)
  && bool_decide (is_Some (m_HttpRule method)).

(** The descriptors of [methods] that carry the Go name [name]. *)
Definition descriptorsNamed (name : string) (methods : list methodDesc) : nat :=
  length (filter (fun md => md_Name md = name) methods).

Section Runs.

Context `{Protogen}.

(** The state in which a piece of the generator ends, however it ends. *)
Definition finalState {A : Type} (o : Outcome A) : GenState :=
  match o with
  | Done _ s => s
  | Exited _ s => s
  | Panicked s => s
  end.

(** The status it passes to [os.Exit], when it ends there. *)
Definition exitStatus {A : Type} (o : Outcome A) : option Z :=
  match o with
  | Exited code _ => Some code
  | _ => None
  end.

(** [methodSets[name]] in the state [s]. *)
Definition handlerCount (s : GenState) (name : string) : nat :=
  default 0 (methodSets s !! name).

(** The lines [lines] as a run may leave them on standard error: warnings
    only, or, when the run ends in [os.Exit], warnings and then one
    error, with the status 2. *)
Definition orderlyLines (status : option Z) (lines : list string) : Prop :=
  match status with
  | Some code =>
      code = 2%Z
      /\ exists warnings err,
           lines = warnings ++ [err] /\ Forall isWarning warnings /\ isError err
  | None => Forall isWarning lines
  end.

(** The piece [c] of the generator adds lines to standard error, and
    leaves them orderly. *)
Definition orderly {A : Type} (c : Gen A) : Prop :=
  forall s, exists lines,
    stderr (finalState (c s)) = stderr s ++ lines
    /\ orderlyLines (exitStatus (c s)) lines.

(** The piece [c] only appends to the text of the generated file. *)
Definition appending {A : Type} (c : Gen A) : Prop :=
  forall s, exists text,
    gf_buf (genfile (finalState (c s))) = gf_buf (genfile s) +:+ text.

(** The piece [c] never lowers a counter of [methodSets]. *)
Definition counting {A : Type} (c : Gen A) : Prop :=
  forall s name, handlerCount s name <= handlerCount (finalState (c s)) name.

(** The descriptors [methods] are numbered from the state [s] on: each one
    carries the count of its name in [s] plus the number of descriptors
    of that name before it. *)
Definition numberedFrom (s : GenState) (methods : list methodDesc) : Prop :=
  forall i md, methods !! i = Some md ->
    md_Num md = handlerCount s (md_Name md)
                + descriptorsNamed (md_Name md) (take i methods).

(** The counters of [s'] are those of [s] plus the descriptors of
    [methods]. *)
Definition countedFrom (s : GenState) (methods : list methodDesc) (s' : GenState)
  : Prop :=
  forall name,
    handlerCount s' name = handlerCount s name + descriptorsNamed name methods.

End Runs.

(** ** Package [metadata] *)

Module metadata.
Section Metadata.

(** [*http.Request], [gin.Params], [http.ResponseWriter], and the values
    of other types that a context may hold. *)
Context {Request Params ResponseWriter Other : Type}.

(** [GinData] *)
Record GinData := {
  gd_Request : Request;
  gd_Params : Params;
  gd_Writer : ResponseWriter
}.

(** The keys of context values: [ginKey{}], whose type is private to the
    package, and all the others. *)
Inductive Key := ginKey | otherKey (k : Other).

(** The values of type [any] held by a context: a [*GinData], or a value
    of another dynamic type. *)
Inductive Value := GinDataValue (data : GinData) | OtherValue (v : Other).

(** What [metadata] reads of a [*gin.Context]; [gc_Value] is its method
    [Value]. *)
Record GinContext := {
  gc_Request : Request;
  gc_Params : Params;
  gc_Writer : ResponseWriter;
  gc_Value : Key -> option Value
}.

(** A [context.Context]: a gin context, or the result of
    [context.WithValue]. *)
Inductive Context :=
| FromGin (c : GinContext)
| WithValue (parent : Context) (key : Key) (val : Value).

Context `{EqDecision Other}.

Global Instance Key_eq_dec : EqDecision Key.
Proof. solve_decision. Defined.

(** [ctx.Value(key)]; [None] is the nil interface. *)
Fixpoint Value_of (ctx : Context) (key : Key) : option Value :=
  match ctx with
  | FromGin c => gc_Value c key
  | WithValue parent k val =>
      if bool_decide (k = key) then Some val else Value_of parent key
  end.

(** [NewContext] *)
Definition NewContext (ctx : GinContext) : Context :=
  let data := {| gd_Request := gc_Request ctx;
                 gd_Params := gc_Params ctx;
                 gd_Writer := gc_Writer ctx |} in
  WithValue (FromGin ctx) ginKey (GinDataValue data).

(** [FromContext]; the type assertion [.( *GinData)] gives [nil, false] on
    the nil interface and on a value of another type. *)
Definition FromContext (ctx : Context) : option GinData * bool :=
  match Value_of ctx ginKey with
  | Some (GinDataValue data) => (Some data, true)
  | _ => (None, false)
  end.

End Metadata.
End metadata.

(** ** Contexts derived from the one of [NewContext] *)

(** [context.WithValue] applied once for each of [layers], under keys of
    other packages. *)
Definition withValues {Request Params ResponseWriter Other : Type}
    (ctx : @metadata.Context Request Params ResponseWriter Other)
    (layers : list (Other * @metadata.Value Request Params ResponseWriter Other))
  : @metadata.Context Request Params ResponseWriter Other :=
  foldl (fun ctx kv => metadata.WithValue ctx (metadata.otherKey kv.1) kv.2)
        ctx layers.

(** ** Package [binding] *)

Module binding.

(** The values of package [ginbinding] that are passed to
    [ShouldBindWith]. *)
Inductive Binding := ProtoBuf | MsgPack | FormMultipart.

(** The methods of [*gin.Context] that [BindByContentType] calls. *)
Class GinContext (Ctx Obj Err : Type) := {
  GetHeader : Ctx -> string -> string;
  BindXML : Ctx -> Obj -> Err;
  BindYAML : Ctx -> Obj -> Err;
  BindTOML : Ctx -> Obj -> Err;
  ShouldBindWith : Ctx -> Obj -> Binding -> Err;
  Bind : Ctx -> Obj -> Err;
  BindJSON : Ctx -> Obj -> Err
}.

(** [BindByContentType] *)
Definition BindByContentType `{GinContext Ctx Obj Err} (ctx : Ctx) (obj : Obj) : Err :=
  let contentType := GetHeader ctx "Content-Type" in
  if Contains contentType "application/xml" || Contains contentType "text/xml"
  then BindXML ctx obj
  else if Contains contentType "application/x-yaml" || Contains contentType "text/yaml"
  then BindYAML ctx obj
  else if Contains contentType "application/toml"
  then BindTOML ctx obj
  else if Contains contentType "application/x-protobuf"
  then ShouldBindWith ctx obj ProtoBuf
  else if Contains contentType "application/x-msgpack"
  then ShouldBindWith ctx obj MsgPack
  else if Contains contentType "multipart/form-data"
  then ShouldBindWith ctx obj FormMultipart
  else if Contains contentType "application/x-www-form-urlencoded"
  then Bind ctx obj
  else BindJSON ctx obj.

(** The calls that [BindByContentType] can end in. *)
Inductive Call :=
| CallBindXML | CallBindYAML | CallBindTOML
| CallShouldBindWith (b : Binding)
| CallBind | CallBindJSON.

(** A gin context that only records which call was made. *)
Global Instance recorder : GinContext string unit Call :=
  {| GetHeader := fun contentType _ => contentType;
     BindXML := fun _ _ => CallBindXML;
     BindYAML := fun _ _ => CallBindYAML;
     BindTOML := fun _ _ => CallBindTOML;
     ShouldBindWith := fun _ _ b => CallShouldBindWith b;
     Bind := fun _ _ => CallBind;
     BindJSON := fun _ _ => CallBindJSON |}.

(** The calls in the order in which the content types are tested, each
    with the texts looked for in the header. *)
Definition contentTypes : list (list string * Call) :=
  [ (["application/xml"; "text/xml"], CallBindXML);
    (["application/x-yaml"; "text/yaml"], CallBindYAML);
    (["application/toml"], CallBindTOML);
    (["application/x-protobuf"], CallShouldBindWith ProtoBuf);
    (["application/x-msgpack"], CallShouldBindWith MsgPack);
    (["multipart/form-data"], CallShouldBindWith FormMultipart);
    (["application/x-www-form-urlencoded"], CallBind) ].

(** The call of the first row one of whose texts the header contains,
    and [BindJSON] when there is none. *)
Definition selectCall (contentType : string) : Call :=
  match List.find (fun row : list string * Call =>
                     existsb (Contains contentType) row.1) contentTypes with
  | Some row => row.2
  | None => CallBindJSON
  end.

Definition perform `{GinContext Ctx Obj Err} (call : Call) (ctx : Ctx) (obj : Obj)
  : Err :=
  match call with
  | CallBindXML => BindXML ctx obj
  | CallBindYAML => BindYAML ctx obj
  | CallBindTOML => BindTOML ctx obj
  | CallShouldBindWith b => ShouldBindWith ctx obj b
  | CallBind => Bind ctx obj
  | CallBindJSON => BindJSON ctx obj
  end.

End binding.

(** * Properties *)

(** ** Strings *)

#[local] Arguments String.append !_ _ / : simpl nomatch.

Section StringFacts.

Lemma append_nil_r (s : string) : s +:+ "" = s.
Proof. induction s as [|c s IH]; simpl; [done | by rewrite IH]. Qed.

Lemma append_assoc (a b c : string) : (a +:+ b) +:+ c = a +:+ (b +:+ c).
Proof. induction a as [|x a IH]; simpl; [done | by rewrite IH]. Qed.

Lemma HasPrefix_append (p s : string) : HasPrefix (p +:+ s) p = true.
Proof.
  induction p as [|c p IH]; simpl; [by destruct s|].
  by rewrite Ascii.eqb_refl, IH.
Qed.

Lemma HasPrefix_spec (s p : string) :
  HasPrefix s p = true <-> exists rest, s = p +:+ rest.
Proof.
  revert s; induction p as [|c p IH]; intros s; simpl.
  - destruct s; split; eauto.
  - destruct s as [|d s]; simpl.
    + split; [done | intros [? ?]; done].
    + rewrite andb_true_iff, IH, Ascii.eqb_eq. split.
      * intros [-> [rest ->]]; eauto.
      * intros [rest [= -> ->]]; eauto.
Qed.

(** [strings.Contains] finds exactly the substrings. *)
Lemma Contains_spec (s sub : string) :
  Contains s sub = true <-> exists a b, s = a +:+ sub +:+ b.
Proof.
  induction s as [|c s IH].
  - simpl. rewrite orb_false_r. destruct sub as [|d sub]; simpl.
    + split; [intros _; by exists "", "" | done].
    + split; [done | intros ([|? a] & b & Heq); simpl in Heq; done].
  - change (Contains (String c s) sub)
      with (HasPrefix (String c s) sub || Contains s sub).
    rewrite orb_true_iff, IH, HasPrefix_spec. split.
    + intros [[rest Heq] | (a & b & ->)].
      * exists "", rest. done.
      * exists (String c a), b. done.
    + intros ([|x a] & b & Heq); simpl in Heq.
      * left. eauto.
      * right. injection Heq as -> ->. eauto.
Qed.

Lemma Contains_self (s : string) : Contains s s = true.
Proof. apply Contains_spec. exists "", "". simpl. by rewrite append_nil_r. Qed.

Lemma Contains_append_l (a b sub : string) :
  Contains a sub = true -> Contains (a +:+ b) sub = true.
Proof.
  rewrite !Contains_spec. intros (x & y & ->).
  exists x, (y +:+ b). by rewrite !append_assoc.
Qed.

Lemma Contains_append_r (a b sub : string) :
  Contains b sub = true -> Contains (a +:+ b) sub = true.
Proof.
  rewrite !Contains_spec. intros (x & y & ->).
  exists (a +:+ x), y. by rewrite !append_assoc.
Qed.

Lemma Contains_rangeText {A} (body : A -> string) (l : list A) (x : A) (sub : string) :
  x ∈ l -> Contains (body x) sub = true -> Contains (rangeText body l) sub = true.
Proof.
  intros Hin Hsub. induction Hin as [x l | x y l Hin IH]; simpl.
  - by apply Contains_append_l.
  - apply Contains_append_r. by apply IH.
Qed.

Lemma Split_nonempty (s : string) (sep : ascii) : Split s sep <> [].
Proof.
  destruct s as [|c s]; simpl; [done|].
  destruct (Ascii.eqb c sep); [done|]. by destruct (Split s sep).
Qed.

(** Joining the pieces of a split with the separator gives the string
    back. *)
Lemma Join_Split (s : string) (sep : ascii) : Join (Split s sep) (str sep) = s.
Proof.
  induction s as [|c s IH]; simpl; [done|].
  destruct (Ascii.eqb_spec c sep) as [->|Hne].
  - pose proof (Split_nonempty s sep).
    destruct (Split s sep) as [|p ps] eqn:E; [done|].
    simpl in *. by rewrite IH.
  - pose proof (Split_nonempty s sep).
    destruct (Split s sep) as [|p ps] eqn:E; [done|].
    destruct ps as [|q ps]; simpl in *; by rewrite <- IH.
Qed.

End StringFacts.

Section TrimFacts.

Lemma TrimLeftFunc_keeps (f : ascii -> bool) (a : string) (c : ascii) (rest : string) :
  f c = false ->
  exists a', TrimLeftFunc f (a +:+ String c rest) = a' +:+ String c rest.
Proof.
  intros Hc. induction a as [|d a [a' IH]]; simpl.
  - rewrite Hc. by exists "".
  - destruct (f d); [by exists a' | by exists (String d a)].
Qed.

Lemma TrimRightFunc_keeps (f : ascii -> bool) (p : string) (c : ascii) (b : string) :
  f c = false ->
  exists b', TrimRightFunc f (p +:+ String c b) = p +:+ String c b'.
Proof.
  intros Hc. induction p as [|d p [b' IH]]; simpl.
  - assert (Hb : exists b', TrimRightFunc f b = b').
    { eauto. }
    destruct (TrimRightFunc f b) as [|e t] eqn:Ht.
    + rewrite Hc. by exists "".
    + by exists (String e t).
  - rewrite IH.
    destruct (p +:+ String c b') eqn:Hp; [by destruct p|].
    exists b'. by rewrite Hp.
Qed.

(** [strings.Trim] keeps every substring that neither starts nor ends
    with a character of the cutset. *)
Lemma Contains_Trim (s cutset : string) (c1 c2 : ascii) (mid : string) :
  inCutset cutset c1 = false -> inCutset cutset c2 = false ->
  Contains s (String c1 (mid +:+ str c2)) = true ->
  Contains (Trim s cutset) (String c1 (mid +:+ str c2)) = true.
Proof.
  intros H1 H2. rewrite !Contains_spec. intros (a & b & ->). unfold Trim.
  destruct (TrimLeftFunc_keeps (inCutset cutset) a c1 ((mid +:+ str c2) +:+ b) H1)
    as [a' Ha].
  simpl. simpl in Ha. rewrite Ha.
  replace (a' +:+ String c1 ((mid +:+ str c2) +:+ b))
    with ((a' +:+ String c1 mid) +:+ String c2 b)
    by (unfold str; rewrite ?append_assoc; simpl; by rewrite ?append_assoc).
  destruct (TrimRightFunc_keeps (inCutset cutset) (a' +:+ String c1 mid) c2 b H2)
    as [b' ->].
  exists a', b'. unfold str. rewrite ?append_assoc. simpl. by rewrite ?append_assoc.
Qed.

End TrimFacts.

(** ** The templates *)

Section TemplateFacts.


Lemma elem_of_sortedRange {V} (m : gmap string V) (x : V) :
  x ∈ map snd (sortedRange m) <-> exists k, m !! k = Some x.
Proof.
  unfold sortedRange. rewrite list_elem_of_fmap. split.
  - intros ([k y] & -> & Hin). rewrite merge_sort_Permutation in Hin.
    apply elem_of_map_to_list in Hin. eauto.
  - intros [k Hk]. exists (k, x). split; [done|].
    rewrite merge_sort_Permutation. by apply elem_of_map_to_list.
Qed.



Lemma TrimLeftFunc_head (f : ascii -> bool) (s : string) (c : ascii) (rest : string) :
  TrimLeftFunc f s = String c rest -> f c = false.
Proof.
  induction s as [|d s IH]; simpl; [done|].
  destruct (f d) eqn:Hd; [done|]. by intros [= <- <-].
Qed.

Lemma TrimRightFunc_head (f : ascii -> bool) (s : string) (c : ascii) (rest : string) :
  TrimRightFunc f s = String c rest -> exists rest', s = String c rest'.
Proof.
  destruct s as [|d s]; simpl; [done|].
  destruct (TrimRightFunc f s); [destruct (f d); [done|] |]; intros [= <- <-]; eauto.
Qed.

(** What [strings.Trim] returns does not start with a character of the
    cutset. *)
Lemma Trim_head (s cutset : string) (c : ascii) (rest : string) :
  Trim s cutset = String c rest -> inCutset cutset c = false.
Proof.
  unfold Trim. intros [rest' Hs]%TrimRightFunc_head.
  by eapply TrimLeftFunc_head.
Qed.

(** The server text starts with a line feed, whatever the service. *)
Lemma serverText_head (s : serviceDesc) :
  exists rest, serverText s = String LF rest.
Proof. unfold serverText. cbv zeta. simpl. eauto. Qed.

(** So the text that [execute] returns is never the plain concatenation
    of the three texts. *)
Lemma execute_trims `{MapOrder} (s : serviceDesc) :
  let r := withMethodSets s in
  execute s <> serverText r +:+ NL +:+ NL +:+ clientText r +:+ NL +:+ NL +:+ tagsText r.
Proof.
  intros r Heq. unfold execute in Heq. cbv zeta in Heq. fold r in Heq.
  destruct (serverText_head r) as [rest Hrest].
  rewrite !append_assoc in Heq. rewrite Hrest in Heq at 2. simpl in Heq.
  apply Trim_head in Heq. done.
Qed.





End TemplateFacts.

(** ** [transformPath] *)

Section TransformPath.

Lemma length_append (a b : string) :
  String.length (a +:+ b) = String.length a + String.length b.
Proof. induction a as [|c a IH]; simpl; [done | by rewrite IH]. Qed.

Lemma get_append_end (mid : string) (c : ascii) (rest : string) :
  String.get (String.length mid) (mid +:+ String c rest) = Some c.
Proof. induction mid as [|d mid IH]; simpl; done. Qed.

Lemma substring_append_start (mid rest : string) :
  String.substring 0 (String.length mid) (mid +:+ rest) = mid.
Proof.
  induction mid as [|d mid IH]; simpl; [by destruct rest | by rewrite IH].
Qed.

(** The new value of a segment [a mid c] whose first character [a] and
    last character [c] pass the test of [transformPath]: a colon and
    [mid]. *)
Lemma transformSegment_rewrites (a c : ascii) (mid : string) :
  (a = "{"%char /\ c = "}"%char) \/ a = ":"%char ->
  transformSegment (String a (mid +:+ str c)) = Some (":" +:+ mid).
Proof.
  intros Hac. unfold transformSegment, index, slice, len, str. simpl.
  rewrite length_append. simpl.
  replace (String.length mid + 1 - 0) with (S (String.length mid)) by lia.
  rewrite get_append_end.
  replace (S (String.length mid) - 1) with (String.length mid) by lia.
  rewrite substring_append_start.
  assert (Hle : (String.length mid <=? String.length mid + 1) = true)
    by (apply Nat.leb_le; lia).
  destruct Hac as [[-> ->]| ->]; simpl; by rewrite Hle.
Qed.

(** A placeholder [{field}] becomes [:field]. *)
Lemma transformSegment_placeholder (field : string) :
  transformSegment ("{" +:+ field +:+ "}") = Some (":" +:+ field).
Proof. apply (transformSegment_rewrites "{" "}" field). by left. Qed.

(** A segment that starts with neither a brace nor a colon, and the empty
    segment, stay as they are. *)
Lemma transformSegment_plain (p : string) :
  index p 0 <> Some "{"%char -> index p 0 <> Some ":"%char ->
  transformSegment p = Some p.
Proof.
  intros Hb Hc. unfold transformSegment.
  rewrite (bool_decide_eq_false_2 _ Hb), (bool_decide_eq_false_2 _ Hc). simpl.
  by rewrite andb_false_r.
Qed.

(** A segment that starts with a brace but does not end with one stays as
    it is. *)
Lemma transformSegment_open_brace (p : string) :
  index p 0 = Some "{"%char -> index p (len p - 1) <> Some "}"%char ->
  transformSegment p = Some p.
Proof.
  intros Hb Hc. unfold transformSegment.
  rewrite (bool_decide_eq_false_2 _ Hc), Hb. simpl.
  by rewrite andb_false_r.
Qed.

(** A path none of whose segments is rewritten is returned as it is. *)
Lemma transformPath_unchanged (path : string) :
  Forall (fun p => transformSegment p = Some p) (Split path "/") ->
  transformPath path = Some path.
Proof.
  intros Hall. unfold transformPath.
  assert (Hm : mapM transformSegment (Split path "/") = Some (Split path "/")).
  { apply mapM_Some_2. induction Hall; constructor; done. }
  rewrite Hm. simpl. f_equal. apply (Join_Split path "/").
Qed.

(** The segments of the path that [transformPath] returns are the new
    values of the segments of its argument, in order. *)
Lemma transformPath_segments (path result : string) :
  transformPath path = Some result ->
  exists segments,
    Forall2 (fun p q => transformSegment p = Some q) (Split path "/") segments
    /\ result = Join segments "/".
Proof.
  unfold transformPath.
  destruct (mapM transformSegment (Split path "/")) as [segments|] eqn:Hm; [|done].
  simpl. intros [= <-]. exists segments. split; [|done]. by apply mapM_Some_1.
Qed.

Lemma string_snoc (s : string) :
  s <> "" -> exists mid c, s = mid +:+ str c.
Proof.
  induction s as [|a s IH]; [done|]. intros _.
  destruct s as [|b s].
  - by exists "", a.
  - destruct IH as (mid & c & ->); [done|]. by exists (String a mid), c.
Qed.

Lemma snoc_inj (a b : string) (c d : ascii) :
  a +:+ str c = b +:+ str d -> a = b /\ c = d.
Proof.
  revert b. induction a as [|x a IH]; intros [|y b]; simpl.
  - by intros [= ->].
  - destruct b; done.
  - destruct a; done.
  - intros [= -> [-> ->]%IH]. done.
Qed.

(** A segment that does not start with a colon: a placeholder [{field}]
    becomes [:field], and every other segment stays as it is. *)
Lemma transformSegment_cases (p : string) :
  index p 0 <> Some ":"%char ->
  (exists field, p = "{" +:+ field +:+ "}"
                 /\ transformSegment p = Some (":" +:+ field))
  \/ ((forall field, p <> "{" +:+ field +:+ "}") /\ transformSegment p = Some p).
Proof.
  intros Hcolon. destruct p as [|a rest].
  { right. split; [by intros field | by apply transformSegment_plain]. }
  destruct (decide (a = "{"%char)) as [->|Hbrace].
  - destruct (decide (rest = "")) as [->|Hrest].
    + right. split; [by intros [|? field] | by vm_compute].
    + destruct (string_snoc rest Hrest) as (mid & c & ->).
      destruct (decide (c = "}"%char)) as [->|Hc].
      * left. exists mid. split; [done | apply transformSegment_placeholder].
      * right. split.
        { intros field [= [_ ?]%snoc_inj]. done. }
        apply transformSegment_open_brace; [done|].
        unfold index, len. simpl. rewrite length_append. simpl.
        replace (String.length mid + 1 - 0) with (S (String.length mid)) by lia.
        simpl. unfold str. rewrite get_append_end. by intros [= ->].
  - right. split.
    + intros field [= -> _]. done.
    + apply transformSegment_plain; [|done]. simpl. by intros [= ->].
Qed.

(** The part of C1 that holds: on a path none of whose segments starts
    with a colon, [transformPath] rewrites every segment that is a
    placeholder [{field}] into [:field] and leaves every other segment
    unchanged. *)
Lemma transformPath_without_colon_segments (path : string) :
  Forall (fun p => index p 0 <> Some ":"%char) (Split path "/") ->
  exists segments,
    transformPath path = Some (Join segments "/")
    /\ Forall2 (fun p q =>
                  (exists field, p = "{" +:+ field +:+ "}" /\ q = ":" +:+ field)
                  \/ ((forall field, p <> "{" +:+ field +:+ "}") /\ q = p))
               (Split path "/") segments.
Proof.
  intros Hall. unfold transformPath.
  assert (Hsegs : exists segments,
             mapM transformSegment (Split path "/") = Some segments
             /\ Forall2 (fun p q =>
                  (exists field, p = "{" +:+ field +:+ "}" /\ q = ":" +:+ field)
                  \/ ((forall field, p <> "{" +:+ field +:+ "}") /\ q = p))
               (Split path "/") segments).
  { induction Hall as [|p ps Hp _ (segments & Hm & Hrel)]; [by exists []|].
    destruct (transformSegment_cases p Hp) as [(field & -> & Hq) | [Hnot Hq]].
    - exists ((":" +:+ field) :: segments). simpl in *. rewrite Hq, Hm. simpl.
      split; [done|]. constructor; [left; eauto | done].
    - exists (p :: segments). simpl. rewrite Hq, Hm. simpl.
      split; [done|]. constructor; [by right | done]. }
  destruct Hsegs as (segments & -> & Hrel). exists segments. by split.
Qed.

(** C1, where the code departs from it.  A segment that starts with a
    colon is not a placeholder, yet [transformPath] does not leave it
    unchanged: it cuts off its last character, and on the segment that
    is a lone colon the slice [p[1:len(p)-1]] panics. *)
Theorem C1_colon_segment_loses_its_last_character :
  (forall (mid : string) (c : ascii),
      transformSegment (":" +:+ mid +:+ str c) = Some (":" +:+ mid))
  /\ transformPath "/users/:id" = Some "/users/:i"
  /\ transformSegment ":" = None
  /\ transformPath "/:" = None.
Proof.
  split; [|by vm_compute].
  intros mid c. apply (transformSegment_rewrites ":" c mid). by right.
Qed.

End TransformPath.

(** ** Package [metadata] *)

Section MetadataFacts.

Context {Request Params ResponseWriter Other : Type} `{EqDecision Other}.

(** C9.  For every gin context, [FromContext] applied to the context that
    [NewContext] returns gives [ok = true] and a [GinData] whose
    [Request], [Params] and [Writer] are those of the gin context. *)
Theorem C9_FromContext_NewContext
        (ctx : @metadata.GinContext Request Params ResponseWriter Other) :
  exists data,
    metadata.FromContext (metadata.NewContext ctx) = (Some data, true)
    /\ metadata.gd_Request data = metadata.gc_Request ctx
    /\ metadata.gd_Params data = metadata.gc_Params ctx
    /\ metadata.gd_Writer data = metadata.gc_Writer ctx.
Proof.
  unfold metadata.FromContext, metadata.NewContext. simpl. eauto 10.
Qed.

(** A value stored under another key on top does not hide the gin
    data. *)
Lemma FromContext_WithValue_other
      (ctx : @metadata.Context Request Params ResponseWriter Other) (k : Other)
      (v : @metadata.Value Request Params ResponseWriter Other) :
  metadata.FromContext (metadata.WithValue ctx (metadata.otherKey k) v)
  = metadata.FromContext ctx.
Proof.
  unfold metadata.FromContext. by simpl.
Qed.

End MetadataFacts.

(** ** Package [binding] *)

Section BindingFacts.

Import binding.

Lemma find_first {A} (f : A -> bool) (pre post : list A) (x : A) :
  Forall (fun y => f y = false) pre -> f x = true ->
  List.find f (pre ++ x :: post) = Some x.
Proof.
  intros Hpre Hx. induction Hpre as [|y pre Hy _ IH]; simpl.
  - by rewrite Hx.
  - by rewrite Hy.
Qed.

Lemma existsb_Contains (s : string) (subs : list string) :
  existsb (Contains s) subs = true <-> exists sub, sub ∈ subs /\ occursIn sub s.
Proof.
  unfold occursIn. induction subs as [|x subs IH]; simpl.
  - split; [done | intros (sub & Hin & _); inversion Hin].
  - rewrite orb_true_iff, IH, Contains_spec. split.
    + intros [Hx | (sub & Hin & Hsub)]; [exists x | exists sub];
        (split; [by constructor | done]).
    + intros (sub & [->|Hin]%elem_of_cons & Hsub); [by left | right; eauto].
Qed.

(** C10.  [BindByContentType] is a total function of the Content-Type
    header: it makes exactly the call that [selectCall] picks.  The call
    is that of the first row, in the order XML, YAML, TOML, ProtoBuf,
    MsgPack, multipart form, URL-encoded form, one of whose content
    types occurs in the header as a substring; when none of the content
    types occurs in the header, and so for the empty header, the call is
    [BindJSON]. *)
Theorem C10_BindByContentType_selects_first_contained
        `{GinContext Ctx Obj Err} (ctx : Ctx) (obj : Obj) :
  BindByContentType ctx obj
  = perform (selectCall (GetHeader ctx "Content-Type")) ctx obj
  /\ map snd contentTypes
     = [CallBindXML; CallBindYAML; CallBindTOML; CallShouldBindWith ProtoBuf;
        CallShouldBindWith MsgPack; CallShouldBindWith FormMultipart; CallBind]
  /\ (forall (contentType : string) pre types call post,
         contentTypes = pre ++ (types, call) :: post ->
         (exists sub, sub ∈ types /\ occursIn sub contentType) ->
         (forall types' call' sub, (types', call') ∈ pre -> sub ∈ types' ->
                                   ~ occursIn sub contentType) ->
         selectCall contentType = call)
  /\ (forall contentType : string,
         (forall types call sub, (types, call) ∈ contentTypes -> sub ∈ types ->
                                 ~ occursIn sub contentType) ->
         selectCall contentType = CallBindJSON)
  /\ selectCall "" = CallBindJSON.
Proof.
  split; [|split; [done|split; [|split; [|done]]]].
  - unfold BindByContentType, selectCall, contentTypes. simpl.
    set (ct := GetHeader ctx "Content-Type").
    repeat match goal with
           | |- context [Contains ct ?x] => destruct (Contains ct x); simpl; try done
           end.
  - intros contentType pre types call post Htable Hsub Hpre.
    unfold selectCall. rewrite Htable.
    rewrite (find_first _ pre post (types, call)); [done| |].
    + apply Forall_forall. intros [types' call'] Hin. simpl.
      destruct (existsb (Contains contentType) types') eqn:Hex; [|done].
      apply existsb_Contains in Hex as (sub & Hin' & Hocc).
      by destruct (Hpre types' call' sub Hin Hin').
    + simpl. by apply existsb_Contains.
  - intros contentType Hnone. unfold selectCall.
    destruct (List.find _ contentTypes) as [[types call]|] eqn:Hfind; [|done].
    apply find_some in Hfind as [Hin Hex]. simpl in Hex.
    apply existsb_Contains in Hex as (sub & Hin' & Hocc).
    destruct (Hnone types call sub); [by apply list_elem_of_In | done..].
Qed.

End BindingFacts.

(** ** The generator: what is printed, and where it stops *)

Section GeneratorProperties.

Context `{Regexp} `{MapOrder} `{Protogen}.
Variable MessageFields : string -> list FieldDescriptor.

Lemma printed_nil (s : GenState) : printed s [] = s.
Proof. destruct s; unfold printed; simpl. by rewrite app_nil_r. Qed.

Lemma printed_printed (s : GenState) (a b : list string) :
  printed (printed s a) b = printed s (a ++ b).
Proof. unfold printed; simpl. by rewrite app_assoc. Qed.

Lemma eprint_printed (line : string) (s : GenState) :
  eprint line s = Done tt (printed s [line]).
Proof. done. Qed.

Lemma isWarning_mapWarning v : isWarning (mapWarning v).
Proof. apply HasPrefix_append. Qed.

Lemma isWarning_listWarning v : isWarning (listWarning v).
Proof. apply HasPrefix_append. Qed.

Lemma isError_notFoundError v path : isError (notFoundError v path).
Proof. apply HasPrefix_append. Qed.

Lemma error_not_warning (line : string) : isError line -> ~ isWarning line.
Proof.
  unfold isError, isWarning. intros [a ->]%HasPrefix_spec [b Hb]%HasPrefix_spec.
  vm_compute in Hb. discriminate.
Qed.

Lemma fieldWarning_isWarning v fd w : fieldWarning v fd = Some w -> isWarning w.
Proof.
  unfold fieldWarning. destruct (fd_IsMap fd); [intros [= <-]; apply isWarning_mapWarning|].
  destruct (fd_IsList fd); [intros [= <-]; apply isWarning_listWarning | done].
Qed.

Lemma walkWarnings_isWarning v fields comps :
  Forall isWarning (walkWarnings MessageFields v fields comps).
Proof.
  apply Forall_forall. intros w (fd & _ & Hw)%list_elem_of_omap.
  by eapply fieldWarning_isWarning.
Qed.

(** The inner loop prints a warning for every map or list it meets and
    stops, with the error and status 2, at the first component that
    names no field. *)
Lemma walkFields_spec v path comps : forall fields s,
  walkFields MessageFields v path fields comps s =
  if resolves MessageFields fields comps
  then Done tt (printed s (walkWarnings MessageFields v fields comps))
  else Exited 2 (printed s (walkWarnings MessageFields v fields comps
                            ++ [notFoundError v path])).
Proof.
  unfold walkWarnings.
  induction comps as [|field rest IH]; intros fields s; simpl.
  - by rewrite printed_nil.
  - destruct (String.eqb (TrimSpace field) ""); [apply IH|].
    fold (fieldKey field).
    destruct (ByName fields (fieldKey field)) as [fd|] eqn:Hfd; simpl.
    + unfold nextFields, fieldWarning.
      destruct (fd_IsMap fd); simpl.
      { unfold mbind, Gen_bind. rewrite eprint_printed, IH.
        destruct (resolves _ _ _); by rewrite printed_printed. }
      destruct (fd_IsList fd); simpl.
      { unfold mbind, Gen_bind. rewrite eprint_printed, IH.
        destruct (resolves _ _ _); by rewrite printed_printed. }
      destruct (isMessageOrGroup (fd_Kind fd)); apply IH.
    + done.
Qed.

Lemma paramsLoop_spec m params : forall path s,
  paramsLoop MessageFields m params path s =
  if forallb (fun p : string * option string => paramResolves MessageFields m p.1) params
  then Done (finalPath params path) (printed s (loopLines MessageFields m params path))
  else Exited 2 (printed s (loopLines MessageFields m params path)).
Proof.
  induction params as [|[v value] rest IH]; intros path s; simpl.
  - by rewrite printed_nil.
  - unfold mbind, Gen_bind. rewrite walkFields_spec.
    fold (paramResolves MessageFields m v).
    destruct (paramResolves MessageFields m v); simpl; [|done].
    rewrite IH. unfold finalPath at 1. simpl.
    destruct (forallb _ rest); by rewrite printed_printed.
Qed.

Lemma loopLines_resolved m params : forall path,
  forallb (fun p : string * option string => paramResolves MessageFields m p.1) params = true ->
  Forall isWarning (loopLines MessageFields m params path).
Proof.
  induction params as [|[v value] rest IH]; intros path Hall; simpl in *; [done|].
  apply andb_true_iff in Hall as [-> Hrest].
  apply Forall_app; split; [apply walkWarnings_isWarning | by apply IH].
Qed.

Lemma loopLines_unresolved m params : forall path,
  forallb (fun p : string * option string => paramResolves MessageFields m p.1) params = false ->
  exists warnings v path',
    loopLines MessageFields m params path = warnings ++ [notFoundError v path']
    /\ Forall isWarning warnings
    /\ (exists value, (v, value) ∈ params)
    /\ paramResolves MessageFields m v = false.
Proof.
  induction params as [|[v value] rest IH]; intros path Hall; simpl in *; [done|].
  destruct (paramResolves MessageFields m v) eqn:Hv; simpl in Hall.
  - edestruct (IH (match value with
                   | Some x => replacePath v x path
                   | None => path
                   end) Hall) as (ws & v' & path' & -> & Hws & [value' Hin] & Hv').
    eexists (_ ++ ws), v', path'. rewrite app_assoc. split; [done|].
    split; [apply Forall_app; split; [apply walkWarnings_isWarning | done]|].
    split; [exists value'; by right | done].
  - eexists _, v, _. split; [done|]. split; [apply walkWarnings_isWarning|].
    split; [exists value; by left | done].
Qed.

Lemma buildPathParams_spec path s :
  buildPathParams path s = Done (pathParams path) (printed s (slashWarning path)).
Proof.
  unfold buildPathParams, slashWarning, when, mbind, Gen_bind.
  destruct (HasSuffix path "/"); simpl.
  - done.
  - unfold mret, Gen_ret. by rewrite printed_nil.
Qed.

(** [buildMethodDesc], in one equation: it exits with status 2 when a
    parameter of the path does not resolve, and otherwise returns the
    descriptor, or panics where [transformPath] does. *)
Lemma buildMethodDesc_spec m method path s :
  buildMethodDesc MessageFields m method path s =
  if pathResolves MessageFields m path then
    let types := qualifiedTypes m (gf_imports (genfile s)) in
    match builtDesc m method path (default 0 (methodSets s !! m_GoName m))
                    types.1.1 types.1.2 with
    | Some md => Done md (builtState MessageFields m path s)
    | None => Panicked (builtState MessageFields m path s)
    end
  else Exited 2 (printed s (buildLines MessageFields m path)).
Proof.
  unfold buildMethodDesc, mbind, Gen_bind at 1.
  rewrite buildPathParams_spec. unfold Gen_bind at 1.
  rewrite paramsLoop_spec. fold (rangedParams path).
  fold (pathResolves MessageFields m path). unfold buildLines.
  destruct (pathResolves MessageFields m path); [|by rewrite printed_printed].
  rewrite printed_printed.
  unfold Gen_bind, getMethodSet, qualifiedGoIdent, incrMethodSet, builtDesc,
    builtState, qualifiedTypes, buildLines, printed, panic, mret, Gen_ret; simpl.
  destruct (QualifiedGoIdent _ (msg_GoIdent (m_Input m))) as [request i1]; simpl.
  destruct (QualifiedGoIdent i1 (msg_GoIdent (m_Output m))) as [reply i2]; simpl.
  by destruct (transformPath _).
Qed.

Lemma eqb_star_not_empty (body : string) :
  String.eqb body "*" = true -> String.eqb body "" = false.
Proof. intros ->%String.eqb_eq. done. Qed.

(** [buildHTTPRule] ends as [buildMethodDesc] does; when that returns, it
    prints the warning of a mismatch, if there is one, and returns the
    descriptor of the rule. *)
Lemma buildHTTPRule_spec m rule s :
  buildHTTPRule MessageFields m rule s =
  match buildMethodDesc MessageFields m (rulePathMethod rule).2
                        (rulePathMethod rule).1 s with
  | Done md s' =>
      Done (ruleDesc rule md)
           (printed s' (mismatchWarning (rulePathMethod rule).2
                                        (rulePathMethod rule).1 (Body rule)))
  | Exited code s' => Exited code s'
  | Panicked s' => Panicked s'
  end.
Proof.
  unfold buildHTTPRule, ruleDesc.
  destruct (rulePathMethod rule) as [path method] eqn:Hpm; simpl.
  unfold mbind, Gen_bind at 1.
  destruct (buildMethodDesc MessageFields m method path s) as [md s'| |]; [|done..].
  unfold mismatchWarning, bodyMismatch, when, Gen_bind, mret, Gen_ret.
  assert (Hstate : forall (b : bool) line,
             (if b then eprint line else fun s => Done tt s) s'
             = Done tt (printed s' (if b then [line] else []))).
  { intros [] line; [done | by rewrite printed_nil]. }
  destruct (String.eqb method MethodGet || String.eqb method MethodDelete).
  - rewrite Hstate.
    destruct (String.eqb (Body rule) "*") eqn:Hstar.
    + rewrite (eqb_star_not_empty _ Hstar). simpl.
      destruct (String.eqb (ResponseBody rule) "*") eqn:Hrstar; simpl; [done|].
      by destruct (String.eqb (ResponseBody rule) "").
    + destruct (String.eqb (Body rule) ""); simpl;
        (destruct (String.eqb (ResponseBody rule) "*") eqn:Hrstar; simpl; [done|]);
        by destruct (String.eqb (ResponseBody rule) "").
  - rewrite Hstate.
    destruct (String.eqb (Body rule) "*") eqn:Hstar.
    + rewrite (eqb_star_not_empty _ Hstar). simpl.
      destruct (String.eqb (ResponseBody rule) "*") eqn:Hrstar; simpl; [done|].
      by destruct (String.eqb (ResponseBody rule) "").
    + destruct (String.eqb (Body rule) ""); simpl;
        (destruct (String.eqb (ResponseBody rule) "*") eqn:Hrstar; simpl; [done|]);
        by destruct (String.eqb (ResponseBody rule) "").
Qed.

Lemma elem_of_rangedParams path v value :
  (v, value) ∈ rangedParams path <-> pathParams path !! v = Some value.
Proof.
  unfold rangedParams. rewrite (mapRange_perm _ (pathParams path)).
  apply elem_of_map_to_list.
Qed.

Lemma Forall_forallb {A} (f : A -> bool) (l : list A) :
  forallb f l = true <-> forall x, x ∈ l -> f x = true.
Proof.
  induction l as [|a l IH]; simpl.
  - split; [intros _ x Hx; inversion Hx | done].
  - rewrite andb_true_iff, IH. split.
    + intros [Ha Hl] x [->|Hx]%elem_of_cons; auto.
    + intros Hall. split; [apply Hall; left | intros x Hx; apply Hall; by right].
Qed.

(** Whether the parameters of a path all resolve does not depend on the
    order of the range. *)
Lemma pathResolves_true m path :
  pathResolves MessageFields m path = true <->
  forall v value, pathParams path !! v = Some value ->
                  paramResolves MessageFields m v = true.
Proof.
  unfold pathResolves. rewrite Forall_forallb. split.
  - intros Hall v value Hv. by apply (Hall (v, value)), elem_of_rangedParams.
  - intros Hall [v value] Hin. by eapply Hall, elem_of_rangedParams.
Qed.

Lemma pathResolves_false m path :
  pathResolves MessageFields m path = false <->
  exists v value, pathParams path !! v = Some value
                  /\ paramResolves MessageFields m v = false.
Proof.
  split.
  - intros Hres. unfold pathResolves in Hres.
    destruct (loopLines_unresolved m _ path Hres)
      as (_ & v & _ & _ & _ & [value Hin] & Hv).
    exists v, value. by rewrite <- elem_of_rangedParams.
  - intros (v & value & Hin & Hv).
    destruct (pathResolves MessageFields m path) eqn:Hres; [|done].
    rewrite pathResolves_true in Hres. by rewrite (Hres _ _ Hin) in Hv.
Qed.

Lemma walkWarnings_in_loopLines m params : forall path v value w,
  forallb (fun p : string * option string => paramResolves MessageFields m p.1) params = true ->
  (v, value) ∈ params ->
  w ∈ walkWarnings MessageFields v (MessageFields (msg_FullName (m_Input m)))
                   (Split v ".") ->
  w ∈ loopLines MessageFields m params path.
Proof.
  induction params as [|[v' value'] rest IH]; intros path v value w Hall Hin Hw.
  - inversion Hin.
  - simpl in *. apply andb_true_iff in Hall as [Hv' Hrest]. rewrite Hv'.
    apply elem_of_app. apply elem_of_cons in Hin as [[= -> ->]|Hin].
    + by left.
    + right. by eapply IH.
Qed.

Lemma mismatchWarning_isWarning method path body :
  Forall isWarning (mismatchWarning method path body).
Proof.
  unfold mismatchWarning. destruct (bodyMismatch method body); [|done].
  apply Forall_singleton, HasPrefix_append.
Qed.

Lemma slashWarning_isWarning path : Forall isWarning (slashWarning path).
Proof.
  unfold slashWarning. destruct (HasSuffix path "/"); [|done].
  apply Forall_singleton, HasPrefix_append.
Qed.

(** What [buildHTTPRule] does with the placeholders of a path, for every
    method [m] and HTTP rule [rule].  [resolves] is the test the loop
    makes: a component is looked up in the message reached so far, and
    only a field of message kind moves the walk on to another message.
    If a placeholder has a component that this test does not find, the
    generator writes the error to standard error, after warnings only,
    and exits with status 2.  If the test finds every component, the
    generator does not exit and writes nothing but warnings: one for
    each map or list field that a placeholder names, and one when the
    body does not fit the method; it then returns a method descriptor,
    unless [transformPath] panics on the path. *)
Lemma buildHTTPRule_exits_warns_or_panics
        (m : Method) (rule : HttpRule) (s : GenState) :
  let path := (rulePathMethod rule).1 in
  let method := (rulePathMethod rule).2 in
  let fields := MessageFields (msg_FullName (m_Input m)) in
  ((exists v value, pathParams path !! v = Some value
                    /\ resolves MessageFields fields (Split v ".") = false) ->
   exists s' warnings v path',
     buildHTTPRule MessageFields m rule s = Exited 2 s'
     /\ stderr s' = stderr s ++ warnings ++ [notFoundError v path']
     /\ Forall isWarning warnings
     /\ is_Some (pathParams path !! v)
     /\ resolves MessageFields fields (Split v ".") = false)
  /\
  ((forall v value, pathParams path !! v = Some value ->
                    resolves MessageFields fields (Split v ".") = true) ->
   let lines := buildLines MessageFields m path in
   let mismatch := mismatchWarning method path (Body rule) in
   Forall isWarning (lines ++ mismatch)
   /\ (forall v value fd,
         pathParams path !! v = Some value ->
         fd ∈ found MessageFields fields (Split v ".") ->
         (fd_IsMap fd = true -> mapWarning v ∈ lines)
         /\ (fd_IsMap fd = false -> fd_IsList fd = true -> listWarning v ∈ lines))
   /\ (bodyMismatch method (Body rule) = true -> exists w, mismatch = [w])
   /\ match transformPath (finalPath (rangedParams path) path) with
      | Some _ =>
          exists md s', buildHTTPRule MessageFields m rule s = Done md s'
                        /\ stderr s' = stderr s ++ lines ++ mismatch
      | None =>
          exists s', buildHTTPRule MessageFields m rule s = Panicked s'
                     /\ stderr s' = stderr s ++ lines
      end).
Proof.
  intros path method fields. split.
  - intros Hmissing. apply (pathResolves_false m path) in Hmissing as Hres.
    rewrite buildHTTPRule_spec, buildMethodDesc_spec. fold path method.
    rewrite Hres. unfold pathResolves in Hres.
    destruct (loopLines_unresolved m _ path Hres)
      as (ws & v & path' & Hlines & Hws & [value Hin] & Hv).
    exists (printed s (buildLines MessageFields m path)),
           (slashWarning path ++ ws), v, path'.
    split; [done|]. split.
    { simpl. unfold buildLines. fold (rangedParams path) in Hlines.
      by rewrite Hlines, !app_assoc. }
    split; [apply Forall_app; split; [apply slashWarning_isWarning | done]|].
    split; [|done]. exists value. by apply elem_of_rangedParams.
  - intros Hall lines mismatch.
    apply (pathResolves_true m path) in Hall as Hres.
    split; [|split; [|split]].
    + apply Forall_app. split; [|apply mismatchWarning_isWarning].
      apply Forall_app. split; [apply slashWarning_isWarning|].
      by apply loopLines_resolved.
    + intros v value fd Hv Hfd.
      assert (Hin : forall w, fieldWarning v fd = Some w -> w ∈ lines).
      { intros w Hw. apply elem_of_app. right.
        eapply walkWarnings_in_loopLines; [done | by apply elem_of_rangedParams |].
        apply list_elem_of_omap. eauto. }
      split.
      * intros Hmap. apply Hin. unfold fieldWarning. by rewrite Hmap.
      * intros Hmap Hlist. apply Hin. unfold fieldWarning. by rewrite Hmap, Hlist.
    + unfold mismatch, mismatchWarning. intros ->. eauto.
    + rewrite buildHTTPRule_spec, buildMethodDesc_spec. fold path method.
      rewrite Hres. unfold builtDesc. simpl.
      destruct (transformPath _) as [routerPath|]; simpl.
      * eexists _, _. split; [done|]. simpl. by rewrite app_assoc.
      * eexists. split; [done|]. done.
Qed.

(** When the parameters of its path resolve and [transformPath] does not
    panic, [buildMethodDesc] returns. *)
Lemma buildMethodDesc_returns m method path s :
  pathBuilds MessageFields m path = true ->
  exists md,
    buildMethodDesc MessageFields m method path s
    = Done md (builtState MessageFields m path s)
    /\ builtDesc m method path (default 0 (methodSets s !! m_GoName m))
                 (qualifiedTypes m (gf_imports (genfile s))).1.1
                 (qualifiedTypes m (gf_imports (genfile s))).1.2 = Some md.
Proof.
  unfold pathBuilds. intros [Hres Hpath]%andb_true_iff.
  apply bool_decide_eq_true in Hpath as [routerPath Hpath].
  rewrite buildMethodDesc_spec, Hres. unfold builtDesc. rewrite Hpath. simpl.
  eauto.
Qed.

Lemma buildHTTPRule_returns m rule s :
  ruleBuilds MessageFields m rule = true ->
  exists md s', buildHTTPRule MessageFields m rule s = Done md s'.
Proof.
  intros Hb. rewrite buildHTTPRule_spec.
  destruct (buildMethodDesc_returns m (rulePathMethod rule).2 _ s Hb) as (md & -> & _).
  eauto.
Qed.

(** C3.  For every HTTP rule for which a descriptor is built,
    [buildHTTPRule] writes to standard error, after what
    [buildMethodDesc] wrote, at most one line, a warning, and it writes
    that warning exactly when the method is GET or DELETE and the rule
    declares a body, or the method is neither and the rule declares no
    body.  With or without the warning it returns the same descriptor:
    the one [buildMethodDesc] returned, with the path parameters and the
    body selectors of the rule filled in. *)
Theorem C3_mismatch_warning_exactly_when
        (m : Method) (rule : HttpRule) (s : GenState) :
  let path := (rulePathMethod rule).1 in
  let method := (rulePathMethod rule).2 in
  let warning := mismatchWarning method path (Body rule) in
  pathBuilds MessageFields m path = true ->
  exists md s0,
    buildMethodDesc MessageFields m method path s = Done md s0
    /\ buildHTTPRule MessageFields m rule s
       = Done (ruleDesc rule md) (printed s0 warning)
    /\ Forall isWarning warning
    /\ length warning <= 1
    /\ (warning <> [] <->
        ((method = MethodGet \/ method = MethodDelete) /\ Body rule <> "")
        \/ (method <> MethodGet /\ method <> MethodDelete /\ Body rule = "")).
Proof.
  intros path method warning Hb.
  destruct (buildMethodDesc_returns m method path s Hb) as (md & Hmd & _).
  exists md, (builtState MessageFields m path s). split; [done|].
  split; [by rewrite buildHTTPRule_spec; fold path method; rewrite Hmd|].
  split; [apply mismatchWarning_isWarning|].
  unfold warning, mismatchWarning, bodyMismatch.
  destruct (String.eqb_spec method MethodGet) as [Hget|Hget];
    destruct (String.eqb_spec method MethodDelete) as [Hdel|Hdel];
    destruct (String.eqb_spec (Body rule) "") as [Hbody|Hbody]; simpl;
    (split; [lia|]); split; try done; try tauto;
    intros _; tauto.
Qed.

(** C4.  For every HTTP rule for which a descriptor is built: the body
    selector "*" gives [HasBody = true] and [Body = ""]; another
    non-empty body gives [HasBody = true] and, as [Body], a dot followed
    by the camel-cased components of the selector joined by dots; an
    empty body gives [HasBody = false].  In the same way the response
    body "*" gives [ResponseBody = ""], and another non-empty one a dot
    followed by its camel-cased components. *)
Theorem C4_body_selectors
        (m : Method) (rule : HttpRule) (s : GenState) :
  ruleBuilds MessageFields m rule = true ->
  exists md s',
    buildHTTPRule MessageFields m rule s = Done md s'
    /\ (Body rule = "*" -> md_HasBody md = true /\ md_Body md = "")
    /\ (Body rule <> "" -> Body rule <> "*" ->
        md_HasBody md = true
        /\ md_Body md = "." +:+ Join (map camelCase (Split (Body rule) ".")) ".")
    /\ (Body rule = "" -> md_HasBody md = false)
    /\ (ResponseBody rule = "*" -> md_ResponseBody md = "")
    /\ (ResponseBody rule <> "" -> ResponseBody rule <> "*" ->
        md_ResponseBody md
        = "." +:+ Join (map camelCase (Split (ResponseBody rule) ".")) ".").
Proof.
  intros Hb. rewrite buildHTTPRule_spec.
  destruct (buildMethodDesc_returns m (rulePathMethod rule).2 _ s Hb) as (md & -> & _).
  eexists _, _. split; [done|]. unfold ruleDesc; simpl.
  split; [by intros ->|].
  split.
  { intros Hne Hstar. apply String.eqb_neq in Hne, Hstar. by rewrite Hne, Hstar. }
  split; [by intros ->|].
  split; [by intros ->|].
  intros Hne Hstar. apply String.eqb_neq in Hne, Hstar. by rewrite Hne, Hstar.
Qed.

Lemma appendBindings_spec m binds : forall methods s,
  forallb (ruleBuilds MessageFields m) binds = true ->
  exists ds s',
    appendBindings MessageFields m binds methods s = Done (methods ++ ds) s'
    /\ Forall2 (fun d r => exists s1 s2,
                    buildHTTPRule MessageFields m r s1 = Done d s2) ds binds.
Proof.
  induction binds as [|bind rest IH]; intros methods s Hall; simpl in *.
  - exists [], s. by rewrite app_nil_r.
  - apply andb_true_iff in Hall as [Hbind Hrest].
    destruct (buildHTTPRule_returns m bind s Hbind) as (md & s1 & Hmd).
    unfold mbind, Gen_bind. rewrite Hmd.
    destruct (IH (methods ++ [md]) s1 Hrest) as (ds & s' & -> & Hds).
    exists (md :: ds), s'. split; [by rewrite <- app_assoc|].
    constructor; eauto.
Qed.

(** C5.  For every method that streams in neither direction and whose
    HTTP rule has N additional bindings, all of which, like the rule
    itself, build a descriptor: the step of [genService] for the method
    appends exactly N + 1 descriptors to [sd.Methods], those of the
    additional bindings in their order and then that of the rule. *)
Theorem C5_one_descriptor_per_binding_then_rule
        (service : Service) (omitempty : bool) (method : Method)
        (rule : HttpRule) (methods : list methodDesc) (s : GenState) :
  m_IsStreamingClient method = false ->
  m_IsStreamingServer method = false ->
  m_HttpRule method = Some rule ->
  forallb (ruleBuilds MessageFields method) (AdditionalBindings rule ++ [rule]) = true ->
  exists ds s',
    genServiceMethod MessageFields service omitempty method methods s
    = Done (methods ++ ds) s'
    /\ length ds = S (length (AdditionalBindings rule))
    /\ Forall2 (fun d r => exists s1 s2,
                    buildHTTPRule MessageFields method r s1 = Done d s2)
               ds (AdditionalBindings rule ++ [rule]).
Proof.
  intros Hc Hs Hrule Hall. unfold genServiceMethod. rewrite Hc, Hs, Hrule. simpl.
  rewrite forallb_app in Hall. apply andb_true_iff in Hall as [Hbinds Hlast].
  simpl in Hlast. rewrite andb_true_r in Hlast.
  destruct (appendBindings_spec method _ methods s Hbinds) as (ds & s1 & Hds & Hrel).
  unfold mbind, Gen_bind at 1. rewrite Hds.
  destruct (buildHTTPRule_returns method rule s1 Hlast) as (md & s' & Hmd).
  unfold Gen_bind. rewrite Hmd.
  exists (ds ++ [md]), s'. split; [by rewrite app_assoc|].
  split.
  - rewrite length_app. simpl. apply Forall2_length in Hrel. lia.
  - apply Forall2_app; [done|]. constructor; [eauto | constructor].
Qed.

(** *** The descriptors of a service *)

(** What a descriptor keeps of the method it was built for, and what the
    builder leaves untouched. *)
Lemma buildMethodDesc_Done_inv m method path s md s' :
  buildMethodDesc MessageFields m method path s = Done md s' ->
  md_Name md = m_GoName m /\ md_OriginalName md = m_Name m
  /\ md_Num md = default 0 (methodSets s !! m_GoName m)
  /\ gf_buf (genfile s') = gf_buf (genfile s).
Proof.
  rewrite buildMethodDesc_spec.
  destruct (pathResolves MessageFields m path); [|done]. simpl.
  unfold builtDesc. destruct (transformPath _); simpl; [|done].
  by intros [= <- <-].
Qed.

Lemma buildHTTPRule_Done_inv m rule s md s' :
  buildHTTPRule MessageFields m rule s = Done md s' ->
  md_Name md = m_GoName m /\ md_OriginalName md = m_Name m
  /\ md_Num md = default 0 (methodSets s !! m_GoName m)
  /\ gf_buf (genfile s') = gf_buf (genfile s).
Proof.
  rewrite buildHTTPRule_spec.
  destruct (buildMethodDesc MessageFields m _ _ s) as [md0 s0| |] eqn:Hmd; [|done..].
  intros [= <- <-]. by apply buildMethodDesc_Done_inv in Hmd.
Qed.

Lemma appendBindings_inv m binds : forall methods s methods' s',
  appendBindings MessageFields m binds methods s = Done methods' s' ->
  exists ds, methods' = methods ++ ds /\ Forall (builtFor m) ds
             /\ gf_buf (genfile s') = gf_buf (genfile s).
Proof.
  induction binds as [|bind rest IH]; intros methods s methods' s'; simpl.
  - intros [= <- <-]. exists []. by rewrite app_nil_r.
  - unfold mbind, Gen_bind.
    destruct (buildHTTPRule MessageFields m bind s) as [md s1| |] eqn:Hmd; [|done..].
    intros (ds & -> & Hds & Hbuf)%IH.
    apply buildHTTPRule_Done_inv in Hmd as (Hn & Ho & _ & Hbuf1).
    exists (md :: ds). rewrite <- app_assoc. split; [done|].
    split; [by constructor | congruence].
Qed.

Lemma genServiceMethod_inv service omitempty method methods s methods' s' :
  genServiceMethod MessageFields service omitempty method methods s
  = Done methods' s' ->
  exists ds, methods' = methods ++ ds /\ Forall (builtFor method) ds
             /\ gf_buf (genfile s') = gf_buf (genfile s).
Proof.
  unfold genServiceMethod.
  destruct (m_IsStreamingClient method || m_IsStreamingServer method).
  { intros [= <- <-]. exists []. by rewrite app_nil_r. }
  destruct (m_HttpRule method) as [rule|].
  - unfold mbind, Gen_bind at 1.
    destruct (appendBindings _ _ _ _ s) as [methods1 s1| |] eqn:Hbinds; [|done..].
    apply appendBindings_inv in Hbinds as (ds & -> & Hds & Hbuf).
    unfold Gen_bind.
    destruct (buildHTTPRule _ _ rule s1) as [md s2| |] eqn:Hmd; [|done..].
    intros [= <- <-].
    apply buildHTTPRule_Done_inv in Hmd as (Hn & Ho & _ & Hbuf1).
    exists (ds ++ [md]). rewrite app_assoc. split; [done|].
    split; [|congruence].
    apply Forall_app. split; [done|]. by constructor.
  - destruct omitempty; simpl.
    { intros [= <- <-]. exists []. by rewrite app_nil_r. }
    unfold mbind, Gen_bind.
    destruct (buildMethodDesc _ _ _ _ s) as [md s1| |] eqn:Hmd; [|done..].
    intros [= <- <-].
    apply buildMethodDesc_Done_inv in Hmd as (Hn & Ho & _ & Hbuf1).
    exists [md]. split; [done|]. split; [by constructor | done].
Qed.

Lemma genServiceMethods_inv service omitempty todo : forall methods s methods' s',
  genServiceMethods MessageFields service omitempty todo methods s
  = Done methods' s' ->
  exists ds, methods' = methods ++ ds
             /\ Forall (fun md => exists method, method ∈ todo /\ builtFor method md) ds
             /\ gf_buf (genfile s') = gf_buf (genfile s).
Proof.
  induction todo as [|method rest IH]; intros methods s methods' s'; simpl.
  - intros [= <- <-]. exists []. by rewrite app_nil_r.
  - unfold mbind, Gen_bind.
    destruct (genServiceMethod _ _ _ _ _ s) as [methods1 s1| |] eqn:Hm; [|done..].
    apply genServiceMethod_inv in Hm as (ds1 & -> & Hds1 & Hbuf1).
    intros (ds & -> & Hds & Hbuf)%IH.
    exists (ds1 ++ ds). rewrite app_assoc. split; [done|].
    split; [|congruence].
    apply Forall_app. split.
    + eapply Forall_impl; [exact Hds1|]. intros md Hmd. exists method.
      split; [by left | done].
    + eapply Forall_impl; [exact Hds|]. intros md (method' & Hin & Hmd).
      exists method'. split; [by right | done].
Qed.

Lemma genServiceMethod_returns service omitempty method methods s :
  methodBuilds MessageFields service omitempty method = true ->
  exists methods' s',
    genServiceMethod MessageFields service omitempty method methods s
    = Done methods' s'.
Proof.
  unfold methodBuilds, genServiceMethod.
  destruct (m_IsStreamingClient method) eqn:Hc; simpl; [by eauto|].
  destruct (m_IsStreamingServer method) eqn:Hs; simpl; [by eauto|].
  destruct (m_HttpRule method) as [rule|] eqn:Hrule.
  - rewrite forallb_app. intros [Hbinds Hlast]%andb_true_iff.
    simpl in Hlast. rewrite andb_true_r in Hlast.
    destruct (appendBindings_spec method _ methods s Hbinds) as (ds & s1 & Hds & _).
    unfold mbind, Gen_bind at 1. rewrite Hds.
    destruct (buildHTTPRule_returns method rule s1 Hlast) as (md & s' & Hmd).
    unfold Gen_bind. rewrite Hmd. eauto.
  - destruct omitempty; simpl; [by eauto|]. intros Hb.
    destruct (buildMethodDesc_returns method MethodPost _ s Hb) as (md & Hmd & _).
    unfold mbind, Gen_bind. rewrite Hmd. eauto.
Qed.

Lemma genServiceMethods_returns service omitempty todo : forall methods s,
  forallb (methodBuilds MessageFields service omitempty) todo = true ->
  exists methods' s',
    genServiceMethods MessageFields service omitempty todo methods s
    = Done methods' s'.
Proof.
  induction todo as [|method rest IH]; intros methods s Hall; simpl in *.
  - eauto.
  - apply andb_true_iff in Hall as [Hm Hrest].
    destruct (genServiceMethod_returns service omitempty method methods s Hm)
      as (methods1 & s1 & Hm1).
    unfold mbind, Gen_bind. rewrite Hm1. by apply IH.
Qed.

(** *** The text of a service *)



Lemma bind_unfold {A B} (c : Gen A) (f : A -> Gen B) (s : GenState) :
  (c ≫= f) s = match c s with
               | Done a s' => f a s'
               | Exited code s' => Exited code s'
               | Panicked s' => Panicked s'
               end.
Proof. done. Qed.

Lemma P_spec text s : P text s = Done tt (emitted s text).
Proof. done. Qed.

Lemma afterHeader_buf service s :
  gf_buf (genfile (afterHeader service s))
  = gf_buf (genfile s) +:+ deprecationHeader service.
Proof.
  unfold afterHeader, deprecationHeader. destruct (svc_Deprecated service); simpl.
  - unfold NL. by rewrite !append_assoc.
  - by rewrite append_nil_r.
Qed.

(** [genService] on a service all of whose methods build: it returns the
    descriptor with the methods its loop collected and, when there is
    one at least, has printed what [execute] returns. *)
Lemma genService_spec file service omitempty s :
  serviceBuilds MessageFields service omitempty = true ->
  exists methods s1,
    genServiceMethods MessageFields service omitempty (svc_Methods service) []
                      (afterHeader service s) = Done methods s1
    /\ genService MessageFields file service omitempty s
       = Done (newServiceDesc file service methods)
              (if length methods =? 0 then s1
               else emitted s1 (execute (newServiceDesc file service methods))).
Proof.
  intros Hb.
  destruct (genServiceMethods_returns service omitempty _ [] (afterHeader service s) Hb)
    as (methods & s1 & Hm).
  exists methods, s1. split; [done|].
  unfold genService, afterHeader in *. rewrite bind_unfold.
  destruct (svc_Deprecated service); unfold when.
  - rewrite bind_unfold, !P_spec, bind_unfold, Hm, bind_unfold.
    by destruct (length methods =? 0).
  - unfold mret at 1, Gen_ret at 1. rewrite bind_unfold, Hm, bind_unfold.
    by destruct (length methods =? 0).
Qed.

(** The file after [genService] has run on a service that builds. *)
Lemma genService_text file service omitempty s :
  serviceBuilds MessageFields service omitempty = true ->
  exists methods s',
    genService MessageFields file service omitempty s
    = Done (newServiceDesc file service methods) s'
    /\ Forall (fun md => exists method,
                   method ∈ svc_Methods service /\ builtFor method md) methods
    /\ (methods <> [] ->
        gf_buf (genfile s')
        = gf_buf (genfile s) +:+ deprecationHeader service
          +:+ execute (newServiceDesc file service methods) +:+ NL).
Proof.
  intros Hb. destruct (genService_spec file service omitempty s Hb)
    as (methods & s1 & Hloop & Hgen).
  apply genServiceMethods_inv in Hloop as (ds & -> & Hds & Hbuf). simpl in *.
  eexists ds, _. split; [exact Hgen|]. split; [done|].
  intros Hne. destruct ds as [|d ds]; [done|]. simpl.
  rewrite Hbuf, afterHeader_buf. by rewrite !append_assoc.
Qed.


(** C7, as the code has it.  For every service that the generator builds
    with at least one method descriptor, the text added to the generated
    file is, after the deprecation comment if there is one: the text of
    the server template, two line feeds, the text of the client
    template, two line feeds and the text of the tagged-structs
    template, in that order, from which [strings.Trim] has removed the
    carriage returns and line feeds at both ends; then a line feed.
    The server text starts with a line feed, so the trimming always
    removes something. *)
Theorem C7_trimmed_concatenation_of_three_texts
        (file : File) (service : Service) (omitempty : bool) (s : GenState) :
  serviceBuilds MessageFields service omitempty = true ->
  exists sd s',
    genService MessageFields file service omitempty s = Done sd s'
    /\ (sd_Methods sd <> [] ->
        let r := withMethodSets sd in
        gf_buf (genfile s')
        = gf_buf (genfile s) +:+ deprecationHeader service
          +:+ Trim (serverText r +:+ NL +:+ NL +:+ clientText r +:+ NL +:+ NL
                    +:+ tagsText r) (str CR +:+ str LF)
          +:+ NL
        /\ exists rest, serverText r = NL +:+ rest).
Proof.
  intros Hb. destruct (genService_text file service omitempty s Hb)
    as (methods & s' & Hgen & _ & Hbuf).
  exists (newServiceDesc file service methods), s'. split; [done|].
  intros Hne. simpl in Hne. cbv zeta.
  set (r := withMethodSets (newServiceDesc file service methods)). split.
  - rewrite (Hbuf Hne). unfold execute. cbv zeta. fold r.
    by rewrite !append_assoc.
  - destruct (serverText_head r) as [rest ->]. by exists rest.
Qed.

End GeneratorProperties.

(** ** The theorems at work on the small service *)

Section Demonstrations.

Import Demo.

(** A placeholder that names no field of the request: the error, and
    exit status 2. *)
Example missing_field_exits :
  buildHTTPRule MessageFields GetUser missingFieldRule start
  = Exited 2 (printed start [notFoundError "name" "/v1/users/{name}"]).
Proof. by vm_compute. Qed.

(** A placeholder that names a list: a warning, and the descriptor. *)
Example list_field_warns :
  exists md, buildHTTPRule MessageFields GetUser listFieldRule start
             = Done md (builtState MessageFields GetUser "/v1/users/{tags}" start)
             /\ stderr (builtState MessageFields GetUser "/v1/users/{tags}" start)
                = [listWarning "tags"]
             /\ md_Path md = "/v1/users/:tags".
Proof. eexists. by vm_compute. Qed.

Example transformPath_example :
  transformPath "/v1/users/{id}/books/{book_id}" = Some "/v1/users/:id/books/:book_id".
Proof. by vm_compute. Qed.

Example camelCaseVars_example :
  camelCaseVars "user_info.first_name" = "UserInfo.FirstName".
Proof. by vm_compute. Qed.

Example BindByContentType_example :
  binding.BindByContentType "text/xml; charset=utf-8" tt = binding.CallBindXML
  /\ binding.BindByContentType "application/json" tt = binding.CallBindJSON
  /\ binding.BindByContentType
       "application/x-www-form-urlencoded, application/toml" tt
     = binding.CallBindTOML.
Proof. by vm_compute. Qed.

(** C2 fails on the code in two places.  The placeholder [{id.id}] names
    nothing in the request message of [GetUser]: [id] is a string and has
    no field under it.  The loop of [buildMethodDesc] moves on to another
    message only after a field of message kind, so it looks the second
    [id] up in the request message again, finds it, and reports nothing:
    no error, no exit, and a descriptor whose parameter is [id.id].  And
    for [post: "/:"] without a body, where the claim has a warning and a
    descriptor, [transformPath] panics on the segment [":"] before
    [buildHTTPRule] gets to its warning: nothing is written and nothing
    returned. *)
Theorem C2_unfound_component_passes_and_colon_path_panics :
  ByName (MessageFields "demo.GetUserRequest") "id"
  = Some (field "id" false StringKind)
  /\ (exists md s',
        buildHTTPRule MessageFields GetUser
          (mkHttpRule (HttpRule_Get "/v1/users/{id.id}") "" "" []) start
        = Done md s'
        /\ stderr s' = []
        /\ md_PathParams md = ["id.id"]
        /\ md_Path md = "/v1/users/:id.id")
  /\ bodyMismatch MethodPost "" = true
  /\ (exists s',
        buildHTTPRule MessageFields Ping
          (mkHttpRule (HttpRule_Post "/:") "" "" []) start
        = Panicked s'
        /\ stderr s' = []).
Proof.
  split; [reflexivity|]. split.
  - eexists _, _. split; [by vm_compute|]. by vm_compute.
  - split; [reflexivity|]. eexists. split; [by vm_compute|]. by vm_compute.
Qed.

Lemma C3_mismatch_warning_witness :
  pathBuilds MessageFields GetUser "/v1/users/{id}" = true
  /\ exists md s0,
       buildHTTPRule MessageFields GetUser bodyOnGetRule start
       = Done (ruleDesc bodyOnGetRule md)
              (printed s0 [WARN +:+ "GET /v1/users/{id} body should not be declared."
                           +:+ str LF]).
Proof.
  split; [by vm_compute|].
  destruct (C3_mismatch_warning_exactly_when MessageFields GetUser bodyOnGetRule start)
    as (md & s0 & _ & Hrule & _); [by vm_compute|].
  exists md, s0. exact Hrule.
Defined.

Lemma C4_body_selectors_witness :
  ruleBuilds MessageFields GetUser selectorRule = true
  /\ exists md s',
       buildHTTPRule MessageFields GetUser selectorRule start = Done md s'
       /\ md_HasBody md = true
       /\ md_Body md = ".UserInfo.FirstName"
       /\ md_ResponseBody md = "".
Proof.
  split; [by vm_compute|].
  destruct (C4_body_selectors MessageFields GetUser selectorRule start)
    as (md & s' & Hrule & _ & Hbody & _ & Hresponse & _); [by vm_compute|].
  exists md, s'. split; [exact Hrule|].
  destruct Hbody as [Hhas Hbody]; [done..|].
  split; [exact Hhas|]. split; [exact Hbody | by apply Hresponse].
Defined.

Lemma C5_one_descriptor_per_binding_witness :
  forallb (ruleBuilds MessageFields GetUser)
          (AdditionalBindings getUserRule ++ [getUserRule]) = true
  /\ exists ds s',
       genServiceMethod MessageFields Users true GetUser [] start = Done ([] ++ ds) s'
       /\ length ds = 2.
Proof.
  split; [by vm_compute|].
  destruct (C5_one_descriptor_per_binding_then_rule MessageFields Users true GetUser
              getUserRule [] start) as (ds & s' & Hstep & Hlen & _);
    [done | done | done | by vm_compute |].
  exists ds, s'. split; [exact Hstep | exact Hlen].
Defined.


Lemma C7_trimmed_concatenation_witness :
  serviceBuilds MessageFields Pinger true = true
  /\ exists sd s',
       genService MessageFields file Pinger true start = Done sd s'.
Proof.
  split; [by vm_compute|].
  destruct (C7_trimmed_concatenation_of_three_texts MessageFields file Pinger true start)
    as (sd & s' & Hgen & _); [by vm_compute|].
  exists sd, s'. exact Hgen.
Defined.

(** C7 as stated fails: for the service [Pinger], which has one method
    descriptor, the text that [execute] returns, and the text printed to
    the file, differ from the texts of the three templates put one after
    another with blank lines between them: the line feeds at both ends
    are gone. *)
Lemma C7_counterexample_text_is_not_the_concatenation :
  genService MessageFields file Pinger true start
  = Done pingerDesc (emitted (builtState MessageFields Ping "/ping" start)
                             (execute pingerDesc))
  /\ execute pingerDesc
     <> serverText (withMethodSets pingerDesc) +:+ NL +:+ NL
        +:+ clientText (withMethodSets pingerDesc) +:+ NL +:+ NL
        +:+ tagsText (withMethodSets pingerDesc)
  /\ gf_buf (genfile (emitted (builtState MessageFields Ping "/ping" start)
                              (execute pingerDesc)))
     <> serverText (withMethodSets pingerDesc) +:+ NL +:+ NL
        +:+ clientText (withMethodSets pingerDesc) +:+ NL +:+ NL
        +:+ tagsText (withMethodSets pingerDesc).
Proof.
  split; [by vm_compute|].
  split; intros Heq; vm_compute in Heq; discriminate Heq.
Qed.

(** C8 as stated fails: the same method, verb and path, built a second
    time in the same run, get another descriptor; the handler number is
    0 the first time and 1 the second.  So the descriptors of the service
    [Users], which has a method [Ping], are not the same at the start of a
    run and after the service [Pinger], which has one too, has been
    processed.  And from one and the same state, two calls whose ranges
    visit the two parameters of a path in different orders return
    different client paths. *)
Lemma C8_counterexample_second_call_differs :
  (exists md1 s1 md2 s2,
      buildMethodDesc MessageFields Ping "GET" "/ping" start = Done md1 s1
      /\ buildMethodDesc MessageFields Ping "GET" "/ping" s1 = Done md2 s2
      /\ md_Num md1 = 0 /\ md_Num md2 = 1
      /\ md1 <> md2)
  /\ (exists sd0 s0 sd1 s1 sd2 s2,
         genService MessageFields file Pinger true start = Done sd0 s0
         /\ genService MessageFields file Users true start = Done sd1 s1
         /\ genService MessageFields file Users true s0 = Done sd2 s2
         /\ sd_Methods sd1 <> sd_Methods sd2)
  /\ (exists md1 s1 md2 s2,
         @buildMethodDesc _ canonicalMapOrder _ DemoOrder.MessageFields
            DemoOrder.Find "GET" "/{a_b=x}/{a.b=y}" start = Done md1 s1
         /\ @buildMethodDesc _ reversedMapOrder _ DemoOrder.MessageFields
              DemoOrder.Find "GET" "/{a_b=x}/{a.b=y}" start = Done md2 s2
         /\ md_Num md1 = md_Num md2
         /\ md_ClientPath md1 = "/a_b:x/a.b:y"
         /\ md_ClientPath md2 = "/a.b:y/{a.b=y}"
         /\ md1 <> md2).
Proof.
  split; [|split].
  - eexists _, _, _, _. split; [by vm_compute|]. split; [by vm_compute|].
    split; [done|]. split; [done|]. intros Heq. discriminate Heq.
  - eexists _, _, _, _, _, _. split; [by vm_compute|]. split; [by vm_compute|].
    split; [by vm_compute|]. intros Heq. discriminate Heq.
  - eexists _, _, _, _. split; [by vm_compute|]. split; [by vm_compute|].
    split; [done|]. split; [done|]. split; [done|]. intros Heq. discriminate Heq.
Qed.

End Demonstrations.

(** ** The descriptor, the counter and the order of the range *)

Section RangeOrder.

Context `{Regexp} `{Protogen}.
Variable MessageFields : string -> list FieldDescriptor.

(** Only the parameters that carry a pattern change the path. *)
Lemma finalPath_patterned (params : list (string * option string)) : forall path,
  finalPath params path
  = finalPath (filter (fun p : string * option string => is_Some p.2) params) path.
Proof.
  unfold finalPath. induction params as [|[v value] rest IH]; intros path; [done|].
  cbn [foldl]. rewrite filter_cons. destruct value as [x|]; cbn [snd fst].
  - rewrite decide_True by eauto. cbn [foldl snd fst]. apply IH.
  - rewrite decide_False by (by intros [? ?]). apply IH.
Qed.

Lemma NoDup_all_equal {A : Type} (l : list A) :
  NoDup l -> (forall x y, x ∈ l -> y ∈ l -> x = y) ->
  l = [] \/ exists a, l = [a].
Proof.
  intros Hnodup Hsame. destruct l as [|a [|b l]]; [by left | by right; eexists|].
  exfalso. assert (a = b) as -> by (apply Hsame; [left | right; left]).
  apply NoDup_cons in Hnodup as [Hnotin _]. apply Hnotin. left.
Qed.

(** With at most one pattern among the parameters, every order of the
    range gives the same path. *)
Lemma finalPath_one_pattern (params : gmap string (option string))
      (l1 l2 : list (string * option string)) (path : string) :
  l1 ≡ₚ map_to_list params -> l2 ≡ₚ map_to_list params ->
  (forall v1 v2 x1 x2,
     params !! v1 = Some (Some x1) -> params !! v2 = Some (Some x2) -> v1 = v2) ->
  finalPath l1 path = finalPath l2 path.
Proof.
  intros H1' H2' Hone. rewrite (finalPath_patterned l1), (finalPath_patterned l2).
  set (P := fun p : string * option string => is_Some p.2).
  assert (Hperm : filter P l1 ≡ₚ filter P l2) by (by rewrite H1', H2').
  assert (Hnodup : NoDup (filter P l1)).
  { apply NoDup_filter. rewrite H1'. apply NoDup_map_to_list. }
  assert (Hsame : forall x y, x ∈ filter P l1 -> y ∈ filter P l1 -> x = y).
  { intros [v1 o1] [v2 o2] [Hp1 Hin1]%list_elem_of_filter [Hp2 Hin2]%list_elem_of_filter.
    rewrite H1' in Hin1, Hin2.
    apply elem_of_map_to_list in Hin1, Hin2.
    destruct Hp1 as [x1 Hx1], Hp2 as [x2 Hx2]. cbn [snd] in Hx1, Hx2. subst o1 o2.
    assert (v1 = v2) as -> by (by eapply Hone). congruence. }
  destruct (NoDup_all_equal _ Hnodup Hsame) as [Hnil|[a Ha]].
  - rewrite Hnil in *. symmetry in Hperm. apply Permutation_nil_r in Hperm.
    by rewrite Hperm.
  - rewrite Ha in *. apply Permutation_singleton_l in Hperm. by rewrite Hperm.
Qed.

(** C8, as the code has it.  The descriptor that [buildMethodDesc]
    returns for a method, an HTTP verb and a path is not a function of
    those alone.  Its handler number [Num] is the value of the package
    counter [methodSets] for the Go name of the method, which every call
    that returns raises by one; its two paths are what the replacements
    of the patterns leave, made in the order in which the range visits
    the parameters, and Go draws that order at every range.  Two calls on
    the same method, verb and path, each with an order of its own, in two
    states with the same import table, return descriptors that agree on
    everything but [Num], [Path] and [ClientPath]; the paths agree too
    when both ranges go the same way, or when at most one parameter
    carries a pattern. *)
Theorem C8_descriptor_depends_on_counter_and_range_order
        (order1 order2 : MapOrder)
        (m : Method) (method path : string) (s1 s2 : GenState) :
  @pathBuilds _ order1 MessageFields m path = true ->
  @pathBuilds _ order2 MessageFields m path = true ->
  gf_imports (genfile s1) = gf_imports (genfile s2) ->
  exists md1 md2 s1' s2',
    @buildMethodDesc _ order1 _ MessageFields m method path s1 = Done md1 s1'
    /\ @buildMethodDesc _ order2 _ MessageFields m method path s2 = Done md2 s2'
    /\ md_Num md1 = default 0 (methodSets s1 !! m_GoName m)
    /\ md_Num md2 = default 0 (methodSets s2 !! m_GoName m)
    /\ methodSets s1' = <[m_GoName m := S (md_Num md1)]> (methodSets s1)
    /\ methodSets s2' = <[m_GoName m := S (md_Num md2)]> (methodSets s2)
    /\ md1 = withPaths (withNum md2 (md_Num md1)) (md_Path md1) (md_ClientPath md1)
    /\ ((@mapRange order1 _ (pathParams path) = @mapRange order2 _ (pathParams path)
         \/ (forall v1 v2 x1 x2,
               pathParams path !! v1 = Some (Some x1) ->
               pathParams path !! v2 = Some (Some x2) -> v1 = v2)) ->
        md1 = withNum md2 (md_Num md1)).
Proof.
  intros Hb1 Hb2 Himports.
  destruct (@buildMethodDesc_returns _ order1 _ MessageFields m method path s1 Hb1)
    as (md1 & Hmd1 & Hd1).
  destruct (@buildMethodDesc_returns _ order2 _ MessageFields m method path s2 Hb2)
    as (md2 & Hmd2 & Hd2).
  exists md1, md2, (@builtState _ order1 _ MessageFields m path s1),
         (@builtState _ order2 _ MessageFields m path s2).
  split; [done|]. split; [done|].
  rewrite Himports in Hd1. unfold builtDesc in Hd1, Hd2.
  destruct (transformPath (finalPath (@rangedParams _ order1 path) path))
    as [routerPath1|] eqn:Hrouter1; simpl in Hd1; [|done].
  destruct (transformPath (finalPath (@rangedParams _ order2 path) path))
    as [routerPath2|] eqn:Hrouter2; simpl in Hd2; [|done].
  injection Hd1 as <-. injection Hd2 as <-. cbn [md_Num md_Path md_ClientPath].
  do 5 (split; [done|]).
  intros Horder.
  assert (Hfinal : finalPath (@rangedParams _ order1 path) path
                   = finalPath (@rangedParams _ order2 path) path).
  { destruct Horder as [Hsame|Hone].
    - unfold rangedParams. by rewrite Hsame.
    - apply (finalPath_one_pattern (pathParams path)); [apply mapRange_perm..|done]. }
  rewrite Hfinal in Hrouter1. rewrite Hrouter1 in Hrouter2.
  injection Hrouter2 as <-. by rewrite Hfinal.
Qed.

End RangeOrder.

Lemma C8_counter_and_order_witness :
  @pathBuilds _ canonicalMapOrder DemoOrder.MessageFields DemoOrder.Find DemoOrder.path
  = true
  /\ @pathBuilds _ reversedMapOrder DemoOrder.MessageFields DemoOrder.Find DemoOrder.path
     = true
  /\ exists md1 md2,
       md_Num md1 = 0 /\ md_Num md2 = 1
       /\ md1 = withPaths (withNum md2 (md_Num md1)) (md_Path md1) (md_ClientPath md1).
Proof.
  split; [by vm_compute|]. split; [by vm_compute|].
  destruct (C8_descriptor_depends_on_counter_and_range_order
              DemoOrder.MessageFields canonicalMapOrder reversedMapOrder
              DemoOrder.Find "GET" DemoOrder.path Demo.start DemoOrder.later)
    as (md1 & md2 & s1' & s2' & _ & _ & Hn1 & Hn2 & _ & _ & Heq & _);
    [by vm_compute | by vm_compute | done |].
  exists md1, md2. split; [exact Hn1|]. split; [|exact Heq].
  rewrite Hn2. by vm_compute.
Defined.

(** * Further properties of the code *)

(** ** [camelCase] and [camelCaseVars] *)

Section CamelCase.

#[local] Arguments String.append !_ _ / : simpl nomatch.

Lemma xorSpace_upper (c : ascii) :
  isASCIILower c = true ->
  isASCIILower (xorSpace c) = false
  /\ isASCIIDigit (xorSpace c) = false
  /\ Ascii.eqb (xorSpace c) "_" = false
  /\ Ascii.eqb (xorSpace c) "." = false.
Proof.
  destruct c as [[] [] [] [] [] [] [] []]; vm_compute; intros; done.
Qed.

Lemma digit_not_lower (c : ascii) :
  isASCIIDigit c = true ->
  isASCIILower c = false /\ Ascii.eqb c "_" = false.
Proof.
  destruct c as [[] [] [] [] [] [] [] []]; vm_compute; intros; done.
Qed.

Lemma underscore_not_lower (c : ascii) :
  Ascii.eqb c "_" = true -> isASCIILower c = false /\ isASCIIDigit c = false.
Proof. intros ->%Ascii.eqb_eq. done. Qed.

(** The character that the loop writes for a character [c] at the head of
    a word. *)
Lemma head_char_not_lower (c : ascii) :
  isASCIILower (if isASCIILower c then xorSpace c else c) = false.
Proof.
  destruct (isASCIILower c) eqn:Hc; [by apply xorSpace_upper | done].
Qed.

(** At the head of a word the loop never writes a lower-case letter
    first. *)
Lemma camelCaseLoop_head (s : string) :
  nextIsLower (camelCaseLoop false s) = false.
Proof.
  induction s as [|c s IH]; simpl; [done|].
  destruct (Ascii.eqb c "_" && nextIsLower s); [done|].
  destruct (isASCIIDigit c) eqn:Hd; simpl.
  - by apply digit_not_lower.
  - apply head_char_not_lower.
Qed.

Lemma camelCaseLoop_run_head (s : string) :
  nextIsLower s = false -> nextIsLower (camelCaseLoop true s) = false.
Proof.
  destruct s as [|c s]; simpl; [done|]. intros Hc. rewrite Hc. simpl.
  destruct (Ascii.eqb c "_" && nextIsLower s); [apply camelCaseLoop_head|].
  destruct (isASCIIDigit c) eqn:Hd; simpl; exact Hc.
Qed.

Lemma camelCaseLoop_run_as_head (s : string) :
  nextIsLower s = false -> camelCaseLoop true s = camelCaseLoop false s.
Proof. destruct s as [|c s]; simpl; [done|]. by intros ->. Qed.

Lemma camelCaseLoop_idempotent (s : string) : forall inRun,
  camelCaseLoop inRun (camelCaseLoop inRun s) = camelCaseLoop inRun s.
Proof.
  induction s as [|c s IH]; intros inRun; [done|].
  cbn [camelCaseLoop].
  destruct (inRun && isASCIILower c) eqn:Hrun.
  { apply andb_true_iff in Hrun as [-> Hc]. cbn [camelCaseLoop]. rewrite Hc. simpl.
    by rewrite IH. }
  destruct (Ascii.eqb c "_" && nextIsLower s) eqn:Hskip.
  { destruct inRun; [|apply IH].
    rewrite camelCaseLoop_run_as_head by apply camelCaseLoop_head. apply IH. }
  destruct (isASCIIDigit c) eqn:Hd.
  { cbn [camelCaseLoop]. destruct (digit_not_lower c Hd) as [Hl Hu].
    rewrite Hl, Hu, Hd, andb_false_r. simpl. by rewrite IH. }
  set (c' := if isASCIILower c then xorSpace c else c).
  assert (Hl' : isASCIILower c' = false) by apply head_char_not_lower.
  assert (Hd' : isASCIIDigit c' = false).
  { unfold c'. destruct (isASCIILower c) eqn:Hc; [by apply xorSpace_upper | done]. }
  assert (Hskip' : Ascii.eqb c' "_" && nextIsLower (camelCaseLoop true s) = false).
  { unfold c'. destruct (isASCIILower c) eqn:Hc.
    - destruct (xorSpace_upper c Hc) as (_ & _ & -> & _). done.
    - destruct (Ascii.eqb c "_") eqn:Hu; [|done]. simpl in Hskip |- *.
      by apply camelCaseLoop_run_head. }
  cbn [camelCaseLoop]. rewrite Hl', Hd', Hskip', andb_false_r. simpl.
  by rewrite IH.
Qed.

(** X1.  Camel-casing a name that is camel-cased already changes nothing. *)
Theorem camelCase_idempotent (s : string) :
  camelCase (camelCase s) = camelCase s.
Proof.
  destruct s as [|c s]; [done|].
  destruct (Ascii.eqb c "_") eqn:Hu.
  - assert (E : camelCase (String c s) = String "X" (camelCaseLoop false s))
      by (unfold camelCase; by rewrite Hu).
    rewrite E. unfold camelCase. simpl.
    rewrite camelCaseLoop_run_as_head by apply camelCaseLoop_head.
    by rewrite camelCaseLoop_idempotent.
  - assert (E : camelCase (String c s) = camelCaseLoop false (String c s))
      by (unfold camelCase; by rewrite Hu).
    rewrite E.
    assert (Hhead : exists c' rest,
               camelCaseLoop false (String c s) = String c' rest
               /\ Ascii.eqb c' "_" = false).
    { cbn [camelCaseLoop]. rewrite Hu. simpl.
      destruct (isASCIIDigit c) eqn:Hd; [by eexists _, _|].
      eexists _, _. split; [done|].
      destruct (isASCIILower c) eqn:Hc; [by apply xorSpace_upper | done]. }
    destruct Hhead as (c' & rest & Hloop & Hu').
    rewrite <- (camelCaseLoop_idempotent (String c s) false) at 2.
    rewrite Hloop. unfold camelCase. by rewrite Hu'.
Qed.

Lemma xorSpace_capital (c : ascii) :
  isASCIILower c = true -> xorSpace c = ascii_of_nat (nat_of_ascii c - 32).
Proof.
  destruct c as [[] [] [] [] [] [] [] []]; vm_compute; intros; done.
Qed.

(** X2.  The name that [camelCase] makes of a non-empty name is not empty.
    Its first byte is an X when the name starts with an underscore, the
    capital when it starts with a lower-case letter, and the first byte
    of the name itself otherwise, be it a digit or anything else; it is
    never a lower-case letter and never an underscore. *)
Theorem camelCase_starts_upper (a : ascii) (s : string) :
  let c := if Ascii.eqb a "_" then "X"%char
           else if isASCIILower a then ascii_of_nat (nat_of_ascii a - 32)
           else a in
  (exists rest, camelCase (String a s) = String c rest)
  /\ isASCIILower c = false /\ Ascii.eqb c "_" = false.
Proof.
  cbv zeta. unfold camelCase.
  destruct (Ascii.eqb a "_") eqn:Hu; [by split; [eexists|]|].
  cbn [camelCaseLoop]. rewrite Hu. simpl.
  destruct (isASCIILower a) eqn:Hl.
  - assert (Hd : isASCIIDigit a = false).
    { destruct (isASCIIDigit a) eqn:Hd; [|done].
      apply digit_not_lower in Hd as [Hd _]. congruence. }
    rewrite Hd, <- (xorSpace_capital a Hl).
    split; [by eexists|].
    destruct (xorSpace_upper a Hl) as (Hlower & _ & Hunder & _). by split.
  - split; [by destruct (isASCIIDigit a); eexists|]. by split.
Qed.

Lemma camelCaseLoop_length (s : string) : forall inRun,
  String.length (camelCaseLoop inRun s) <= String.length s.
Proof.
  induction s as [|c s IH]; intros inRun; simpl; [done|].
  destruct (inRun && isASCIILower c); simpl; [specialize (IH true); lia|].
  destruct (Ascii.eqb c "_" && nextIsLower s); [specialize (IH false); lia|].
  destruct (isASCIIDigit c); simpl; [specialize (IH false) | specialize (IH true)]; lia.
Qed.

(** X3.  [camelCase] never makes a name longer. *)
Theorem camelCase_length (s : string) :
  String.length (camelCase s) <= String.length s.
Proof.
  destruct s as [|c s]; [done|]. unfold camelCase.
  destruct (Ascii.eqb c "_").
  - pose proof (camelCaseLoop_length s false). simpl. lia.
  - apply (camelCaseLoop_length (String c s) false).
Qed.

End CamelCase.

(** ** Splitting and joining *)

Section SplitJoin.

#[local] Arguments String.append !_ _ / : simpl nomatch.

Lemma Split_cons_free (c sep : ascii) (s : string) :
  Ascii.eqb c sep = false ->
  exists p ps, Split s sep = p :: ps /\ Split (String c s) sep = String c p :: ps.
Proof.
  intros Hc. simpl. rewrite Hc. pose proof (Split_nonempty s sep).
  destruct (Split s sep) as [|p ps]; [done|]. eauto.
Qed.

(** The pieces of a split do not hold the separator. *)
Lemma Split_free (s : string) (sep : ascii) :
  Forall (fun p => ~ In sep (list_ascii_of_string p)) (Split s sep).
Proof.
  induction s as [|c s IH]; simpl.
  - constructor; [by intros [] | constructor].
  - destruct (Ascii.eqb_spec c sep) as [->|Hne].
    + constructor; [by intros [] | done].
    + pose proof (Split_nonempty s sep).
      destruct (Split s sep) as [|p ps]; [done|].
      inversion IH as [|? ? Hp Hps]; subst. constructor; [|done].
      simpl. intros [?|?]; done.
Qed.

Lemma Split_free_piece (p : string) (sep : ascii) :
  ~ In sep (list_ascii_of_string p) -> Split p sep = [p].
Proof.
  induction p as [|c p IH]; simpl; [done|]. intros Hfree.
  destruct (Ascii.eqb_spec c sep) as [->|Hne]; [destruct Hfree; by left|].
  rewrite IH; [done|]. intros Hin. apply Hfree. by right.
Qed.

Lemma Split_piece_sep (p rest : string) (sep : ascii) :
  ~ In sep (list_ascii_of_string p) ->
  Split (p +:+ String sep rest) sep = p :: Split rest sep.
Proof.
  induction p as [|c p IH]; simpl; intros Hfree.
  - by rewrite Ascii.eqb_refl.
  - destruct (Ascii.eqb_spec c sep) as [->|Hne]; [destruct Hfree; by left|].
    rewrite IH; [done|]. intros Hin. apply Hfree. by right.
Qed.

(** Splitting what was joined gives the pieces back, when there is a
    piece at least and no piece holds the separator. *)
Lemma Split_Join (pieces : list string) (sep : ascii) :
  pieces <> [] ->
  Forall (fun p => ~ In sep (list_ascii_of_string p)) pieces ->
  Split (Join pieces (str sep)) sep = pieces.
Proof.
  intros Hne Hfree. induction Hfree as [|p ps Hp Hps IH]; [done|].
  destruct ps as [|q ps].
  - simpl. by apply Split_free_piece.
  - change (Join (p :: q :: ps) (str sep))
      with (p +:+ String sep (Join (q :: ps) (str sep))).
    rewrite Split_piece_sep by done. by rewrite IH.
Qed.

Lemma substring_chars (c : ascii) (s : string) : forall n m,
  In c (list_ascii_of_string (String.substring n m s)) ->
  In c (list_ascii_of_string s).
Proof.
  induction s as [|d s IH]; intros n m; simpl.
  - by destruct n, m.
  - destruct n as [|n].
    + destruct m as [|m]; simpl; [done|]. intros [?|?%IH]; auto.
    + intros ?%IH. auto.
Qed.

Lemma camelCaseLoop_no_dot (s : string) : forall inRun,
  In "."%char (list_ascii_of_string (camelCaseLoop inRun s)) ->
  In "."%char (list_ascii_of_string s).
Proof.
  induction s as [|c s IH]; intros inRun; simpl; [done|].
  destruct (inRun && isASCIILower c); simpl; [intros [?|?%IH]; auto|].
  destruct (Ascii.eqb c "_" && nextIsLower s); [intros ?%IH; auto|].
  destruct (isASCIIDigit c); simpl; [intros [?|?%IH]; auto|].
  intros [Hdot|?%IH]; [|auto]. left.
  destruct (isASCIILower c) eqn:Hc; [|done].
  destruct (xorSpace_upper c Hc) as (_ & _ & _ & Hne).
  rewrite Hdot in Hne. done.
Qed.

Lemma camelCase_no_dot (s : string) :
  ~ In "."%char (list_ascii_of_string s) ->
  ~ In "."%char (list_ascii_of_string (camelCase s)).
Proof.
  intros Hfree Hin. apply Hfree. destruct s as [|c s]; [done|].
  unfold camelCase in Hin. destruct (Ascii.eqb c "_").
  - simpl in Hin. destruct Hin as [?|?%camelCaseLoop_no_dot]; [done|].
    simpl. auto.
  - by apply camelCaseLoop_no_dot in Hin.
Qed.

(** X4.  [camelCaseVars] works component by component: the dot-separated
    components of its result are the camel-cased components of its
    argument, as many and in the same order. *)
Theorem camelCaseVars_components (s : string) :
  Split (camelCaseVars s) "." = map camelCase (Split s ".").
Proof.
  unfold camelCaseVars. apply (Split_Join _ ".").
  - pose proof (Split_nonempty s "."). by destruct (Split s ".").
  - apply Forall_fmap. eapply Forall_impl; [apply Split_free|].
    intros p Hp. by apply camelCase_no_dot.
Qed.

Lemma transformSegment_free (p q : string) :
  transformSegment p = Some q ->
  ~ In "/"%char (list_ascii_of_string p) ->
  ~ In "/"%char (list_ascii_of_string q).
Proof.
  unfold transformSegment, slice.
  destruct (_ && _); [|by intros [= ->]].
  destruct (_ && _); simpl; [|done]. intros [= <-] Hfree. simpl.
  intros [?|Hin]; [done|]. by apply substring_chars in Hin.
Qed.

(** X5.  [transformPath] works segment by segment: the path it returns has as
    many segments as its argument, each the new value of the segment at
    its place. *)
Theorem transformPath_segmentwise (path result : string) :
  transformPath path = Some result ->
  Forall2 (fun p q => transformSegment p = Some q)
          (Split path "/") (Split result "/").
Proof.
  intros (segments & Hrel & ->)%transformPath_segments.
  change (Join segments "/") with (Join segments (str "/")).
  rewrite (Split_Join segments "/"); [done| |].
  - pose proof (Split_nonempty path "/"). intros ->.
    apply Forall2_length in Hrel. by destruct (Split path "/").
  - pose proof (Split_free path "/") as Hfree. revert Hfree.
    induction Hrel as [|p q ps qs Hpq _ IH]; [done|].
    intros [Hp Hps]%Forall_cons. constructor; [|by apply IH].
    by eapply transformSegment_free.
Qed.

Lemma transformPath_segmentwise_witness :
  Forall2 (fun p q => transformSegment p = Some q)
          (Split "/v1/users/{user_id}/:name" "/")
          (Split "/v1/users/:user_id/:nam" "/").
Proof. apply (transformPath_segmentwise "/v1/users/{user_id}/:name"). reflexivity. Defined.

End SplitJoin.

(** ** Struct tags *)

Section StructTags.

#[local] Arguments String.append !_ _ / : simpl nomatch.

Lemma setTag_lookup_ne (key value key' : string) (tags : gmap string string) :
  key <> key' -> setTag key value tags !! key' = tags !! key'.
Proof.
  intros Hne. unfold setTag. destruct (String.eqb value ""); [done|].
  by rewrite lookup_insert_ne.
Qed.

Lemma setTag_lookup_eq (key value : string) (tags : gmap string string) :
  value <> "" -> setTag key value tags !! key = Some value.
Proof.
  intros Hne%String.eqb_neq. unfold setTag. rewrite Hne.
  by rewrite lookup_insert_eq.
Qed.

Lemma setTag_is_Some (key value key' : string) (tags : gmap string string) :
  is_Some (setTag key value tags !! key') -> key' = key \/ is_Some (tags !! key').
Proof.
  unfold setTag. destruct (String.eqb value ""); [by right|].
  destruct (decide (key = key')) as [<-|Hne]; [by left|].
  rewrite lookup_insert_ne by done. by right.
Qed.

(** The tags after the short forms have been read, before the json tag is
    filled in. *)
Lemma parseFieldTags_json_default (field : Field) (tags : gmap string string) :
  (match tags !! "json" with
   | Some _ => tags
   | None => <["json" := f_Name field]> tags
   end) !! "json"
  = Some (default (f_Name field) (tags !! "json")).
Proof.
  destruct (tags !! "json") as [v|] eqn:Hjson; simpl; [done|].
  by rewrite lookup_insert_eq.
Qed.

Lemma json_default_lookup_ne (name key : string) (tags : gmap string string) :
  key <> "json" ->
  (match tags !! "json" with
   | Some _ => tags
   | None => <["json" := name]> tags
   end) !! key = tags !! key.
Proof.
  intros Hne. destruct (tags !! "json"); [done|]. by rewrite lookup_insert_ne.
Qed.

(** X6.  Every field gets a json tag: the one given among its tags, and the
    protobuf name of the field when it has no [tags] option. *)
Theorem parseFieldTags_always_json (field : Field) :
  is_Some (parseFieldTags field !! "json")
  /\ (f_Tags field = None -> parseFieldTags field !! "json" = Some (f_Name field))
  /\ (forall fieldTags, f_Tags field = Some fieldTags ->
        GetJson fieldTags <> "" -> GetCustom fieldTags = "" ->
        parseFieldTags field !! "json" = Some (GetJson fieldTags)).
Proof.
  unfold parseFieldTags. cbv zeta. rewrite parseFieldTags_json_default.
  split; [done|]. split.
  - intros ->. f_equal. rewrite !setTag_lookup_ne by done. done.
  - intros fieldTags -> Hjson Hcustom. f_equal.
    rewrite !setTag_lookup_ne by done. unfold parseCustomTags. rewrite Hcustom. simpl.
    rewrite !setTag_lookup_ne by done. by rewrite setTag_lookup_eq.
Qed.

(** X7.  A tag given in its short form wins over the same tag given in the
    [tags] option, and over a custom tag of that name. *)
Theorem parseFieldTags_short_form_wins (field : Field) :
  (f_FormTag field <> "" -> parseFieldTags field !! "form" = Some (f_FormTag field))
  /\ (f_UriTag field <> "" -> parseFieldTags field !! "uri" = Some (f_UriTag field))
  /\ (f_HeaderTag field <> "" ->
      parseFieldTags field !! "header" = Some (f_HeaderTag field))
  /\ (f_BindingTag field <> "" ->
      parseFieldTags field !! "binding" = Some (f_BindingTag field))
  /\ (f_XmlTag field <> "" -> parseFieldTags field !! "xml" = Some (f_XmlTag field))
  /\ (f_YamlTag field <> "" -> parseFieldTags field !! "yaml" = Some (f_YamlTag field))
  /\ (f_TomlTag field <> "" -> parseFieldTags field !! "toml" = Some (f_TomlTag field))
  /\ (f_ProtobufTag field <> "" ->
      parseFieldTags field !! "protobuf" = Some (f_ProtobufTag field))
  /\ (f_MsgpackTag field <> "" ->
      parseFieldTags field !! "msgpack" = Some (f_MsgpackTag field))
  /\ (f_MultipartTag field <> "" ->
      parseFieldTags field !! "multipart" = Some (f_MultipartTag field)).
Proof.
  unfold parseFieldTags. cbv zeta.
  repeat split; intros Hne; rewrite json_default_lookup_ne by done;
    rewrite ?setTag_lookup_ne by done; by rewrite setTag_lookup_eq.
Qed.

End StructTags.

Lemma parseFieldTags_always_json_witness :
  parseFieldTags DemoTags.userIdKnown !! "json" = Some "id".
Proof.
  apply (proj2 (proj2 (parseFieldTags_always_json DemoTags.userIdKnown))
           (Build_FieldTags "user" "" "id" "" "" "" "" "" "" "" "" "" ""));
    [reflexivity | discriminate | reflexivity].
Defined.

Lemma parseFieldTags_short_form_witness :
  parseFieldTags DemoTags.userId !! "form" = Some "uid".
Proof.
  apply (proj1 (parseFieldTags_short_form_wins DemoTags.userId)). discriminate.
Defined.

(** ** The text of the struct tags *)

Section FormatStructTags.

#[local] Arguments String.append !_ _ / : simpl nomatch.

Lemma parseFieldTags_has_json (field : Field) :
  is_Some (parseFieldTags field !! "json").
Proof.
  unfold parseFieldTags. cbv zeta.
  match goal with |- context [match ?t !! "json" with _ => _ end] =>
    destruct (t !! "json") eqn:Hjson end.
  - by rewrite Hjson.
  - by rewrite lookup_insert_eq.
Qed.

Lemma existsb_eqb_elem_of (key : string) (keys : list string) :
  existsb (String.eqb key) keys = bool_decide (key ∈ keys).
Proof.
  induction keys as [|k ks IH]; cbn [existsb].
  - by rewrite bool_decide_eq_false_2 by apply not_elem_of_nil.
  - rewrite IH. destruct (String.eqb_spec key k) as [->|Hne]; cbn [orb].
    + rewrite bool_decide_eq_true_2; [done|left].
    + apply bool_decide_ext. rewrite elem_of_cons.
      split; [by right | by intros [?|?]].
Qed.

Lemma tagOrder_existsb (key : string) :
  existsb (String.eqb key) tagOrder = bool_decide (key ∈ tagOrder).
Proof. apply existsb_eqb_elem_of. Qed.

Lemma omap_nil_Forall {A B : Type} (f : A -> option B) (l : list A) :
  Forall (fun x => f x = None) l -> omap f l = [].
Proof. induction 1 as [|x l Hx _ IH]; [done|]. simpl. by rewrite Hx. Qed.

(** The parts that the second loop of [formatStructTags] adds. *)
Lemma custom_parts_nil `{MapOrder} (tags : gmap string string) :
  (forall key, is_Some (tags !! key) -> key ∈ tagOrder) ->
  omap (fun kv : string * string =>
          if existsb (String.eqb kv.1) tagOrder then None
          else Some (tagPart kv.1 kv.2)) (mapRange tags) = [].
Proof.
  intros Hkeys. apply omap_nil_Forall, Forall_forall. intros [k v] Hin.
  rewrite tagOrder_existsb, bool_decide_eq_true_2; [done|].
  apply Hkeys. exists v. apply elem_of_map_to_list. by rewrite <- mapRange_perm.
Qed.

Lemma parts_nonempty `{MapOrder} (tags : gmap string string) (key value : string) :
  tags !! key = Some value ->
  omap (fun key => value ← tags !! key; Some (tagPart key value)) tagOrder
  ++ omap (fun kv : string * string =>
             if existsb (String.eqb kv.1) tagOrder then None
             else Some (tagPart kv.1 kv.2)) (mapRange tags) <> [].
Proof.
  intros Hlookup Hnil. apply app_eq_nil in Hnil as [Hordered Hcustom].
  destruct (decide (key ∈ tagOrder)) as [Hin|Hnotin].
  - assert (Hpart : tagPart key value ∈
        omap (fun key => value ← tags !! key; Some (tagPart key value)) tagOrder).
    { apply list_elem_of_omap. exists key. split; [done|]. by rewrite Hlookup. }
    rewrite Hordered in Hpart. by apply elem_of_nil in Hpart.
  - assert (Hpart : tagPart key value ∈
        omap (fun kv : string * string =>
                if existsb (String.eqb kv.1) tagOrder then None
                else Some (tagPart kv.1 kv.2)) (mapRange tags)).
    { apply list_elem_of_omap. exists (key, value). split.
      - rewrite mapRange_perm. by apply elem_of_map_to_list.
      - cbn [fst snd]. by rewrite tagOrder_existsb, bool_decide_eq_false_2. }
    rewrite Hcustom in Hpart. by apply elem_of_nil in Hpart.
Qed.

(** X8.  A field gets no struct tag exactly when it has no tags at all: for any
    tag, known or custom, the text is a back-quoted, non-empty list. *)
Theorem formatStructTags_empty_iff `{MapOrder} (tags : gmap string string) :
  formatStructTags tags = "" <-> tags = ∅.
Proof.
  split.
  - intros Hempty. apply map_size_empty_iff. unfold formatStructTags in Hempty.
    destruct (size tags =? 0) eqn:Hsize; [by apply Nat.eqb_eq|]. exfalso.
    apply Nat.eqb_neq in Hsize.
    destruct (map_choose tags) as (key & value & Hlookup).
    { intros ->. by rewrite map_size_empty in Hsize. }
    cbv zeta in Hempty.
    pose proof (parts_nonempty tags key value Hlookup) as Hparts.
    destruct (_ ++ _) as [|part parts]; [done|]. simpl in Hempty. discriminate.
  - intros ->. unfold formatStructTags. by rewrite map_size_empty.
Qed.

(** X9.  The text of the tags does not depend on the order in which Go ranges
    over the map, as long as every tag is one of the twelve known ones. *)
Theorem formatStructTags_known_tags_any_order
    (order1 order2 : MapOrder) (tags : gmap string string) :
  (forall key, is_Some (tags !! key) -> key ∈ tagOrder) ->
  @formatStructTags order1 tags = @formatStructTags order2 tags.
Proof.
  intros Hkeys. unfold formatStructTags. cbv zeta.
  by rewrite (@custom_parts_nil order1), (@custom_parts_nil order2).
Qed.

Lemma formatStructTags_known_tags_witness :
  @formatStructTags canonicalMapOrder (parseFieldTags DemoTags.userIdKnown)
  = @formatStructTags canonicalMapOrder (parseFieldTags DemoTags.userIdKnown).
Proof.
  apply (formatStructTags_known_tags_any_order canonicalMapOrder canonicalMapOrder).
  intros key [value Hlookup].
  assert (Htags : parseFieldTags DemoTags.userIdKnown
                  = <["form" := "uid"]> (<["json" := "id"]> ∅))
    by (vm_compute; reflexivity).
  rewrite Htags in Hlookup.
  apply lookup_insert_Some in Hlookup as [[<- _]|[_ Hlookup]];
    [unfold tagOrder; set_solver|].
  apply lookup_insert_Some in Hlookup as [[<- _]|[_ Hlookup]];
    [unfold tagOrder; set_solver|].
  by rewrite lookup_empty in Hlookup.
Defined.

Lemma omap_cons_Some {A B : Type} (f : A -> option B) (x : A) (l : list A) (y : B) :
  f x = Some y -> omap f (x :: l) = y :: omap f l.
Proof. intros Hx. simpl. by rewrite Hx. Qed.

Lemma Join_cons_prefix (part : string) (parts : list string) (sep : string) :
  Join (part :: parts) sep
  = part +:+ match parts with [] => "" | _ => sep +:+ Join parts sep end.
Proof.
  destruct parts as [|p ps]; [|done].
  cbn [Join]. clear. induction part as [|c part IH]; [done|].
  simpl. by rewrite <- IH.
Qed.

(** X10.  The struct tag of a field of a message always starts with its json
    tag. *)
Theorem formatStructTags_of_field_starts_with_json `{MapOrder} (field : Field) :
  exists name rest,
    parseFieldTags field !! "json" = Some name
    /\ formatStructTags (parseFieldTags field)
       = str BACKQUOTE +:+ "json:" +:+ str DQUOTE +:+ name +:+ str DQUOTE +:+ rest.
Proof.
  destruct (parseFieldTags_has_json field) as [name Hjson].
  exists name. eexists. split; [exact Hjson|]. unfold formatStructTags.
  destruct (size (parseFieldTags field) =? 0) eqn:Hsize.
  { apply Nat.eqb_eq, map_size_empty_iff in Hsize.
    rewrite Hsize, lookup_empty in Hjson. discriminate. }
  cbv zeta. change tagOrder with ("json" :: tl tagOrder).
  rewrite (omap_cons_Some _ "json" _ (tagPart "json" name))
    by (by rewrite Hjson).
  rewrite <- app_comm_cons. rewrite Join_cons_prefix.
  cbn [length Nat.ltb Nat.leb]. unfold tagPart.
  rewrite ?append_assoc. reflexivity.
Qed.

End FormatStructTags.

(** ** The numbers of the handlers *)

Section HandlerNumbers.

Context `{Regexp} `{MapOrder} `{Protogen}.
Variable MessageFields : string -> list FieldDescriptor.

Lemma descriptorsNamed_nil (name : string) : descriptorsNamed name [] = 0.
Proof. done. Qed.

Lemma descriptorsNamed_app (name : string) (a b : list methodDesc) :
  descriptorsNamed name (a ++ b) = descriptorsNamed name a + descriptorsNamed name b.
Proof. unfold descriptorsNamed. by rewrite filter_app, length_app. Qed.

Lemma descriptorsNamed_one (name : string) (md : methodDesc) :
  descriptorsNamed name [md] = if decide (md_Name md = name) then 1 else 0.
Proof.
  unfold descriptorsNamed. rewrite filter_cons, filter_nil.
  by destruct (decide (md_Name md = name)).
Qed.

Lemma numberedFrom_nil (s : GenState) : numberedFrom s [].
Proof. intros i md Hi. by cbn in Hi. Qed.

Lemma countedFrom_nil (s : GenState) : countedFrom s [] s.
Proof. intros name. rewrite descriptorsNamed_nil. lia. Qed.

(** Numbering goes on where it stopped. *)
Lemma numberedFrom_app (s s1 : GenState) (a b : list methodDesc) :
  numberedFrom s a -> countedFrom s a s1 -> numberedFrom s1 b ->
  numberedFrom s (a ++ b).
Proof.
  intros Ha Hcount Hb i md Hi.
  apply lookup_app_Some in Hi as [Hi|[Hlen Hi]].
  - rewrite take_app_le by (apply lookup_lt_Some in Hi; lia). by apply Ha.
  - rewrite take_app_ge by done.
    rewrite descriptorsNamed_app, (Hb _ _ Hi), Hcount. lia.
Qed.

Lemma countedFrom_app (s s1 s2 : GenState) (a b : list methodDesc) :
  countedFrom s a s1 -> countedFrom s1 b s2 -> countedFrom s (a ++ b) s2.
Proof.
  intros Ha Hb name. rewrite descriptorsNamed_app, Hb, Ha. lia.
Qed.

Lemma numberedFrom_one (s : GenState) (md : methodDesc) :
  md_Num md = handlerCount s (md_Name md) -> numberedFrom s [md].
Proof.
  intros Hnum [|i] md' Hi; [|by cbn in Hi].
  injection Hi as <-. rewrite take_0, descriptorsNamed_nil. lia.
Qed.

(** One descriptor built: it carries the count of its method, which is
    then one higher; the other counts stay. *)
Lemma buildMethodDesc_counts m method path s md s' :
  buildMethodDesc MessageFields m method path s = Done md s' ->
  numberedFrom s [md] /\ countedFrom s [md] s'.
Proof.
  intros Hmd. pose proof Hmd as (Hname & _ & Hnum & _)%buildMethodDesc_Done_inv.
  split; [apply numberedFrom_one; by rewrite Hname|].
  rewrite buildMethodDesc_spec in Hmd.
  destruct (pathResolves MessageFields m path); [|done]. simpl in Hmd.
  destruct (builtDesc _ _ _ _ _ _); [|done]. injection Hmd as _ <-.
  intros name. rewrite descriptorsNamed_one, Hname.
  unfold handlerCount, builtState. simpl.
  destruct (decide (m_GoName m = name)) as [<-|Hne].
  - rewrite lookup_insert_eq. simpl. lia.
  - rewrite lookup_insert_ne by done. lia.
Qed.

Lemma buildHTTPRule_counts m rule s md s' :
  buildHTTPRule MessageFields m rule s = Done md s' ->
  numberedFrom s [md] /\ countedFrom s [md] s'.
Proof.
  rewrite buildHTTPRule_spec.
  destruct (buildMethodDesc MessageFields m _ _ s) as [md0 s0| |] eqn:Hmd; [|done..].
  intros [= <- <-]. apply buildMethodDesc_counts in Hmd as [Hnum Hcount].
  split.
  - intros i md Hi. specialize (Hnum i). destruct i as [|i]; [|done].
    injection Hi as <-. by apply (Hnum md0).
  - intros name. specialize (Hcount name).
    by rewrite descriptorsNamed_one in *.
Qed.

Lemma appendBindings_counts m binds : forall methods s methods' s',
  appendBindings MessageFields m binds methods s = Done methods' s' ->
  exists ds, methods' = methods ++ ds /\ numberedFrom s ds /\ countedFrom s ds s'.
Proof.
  induction binds as [|bind rest IH]; intros methods s methods' s'; simpl.
  - intros [= <- <-]. exists []. rewrite app_nil_r.
    split; [done|]. split; [apply numberedFrom_nil | apply countedFrom_nil].
  - rewrite bind_unfold.
    destruct (buildHTTPRule MessageFields m bind s) as [md s1| |] eqn:Hmd; [|done..].
    intros (ds & -> & Hnum & Hcount)%IH.
    apply buildHTTPRule_counts in Hmd as [Hnum1 Hcount1].
    exists ([md] ++ ds). rewrite app_assoc. split; [done|]. split.
    + by eapply numberedFrom_app.
    + by eapply countedFrom_app.
Qed.

Lemma genServiceMethod_counts service omitempty method methods s methods' s' :
  genServiceMethod MessageFields service omitempty method methods s
  = Done methods' s' ->
  exists ds, methods' = methods ++ ds /\ numberedFrom s ds /\ countedFrom s ds s'.
Proof.
  unfold genServiceMethod.
  destruct (m_IsStreamingClient method || m_IsStreamingServer method).
  { intros [= <- <-]. exists []. rewrite app_nil_r.
    split; [done|]. split; [apply numberedFrom_nil | apply countedFrom_nil]. }
  destruct (m_HttpRule method) as [rule|].
  - rewrite bind_unfold.
    destruct (appendBindings _ _ _ _ s) as [methods1 s1| |] eqn:Hbinds; [|done..].
    apply appendBindings_counts in Hbinds as (ds & -> & Hnum & Hcount).
    rewrite bind_unfold.
    destruct (buildHTTPRule _ _ rule s1) as [md s2| |] eqn:Hmd; [|done..].
    intros [= <- <-]. apply buildHTTPRule_counts in Hmd as [Hnum1 Hcount1].
    exists (ds ++ [md]). rewrite app_assoc. split; [done|]. split.
    + by eapply numberedFrom_app.
    + by eapply countedFrom_app.
  - destruct omitempty; simpl.
    { intros [= <- <-]. exists []. rewrite app_nil_r.
      split; [done|]. split; [apply numberedFrom_nil | apply countedFrom_nil]. }
    rewrite bind_unfold.
    destruct (buildMethodDesc _ _ _ _ s) as [md s1| |] eqn:Hmd; [|done..].
    intros [= <- <-]. apply buildMethodDesc_counts in Hmd as [Hnum1 Hcount1].
    by exists [md].
Qed.

Lemma genServiceMethods_counts service omitempty todo : forall methods s methods' s',
  genServiceMethods MessageFields service omitempty todo methods s
  = Done methods' s' ->
  exists ds, methods' = methods ++ ds /\ numberedFrom s ds /\ countedFrom s ds s'.
Proof.
  induction todo as [|method rest IH]; intros methods s methods' s'; simpl.
  - intros [= <- <-]. exists []. rewrite app_nil_r.
    split; [done|]. split; [apply numberedFrom_nil | apply countedFrom_nil].
  - rewrite bind_unfold.
    destruct (genServiceMethod _ _ _ _ _ s) as [methods1 s1| |] eqn:Hm; [|done..].
    apply genServiceMethod_counts in Hm as (ds1 & -> & Hnum1 & Hcount1).
    intros (ds & -> & Hnum & Hcount)%IH.
    exists (ds1 ++ ds). rewrite app_assoc. split; [done|]. split.
    + by eapply numberedFrom_app.
    + by eapply countedFrom_app.
Qed.

(** What [genService] does around its loop leaves the counters alone. *)
Lemma genService_loop file service omitempty s sd s' :
  genService MessageFields file service omitempty s = Done sd s' ->
  exists s0 s1,
    methodSets s0 = methodSets s /\ methodSets s' = methodSets s1
    /\ genServiceMethods MessageFields service omitempty (svc_Methods service) [] s0
       = Done (sd_Methods sd) s1.
Proof.
  unfold genService. rewrite bind_unfold.
  destruct (when (svc_Deprecated service) _ s) as [[] s0| |] eqn:Hhead;
    [|by destruct (svc_Deprecated service)..].
  assert (Hsets : methodSets s0 = methodSets s).
  { unfold when in Hhead. destruct (svc_Deprecated service).
    - rewrite bind_unfold, !P_spec in Hhead. by injection Hhead as <-.
    - by injection Hhead as <-. }
  rewrite bind_unfold.
  destruct (genServiceMethods _ _ _ _ _ s0) as [methods s1| |] eqn:Hloop; [|done..].
  rewrite bind_unfold. unfold when.
  destruct (negb (length methods =? 0)).
  - rewrite P_spec. intros [= <- <-]. by exists s0, s1.
  - intros [= <- <-]. by exists s0, s1.
Qed.

Lemma handlerCount_ext (s s' : GenState) (name : string) :
  methodSets s = methodSets s' -> handlerCount s name = handlerCount s' name.
Proof. unfold handlerCount. by intros ->. Qed.

Lemma genService_counts file service omitempty s sd s' :
  genService MessageFields file service omitempty s = Done sd s' ->
  numberedFrom s (sd_Methods sd) /\ countedFrom s (sd_Methods sd) s'.
Proof.
  intros (s0 & s1 & Hs0 & Hs1 & Hloop)%genService_loop.
  apply genServiceMethods_counts in Hloop as (ds & Hds & Hnum & Hcount).
  simpl in Hds. rewrite <- Hds in *. split.
  - intros i md Hi. rewrite (Hnum i md Hi). f_equal. by apply handlerCount_ext.
  - intros name. rewrite (handlerCount_ext s' s1), (handlerCount_ext s s0) by done.
    apply Hcount.
Qed.

(** X11.  The handler of a descriptor carries the number of descriptors that
    were built before it for a method of the same Go name: those the run
    had counted when the service was reached, and those of the service
    that come before it.  When the service is done the counters have
    gone up by the descriptors of the service. *)
Theorem genService_numbers_handlers_consecutively
    (file : File) (service : Service) (omitempty : bool)
    (s s' : GenState) (sd : serviceDesc) :
  genService MessageFields file service omitempty s = Done sd s' ->
  (forall i md, sd_Methods sd !! i = Some md ->
     md_Num md = handlerCount s (md_Name md)
                 + descriptorsNamed (md_Name md) (take i (sd_Methods sd)))
  /\ (forall name,
        handlerCount s' name
        = handlerCount s name + descriptorsNamed name (sd_Methods sd)).
Proof. apply genService_counts. Qed.

Lemma numberedFrom_NoDup (s : GenState) (methods : list methodDesc) :
  numberedFrom s methods ->
  NoDup (map (fun md => (md_Name md, md_Num md)) methods).
Proof.
  intros Hnum. change (NoDup ((fun md => (md_Name md, md_Num md)) <$> methods)).
  apply NoDup_alt. intros i j x Hi Hj.
  apply list_lookup_fmap_Some in Hi as (mdi & -> & Hi).
  apply list_lookup_fmap_Some in Hj as (mdj & [= Hname Hnumber] & Hj).
  pose proof (Hnum i mdi Hi) as Ei. pose proof (Hnum j mdj Hj) as Ej.
  assert (Hlt : forall a b mda mdb,
             methods !! a = Some mda -> methods !! b = Some mdb ->
             md_Name mda = md_Name mdb -> a < b ->
             descriptorsNamed (md_Name mda) (take a methods)
             < descriptorsNamed (md_Name mda) (take b methods)).
  { intros a b mda mdb Ha Hb Hsame Hab.
    assert (Htake : take b methods
                    = take a methods ++ mda :: take (b - S a) (drop (S a) methods)).
    { rewrite <- (take_drop a (take b methods)).
      rewrite take_take, Nat.min_l by lia. f_equal.
      rewrite skipn_firstn_comm.
      rewrite (drop_S methods mda a Ha). 
      replace (b - a) with (S (b - S a)) by lia. done. }
    rewrite Htake, descriptorsNamed_app.
    change (mda :: ?l) with ([mda] ++ l).
    rewrite descriptorsNamed_app, descriptorsNamed_one.
    rewrite decide_True by done. lia. }
  rewrite <- Hname in Ej.
  destruct (Nat.lt_trichotomy i j) as [Hij|[Hij|Hij]]; [|done|].
  - pose proof (Hlt i j mdi mdj Hi Hj Hname Hij). lia.
  - pose proof (Hlt j i mdj mdi Hj Hi (eq_sym Hname) Hij) as Hji.
    rewrite <- Hname in Hji. lia.
Qed.

(** X12.  No two descriptors of a service carry the same Go name and the same
    number, whatever the counters were when the service was reached: two
    bindings of one method, or two methods of one Go name, get handlers
    of different names. *)
Theorem genService_handlers_are_distinct
    (file : File) (service : Service) (omitempty : bool)
    (s s' : GenState) (sd : serviceDesc) :
  genService MessageFields file service omitempty s = Done sd s' ->
  NoDup (map (fun md => (md_Name md, md_Num md)) (sd_Methods sd)).
Proof.
  intros [Hnum _]%genService_counts. by eapply numberedFrom_NoDup.
Qed.

End HandlerNumbers.

Lemma genService_numbers_handlers_witness :
  exists sd s',
    genService Demo.MessageFields Demo.file Demo.Users true Demo.start = Done sd s'
    /\ (forall i md, sd_Methods sd !! i = Some md ->
          md_Num md = handlerCount Demo.start (md_Name md)
                      + descriptorsNamed (md_Name md) (take i (sd_Methods sd)))
    /\ (forall name,
          handlerCount s' name
          = handlerCount Demo.start name + descriptorsNamed name (sd_Methods sd)).
Proof.
  assert (Hgen : exists sd s',
             genService Demo.MessageFields Demo.file Demo.Users true Demo.start
             = Done sd s') by (eexists _, _; vm_compute; reflexivity).
  destruct Hgen as (sd & s' & Hgen). exists sd, s'. split; [exact Hgen|].
  exact (genService_numbers_handlers_consecutively
           Demo.MessageFields Demo.file Demo.Users true Demo.start s' sd Hgen).
Defined.

Lemma genService_handlers_are_distinct_witness :
  exists sd s',
    genService Demo.MessageFields Demo.file Demo.Users true Demo.start = Done sd s'
    /\ NoDup (map (fun md => (md_Name md, md_Num md)) (sd_Methods sd)).
Proof.
  assert (Hgen : exists sd s',
             genService Demo.MessageFields Demo.file Demo.Users true Demo.start
             = Done sd s') by (eexists _, _; vm_compute; reflexivity).
  destruct Hgen as (sd & s' & Hgen). exists sd, s'. split; [exact Hgen|].
  exact (genService_handlers_are_distinct
           Demo.MessageFields Demo.file Demo.Users true Demo.start s' sd Hgen).
Defined.

(** ** Standard error and the exit status *)

Section StandardError.

Context `{Regexp} `{MapOrder} `{ProtogenPlugin}.
Variable MessageFields : string -> list FieldDescriptor.

Lemma orderly_ret {A : Type} (a : A) : orderly (mret a : Gen A).
Proof.
  intros s. exists []. simpl. rewrite app_nil_r. split; [done | apply Forall_nil_2].
Qed.

Lemma orderly_bind {A B : Type} (c : Gen A) (k : A -> Gen B) :
  orderly c -> (forall a, orderly (k a)) -> orderly (c ≫= k).
Proof.
  intros Hc Hk s. rewrite bind_unfold. destruct (Hc s) as (lines1 & Herr1 & Hlines1).
  destruct (c s) as [a s1|code s1|s1]; simpl in *.
  - destruct (Hk a s1) as (lines2 & Herr2 & Hlines2).
    exists (lines1 ++ lines2). rewrite Herr2, Herr1, app_assoc. split; [done|].
    destruct (exitStatus (k a s1)) as [code|]; simpl in *.
    + destruct Hlines2 as (-> & warnings & err & -> & Hwarnings & Herr).
      split; [done|]. exists (lines1 ++ warnings), err.
      rewrite app_assoc. split; [done|]. split; [by apply Forall_app | done].
    + by apply Forall_app.
  - by exists lines1.
  - by exists lines1.
Qed.

(** A piece that leaves standard error alone and does not exit. *)
Lemma orderly_silent {A : Type} (c : Gen A) :
  (forall s, stderr (finalState (c s)) = stderr s /\ exitStatus (c s) = None) ->
  orderly c.
Proof.
  intros Hc s. destruct (Hc s) as [Herr Hstatus]. exists [].
  rewrite Herr, Hstatus, app_nil_r. split; [done | apply Forall_nil_2].
Qed.

Lemma orderly_when (b : bool) (c : Gen unit) : orderly c -> orderly (when b c).
Proof. intros Hc. destruct b; [done | apply orderly_ret]. Qed.

Lemma orderly_P (text : string) : orderly (P text).
Proof. by apply orderly_silent. Qed.

Lemma orderly_PIdent (prefix : string) (ident : GoIdent) (suffix : string) :
  orderly (PIdent prefix ident suffix).
Proof.
  apply orderly_silent. intros s. unfold PIdent, qualifiedGoIdent.
  rewrite bind_unfold. by destruct (QualifiedGoIdent _ _).
Qed.

Lemma orderly_buildMethodDesc m method path :
  orderly (buildMethodDesc MessageFields m method path).
Proof.
  intros s. rewrite buildMethodDesc_spec. unfold buildLines.
  destruct (pathResolves MessageFields m path) eqn:Hres.
  - exists (slashWarning path ++ loopLines MessageFields m (rangedParams path) path).
    assert (Hwarnings : Forall isWarning
              (slashWarning path
               ++ loopLines MessageFields m (rangedParams path) path)).
    { apply Forall_app. split; [apply slashWarning_isWarning|].
      by apply loopLines_resolved. }
    simpl. by destruct (builtDesc _ _ _ _ _ _).
  - destruct (loopLines_unresolved MessageFields m _ path Hres)
      as (warnings & v & path' & Hlines & Hwarnings & _).
    eexists. split; [reflexivity|]. simpl. split; [done|].
    exists (slashWarning path ++ warnings), (notFoundError v path').
    rewrite Hlines, app_assoc. split; [done|].
    split; [|apply isError_notFoundError].
    apply Forall_app. split; [apply slashWarning_isWarning | done].
Qed.

Lemma orderly_buildHTTPRule m rule : orderly (buildHTTPRule MessageFields m rule).
Proof.
  intros s. rewrite buildHTTPRule_spec.
  destruct (orderly_buildMethodDesc m (rulePathMethod rule).2
              (rulePathMethod rule).1 s) as (lines & Herr & Hlines).
  destruct (buildMethodDesc _ _ _ _ s) as [md s1|code s1|s1]; simpl in *.
  - eexists (lines ++ mismatchWarning _ _ _).
    rewrite Herr, app_assoc. split; [done|].
    apply Forall_app. split; [done | apply mismatchWarning_isWarning].
  - by exists lines.
  - by exists lines.
Qed.

Lemma orderly_appendBindings m binds : forall methods,
  orderly (appendBindings MessageFields m binds methods).
Proof.
  induction binds as [|bind rest IH]; intros methods; simpl.
  - apply orderly_ret.
  - apply orderly_bind; [apply orderly_buildHTTPRule | intros md; apply IH].
Qed.

Lemma orderly_genServiceMethod service omitempty method methods :
  orderly (genServiceMethod MessageFields service omitempty method methods).
Proof.
  unfold genServiceMethod.
  destruct (_ || _); [apply orderly_ret|].
  destruct (m_HttpRule method) as [rule|].
  - apply orderly_bind; [apply orderly_appendBindings|]. intros methods1.
    apply orderly_bind; [apply orderly_buildHTTPRule|]. intros md.
    apply orderly_ret.
  - destruct (negb omitempty); [|apply orderly_ret].
    apply orderly_bind; [apply orderly_buildMethodDesc|]. intros md.
    apply orderly_ret.
Qed.

Lemma orderly_genServiceMethods service omitempty todo : forall methods,
  orderly (genServiceMethods MessageFields service omitempty todo methods).
Proof.
  induction todo as [|method rest IH]; intros methods; simpl.
  - apply orderly_ret.
  - apply orderly_bind; [apply orderly_genServiceMethod | intros ?; apply IH].
Qed.

Lemma orderly_genService file service omitempty :
  orderly (genService MessageFields file service omitempty).
Proof.
  unfold genService.
  apply orderly_bind.
  { apply orderly_when, orderly_bind; [apply orderly_P | intros _; apply orderly_P]. }
  intros _. apply orderly_bind; [apply orderly_genServiceMethods|]. intros methods.
  apply orderly_bind; [apply orderly_when, orderly_P | intros _; apply orderly_ret].
Qed.

Lemma orderly_genServices file services omitempty :
  orderly (genServices MessageFields file services omitempty).
Proof.
  induction services as [|service rest IH]; simpl.
  - apply orderly_ret.
  - apply orderly_bind; [apply orderly_genService | intros _; apply IH].
Qed.

Lemma orderly_generateFileContent file omitempty :
  orderly (generateFileContent MessageFields file omitempty).
Proof.
  unfold generateFileContent. destruct (_ =? 0); [apply orderly_ret|].
  repeat (apply orderly_bind;
          [first [apply orderly_P | apply orderly_PIdent] | intros _]).
  apply orderly_genServices.
Qed.

Lemma orderly_GenerateFile gen file omitempty :
  orderly (GenerateFile MessageFields gen file omitempty).
Proof.
  unfold GenerateFile. destruct (_ || _); [apply orderly_ret|].
  apply orderly_bind; [by apply orderly_silent | intros _].
  do 4 (apply orderly_bind; [apply orderly_P | intros _]).
  apply orderly_bind; [destruct (pf_Deprecated file); apply orderly_P | intros _].
  do 3 (apply orderly_bind; [apply orderly_P | intros _]).
  apply orderly_bind; [apply orderly_generateFileContent | intros _].
  apply orderly_bind; [by apply orderly_silent | intros g; apply orderly_ret].
Qed.

Lemma orderly_generateFiles gen files omitempty :
  orderly (generateFiles MessageFields gen files omitempty).
Proof.
  induction files as [|f rest IH]; simpl.
  - apply orderly_ret.
  - destruct (negb (pf_Generate f)); [exact IH|].
    apply orderly_bind; [apply orderly_GenerateFile | intros g].
    apply orderly_bind; [exact IH | intros generated; apply orderly_ret].
Qed.

(** X13.  Whatever the files of a run are, the plugin only adds lines to
    standard error, and every line it adds is a warning, except that a
    run which ends in [os.Exit] ends with one error line; the only status
    it ever exits with is 2. *)
Theorem run_writes_warnings_and_exits_with_2_after_an_error
    (gen : Plugin) (files : list ProtoFile) (omitempty : bool) (s : GenState) :
  exists lines,
    stderr (finalState (generateFiles MessageFields gen files omitempty s))
    = stderr s ++ lines
    /\ match exitStatus (generateFiles MessageFields gen files omitempty s) with
       | Some code =>
           code = 2%Z
           /\ exists warnings err,
                lines = warnings ++ [err]
                /\ Forall isWarning warnings /\ isError err
       | None => Forall isWarning lines
       end.
Proof. apply orderly_generateFiles. Qed.

End StandardError.

(** ** Files *)

Section Files.

Context `{Regexp} `{MapOrder} `{ProtogenPlugin}.
Variable MessageFields : string -> list FieldDescriptor.

#[local] Arguments String.append !_ _ / : simpl nomatch.

Lemma hasHTTPRuleMethods_existsb (methods : list Method) :
  hasHTTPRuleMethods methods = existsb hasRule methods.
Proof.
  induction methods as [|method rest IH]; [done|].
  cbn [hasHTTPRuleMethods existsb]. unfold hasRule at 1.
  destruct (m_IsStreamingClient method || m_IsStreamingServer method); [exact IH|].
  destruct (m_HttpRule method); [done | exact IH].
Qed.

(** X14.  [hasHTTPRule] finds a rule exactly when some method of some service
    that is not streaming, in either direction, carries one. *)
Theorem hasHTTPRule_iff (services : list Service) :
  hasHTTPRule services = true <->
  exists service method,
    service ∈ services /\ method ∈ svc_Methods service
    /\ m_IsStreamingClient method = false /\ m_IsStreamingServer method = false
    /\ is_Some (m_HttpRule method).
Proof.
  induction services as [|service rest IH]; cbn [hasHTTPRule].
  - split; [done|]. intros (service & method & Hin & _). by apply elem_of_nil in Hin.
  - rewrite hasHTTPRuleMethods_existsb.
    destruct (existsb hasRule (svc_Methods service)) eqn:Hany.
    + split; [intros _|done].
      apply existsb_exists in Hany as (method & Hin%list_elem_of_In & Hrule).
      unfold hasRule in Hrule.
      apply andb_true_iff in Hrule as [Hstream%negb_true_iff Hrule%bool_decide_eq_true].
      apply orb_false_iff in Hstream as [Hc Hs].
      exists service, method. split; [left|done].
    + rewrite IH. split.
      * intros (service' & method & Hin & Hrest). exists service', method.
        split; [by right | done].
      * intros (service' & method & Hin & Hm & Hc & Hs & Hrule).
        apply elem_of_cons in Hin as [->|Hin]; [|by exists service', method].
        exfalso. assert (Htrue : existsb hasRule (svc_Methods service) = true).
        { apply existsb_exists. exists method. split; [by apply list_elem_of_In|].
          unfold hasRule. rewrite Hc, Hs. by apply bool_decide_eq_true. }
        by rewrite Hany in Htrue.
Qed.

Lemma genServiceMethods_omitted service todo : forall methods s,
  existsb hasRule todo = false ->
  genServiceMethods MessageFields service true todo methods s = Done methods s.
Proof.
  induction todo as [|method rest IH]; intros methods s; [done|].
  cbn [existsb genServiceMethods]. intros [Hm Hrest]%orb_false_iff.
  rewrite bind_unfold.
  assert (Hstep : genServiceMethod MessageFields service true method methods s
                  = Done methods s).
  { unfold genServiceMethod, hasRule in *.
    destruct (m_IsStreamingClient method || m_IsStreamingServer method); [done|].
    destruct (m_HttpRule method); [|done].
    by simpl in Hm. }
  rewrite Hstep. by apply IH.
Qed.

Lemma hasHTTPRule_false (services : list Service) (service : Service) :
  hasHTTPRule services = false -> service ∈ services ->
  existsb hasRule (svc_Methods service) = false.
Proof.
  induction services as [|service' rest IH]; cbn [hasHTTPRule];
    [by intros _ ?%elem_of_nil|].
  rewrite hasHTTPRuleMethods_existsb.
  destruct (existsb hasRule (svc_Methods service')) eqn:Hany; [done|].
  intros Hrest [->|Hin]%elem_of_cons; [done | by apply IH].
Qed.

(** X15.  What the guard of [GenerateFile] skips would have been empty: under
    [omitempty], a service of a list in which [hasHTTPRule] finds no rule
    gets no descriptor and no text but its deprecation comment, and the
    run goes on. *)
Theorem omitempty_service_without_rule_is_empty
    (file : File) (services : list Service) (service : Service) (s : GenState) :
  hasHTTPRule services = false -> service ∈ services ->
  genService MessageFields file service true s
  = Done (newServiceDesc file service []) (afterHeader service s).
Proof.
  intros Hnone Hin. pose proof (hasHTTPRule_false services service Hnone Hin) as Hany.
  unfold genService, afterHeader. rewrite bind_unfold.
  destruct (svc_Deprecated service); unfold when.
  - rewrite bind_unfold, !P_spec, bind_unfold.
    by rewrite genServiceMethods_omitted.
  - unfold mret at 1, Gen_ret at 1. rewrite bind_unfold.
    by rewrite genServiceMethods_omitted.
Qed.

Lemma appending_ret {A : Type} (a : A) : appending (mret a : Gen A).
Proof. intros s. exists "". simpl. by rewrite append_nil_r. Qed.

Lemma appending_bind {A B : Type} (c : Gen A) (k : A -> Gen B) :
  appending c -> (forall a, appending (k a)) -> appending (c ≫= k).
Proof.
  intros Hc Hk s. rewrite bind_unfold. destruct (Hc s) as [text1 Hbuf1].
  destruct (c s) as [a s1|code s1|s1]; simpl in *; [|by exists text1..].
  destruct (Hk a s1) as [text2 Hbuf2]. exists (text1 +:+ text2).
  by rewrite Hbuf2, Hbuf1, append_assoc.
Qed.

Lemma appending_P (text : string) : appending (P text).
Proof. intros s. by exists (text +:+ str LF). Qed.

Lemma appending_PIdent (prefix : string) (ident : GoIdent) (suffix : string) :
  appending (PIdent prefix ident suffix).
Proof.
  intros s. unfold PIdent, qualifiedGoIdent. rewrite bind_unfold.
  destruct (QualifiedGoIdent _ _) as [name imports].
  by eexists ((prefix +:+ name +:+ suffix) +:+ str LF).
Qed.

(** A piece that leaves the text of the file as it is. *)
Lemma appending_same {A : Type} (c : Gen A) :
  (forall s, gf_buf (genfile (finalState (c s))) = gf_buf (genfile s)) ->
  appending c.
Proof. intros Hc s. exists "". by rewrite Hc, append_nil_r. Qed.

Lemma appending_when (b : bool) (c : Gen unit) : appending c -> appending (when b c).
Proof. intros Hc. destruct b; [done | apply appending_ret]. Qed.

Lemma appending_buildMethodDesc m method path :
  appending (buildMethodDesc MessageFields m method path).
Proof.
  apply appending_same. intros s. rewrite buildMethodDesc_spec.
  destruct (pathResolves MessageFields m path); [|done]. simpl.
  by destruct (builtDesc _ _ _ _ _ _).
Qed.

Lemma appending_buildHTTPRule m rule :
  appending (buildHTTPRule MessageFields m rule).
Proof.
  intros s. rewrite buildHTTPRule_spec.
  destruct (appending_buildMethodDesc m (rulePathMethod rule).2
              (rulePathMethod rule).1 s) as [text Hbuf].
  exists text. by destruct (buildMethodDesc _ _ _ _ s).
Qed.

Lemma appending_appendBindings m binds : forall methods,
  appending (appendBindings MessageFields m binds methods).
Proof.
  induction binds as [|bind rest IH]; intros methods; simpl.
  - apply appending_ret.
  - apply appending_bind; [apply appending_buildHTTPRule | intros md; apply IH].
Qed.

Lemma appending_genServiceMethod service omitempty method methods :
  appending (genServiceMethod MessageFields service omitempty method methods).
Proof.
  unfold genServiceMethod.
  destruct (_ || _); [apply appending_ret|].
  destruct (m_HttpRule method) as [rule|].
  - apply appending_bind; [apply appending_appendBindings|]. intros methods1.
    apply appending_bind; [apply appending_buildHTTPRule|]. intros md.
    apply appending_ret.
  - destruct (negb omitempty); [|apply appending_ret].
    apply appending_bind; [apply appending_buildMethodDesc|]. intros md.
    apply appending_ret.
Qed.

Lemma appending_genServiceMethods service omitempty todo : forall methods,
  appending (genServiceMethods MessageFields service omitempty todo methods).
Proof.
  induction todo as [|method rest IH]; intros methods; simpl.
  - apply appending_ret.
  - apply appending_bind; [apply appending_genServiceMethod | intros ?; apply IH].
Qed.

Lemma appending_genService file service omitempty :
  appending (genService MessageFields file service omitempty).
Proof.
  unfold genService.
  apply appending_bind.
  { apply appending_when, appending_bind;
      [apply appending_P | intros _; apply appending_P]. }
  intros _. apply appending_bind; [apply appending_genServiceMethods|].
  intros methods.
  apply appending_bind; [apply appending_when, appending_P|].
  intros _; apply appending_ret.
Qed.

Lemma appending_genServices file services omitempty :
  appending (genServices MessageFields file services omitempty).
Proof.
  induction services as [|service rest IH]; simpl.
  - apply appending_ret.
  - apply appending_bind; [apply appending_genService | intros _; apply IH].
Qed.

Lemma appending_generateFileContent file omitempty :
  appending (generateFileContent MessageFields file omitempty).
Proof.
  unfold generateFileContent. destruct (_ =? 0); [apply appending_ret|].
  repeat (apply appending_bind;
          [first [apply appending_P | apply appending_PIdent] | intros _]).
  apply appending_genServices.
Qed.

(** The state after [GenerateFile] has started the file and printed its
    header. *)
Lemma GenerateFile_unfold gen file omitempty s :
  (length (pf_Services file) =? 0)
  || (omitempty && negb (hasHTTPRule (pf_Services file))) = false ->
  exists s0,
    gf_buf (genfile s0) = fileHeader gen file
    /\ GenerateFile MessageFields gen file omitempty s
       = match generateFileContent MessageFields file omitempty s0 with
         | Done _ s' => Done (Some (generatedFilename file, genfile s')) s'
         | Exited code s' => Exited code s'
         | Panicked s' => Panicked s'
         end.
Proof.
  intros Hguard. unfold GenerateFile. rewrite Hguard.
  unfold NewGeneratedFile. rewrite bind_unfold.
  repeat (rewrite bind_unfold, P_spec).
  rewrite bind_unfold.
  assert (Hsource : forall s1,
    (if pf_Deprecated file
     then P ("// " +:+ file_Path (pf_File file) +:+ " is a deprecated file.")
     else P ("// source: " +:+ file_Path (pf_File file))) s1
    = Done tt (emitted s1
        (if pf_Deprecated file
         then "// " +:+ file_Path (pf_File file) +:+ " is a deprecated file."
         else "// source: " +:+ file_Path (pf_File file)))).
  { intros s1. by destruct (pf_Deprecated file). }
  rewrite Hsource. repeat (rewrite bind_unfold, P_spec).
  rewrite bind_unfold. eexists. split; [|reflexivity].
  unfold fileHeader, emitted, NL. cbn [genfile gf_buf].
  rewrite ?append_assoc. reflexivity.
Qed.

(** X16.  [GenerateFile] returns nil, and does nothing, exactly when the file
    has no service or, under [omitempty], no method with an HTTP rule.
    Otherwise, when it returns, it returns the file named after the
    prefix of the source file with [.pb.gin.go], and the text of that
    file starts with the header: the "DO NOT EDIT" line, the versions,
    the source and the package clause. *)
Theorem GenerateFile_result
    (gen : Plugin) (file : ProtoFile) (omitempty : bool) (s : GenState) :
  if (length (pf_Services file) =? 0)
     || (omitempty && negb (hasHTTPRule (pf_Services file)))
  then GenerateFile MessageFields gen file omitempty s = Done None s
  else forall result s',
         GenerateFile MessageFields gen file omitempty s = Done result s' ->
         exists text,
           result = Some (pf_GeneratedFilenamePrefix file +:+ ".pb.gin.go",
                          genfile s')
           /\ gf_buf (genfile s') = fileHeader gen file +:+ text.
Proof.
  destruct (_ || _) eqn:Hguard.
  - unfold GenerateFile. by rewrite Hguard.
  - intros result s'.
    destruct (GenerateFile_unfold gen file omitempty s Hguard) as (s0 & Hbuf & ->).
    destruct (appending_generateFileContent file omitempty s0) as [text Htext].
    destruct (generateFileContent _ _ _ s0) as [[] s1| |]; [|done..].
    intros [= <- <-]. exists text. split; [done|]. simpl in Htext.
    by rewrite Htext, Hbuf.
Qed.

Lemma GenerateFile_Done gen file omitempty s result s' :
  GenerateFile MessageFields gen file omitempty s = Done result s' ->
  result = if (length (pf_Services file) =? 0)
              || (omitempty && negb (hasHTTPRule (pf_Services file)))
           then None
           else Some (generatedFilename file, genfile s').
Proof.
  destruct (_ || _) eqn:Hguard.
  - unfold GenerateFile. rewrite Hguard. by intros [= <- <-].
  - destruct (GenerateFile_unfold gen file omitempty s Hguard) as (s0 & _ & ->).
    destruct (generateFileContent _ _ _ s0) as [[] s1| |]; [|done..].
    by intros [= <- <-].
Qed.

(** X17.  When the loop of [main] gets through, the files it has generated are,
    in order, those of the files to generate that have a service and,
    under [omitempty], a method with an HTTP rule; each is named after
    the prefix of its source with [.pb.gin.go]. *)
Theorem generateFiles_names
    (gen : Plugin) (files : list ProtoFile) (omitempty : bool)
    (s s' : GenState) (generated : list (string * GeneratedFile)) :
  generateFiles MessageFields gen files omitempty s = Done generated s' ->
  map fst generated
  = map (fun f => pf_GeneratedFilenamePrefix f +:+ ".pb.gin.go")
        (List.filter
           (fun f => pf_Generate f
                     && negb ((length (pf_Services f) =? 0)
                              || (omitempty && negb (hasHTTPRule (pf_Services f)))))
           files).
Proof.
  revert s s' generated.
  induction files as [|f rest IH]; intros s s' generated; simpl.
  - by intros [= <- <-].
  - destruct (pf_Generate f); simpl; [|apply IH].
    rewrite bind_unfold.
    destruct (GenerateFile _ _ _ _ s) as [g s1| |] eqn:Hfile; [|done..].
    apply GenerateFile_Done in Hfile. rewrite bind_unfold.
    destruct (generateFiles _ _ _ _ s1) as [generated1 s2| |] eqn:Hrest; [|done..].
    apply IH in Hrest. intros [= <- <-].
    destruct (_ || _); simpl; subst g; simpl; by rewrite Hrest.
Qed.

End Files.

Lemma omitempty_service_without_rule_witness :
  genService Demo.MessageFields Demo.file
     (Build_Service "Quiet" "demo.Quiet" false [Demo.rpc "Watch" "Empty" None]) true
     Demo.start
  = Done (newServiceDesc Demo.file
            (Build_Service "Quiet" "demo.Quiet" false [Demo.rpc "Watch" "Empty" None]) [])
         Demo.start.
Proof.
  apply (omitempty_service_without_rule_is_empty Demo.MessageFields Demo.file
           [Build_Service "Quiet" "demo.Quiet" false [Demo.rpc "Watch" "Empty" None]]).
  - reflexivity.
  - left.
Defined.

Lemma generateFiles_names_witness :
  exists generated s',
    generateFiles Demo.MessageFields DemoFile.plugin [DemoFile.users] true Demo.start
    = Done generated s'
    /\ map fst generated = ["demo/users.pb.gin.go"].
Proof.
  assert (Hrun : exists generated s',
             generateFiles Demo.MessageFields DemoFile.plugin [DemoFile.users] true
                           Demo.start = Done generated s')
    by (eexists _, _; vm_compute; reflexivity).
  destruct Hrun as (generated & s' & Hrun). exists generated, s'.
  split; [exact Hrun|].
  exact (generateFiles_names Demo.MessageFields DemoFile.plugin [DemoFile.users] true
           Demo.start s' generated Hrun).
Defined.

Lemma GenerateFile_result_witness :
  exists g s' text,
    GenerateFile Demo.MessageFields DemoFile.plugin DemoFile.users true Demo.start
    = Done (Some ("demo/users.pb.gin.go", g)) s'
    /\ gf_buf g = fileHeader DemoFile.plugin DemoFile.users +:+ text.
Proof.
  assert (Hrun : exists result s',
             GenerateFile Demo.MessageFields DemoFile.plugin DemoFile.users true
                          Demo.start = Done result s')
    by (eexists _, _; vm_compute; reflexivity).
  destruct Hrun as (result & s' & Hrun).
  pose proof (GenerateFile_result Demo.MessageFields DemoFile.plugin DemoFile.users
                true Demo.start) as Hresult.
  change (forall result s',
            GenerateFile Demo.MessageFields DemoFile.plugin DemoFile.users true
                         Demo.start = Done result s' ->
            exists text,
              result = Some (pf_GeneratedFilenamePrefix DemoFile.users +:+ ".pb.gin.go",
                             genfile s')
              /\ gf_buf (genfile s')
                 = fileHeader DemoFile.plugin DemoFile.users +:+ text) in Hresult.
  destruct (Hresult result s' Hrun) as (text & -> & Htext).
  exists (genfile s'), s', text. split; [exact Hrun | exact Htext].
Defined.

(** ** The methods that the templates range over *)

Section MethodSets.

#[local] Arguments String.append !_ _ / : simpl nomatch.

Lemma buildMethodSets_foldl (methods : list methodDesc) :
  forall (acc : gmap string methodDesc) (name : string),
    foldl (fun sets m => <[md_Name m := m]> sets) acc methods !! name
    = match last (filter (fun md => md_Name md = name) methods) with
      | Some md => Some md
      | None => acc !! name
      end.
Proof.
  induction methods as [|m rest IH]; intros acc name; [done|].
  cbn [foldl]. rewrite IH, filter_cons.
  destruct (decide (md_Name m = name)) as [Heq|Hne].
  - destruct (filter _ rest) as [|m' rest'] eqn:Hrest.
    + cbn [last]. rewrite Heq. apply lookup_insert_eq.
    + rewrite last_cons_cons.
      destruct (last (m' :: rest')) eqn:Hlast; [done|]. by apply last_None in Hlast.
  - destruct (last _); [done|]. by rewrite lookup_insert_ne.
Qed.


(** Walk the pieces of a concatenation up to a [range], and try [tac] on
    every [range] in turn. *)
Ltac seek_range tac :=
  lazymatch goal with
  | |- Contains (rangeText _ _ +:+ _) _ = true =>
      first [ apply Contains_append_l; solve [tac]
            | apply Contains_append_r; seek_range tac ]
  | |- Contains (rangeText _ _) _ = true => solve [tac]
  | |- Contains (_ +:+ _) _ = true => apply Contains_append_r; seek_range tac
  end.

Lemma serverText_registers (s : serviceDesc) (md : methodDesc) :
  md ∈ sd_Methods s ->
  Contains (serverText s) (routeRegistration (sd_ServiceType s) md) = true.
Proof.
  intros Hin. unfold serverText, routeRegistration. cbv beta zeta.
  seek_range ltac:(eapply Contains_rangeText; [exact Hin|]; cbv beta;
                   do 2 apply Contains_append_r; apply Contains_self).
Qed.

Lemma append_five (a b c d e rest : string) :
  a +:+ b +:+ c +:+ d +:+ e +:+ rest = (a +:+ b +:+ c +:+ d +:+ e) +:+ rest.
Proof. by rewrite !append_assoc. Qed.

Lemma handlerText_signature (svrType : string) (md : methodDesc) :
  Contains (handlerText svrType md) (handlerSignature svrType md) = true.
Proof.
  unfold handlerText, handlerSignature.
  apply Contains_append_r. rewrite append_five.
  apply Contains_append_l, Contains_self.
Qed.

Lemma serverText_defines (s : serviceDesc) (md : methodDesc) :
  md ∈ sd_Methods s ->
  Contains (serverText s) (handlerSignature (sd_ServiceType s) md) = true.
Proof.
  intros Hin. unfold serverText. cbv beta zeta.
  seek_range ltac:(idtac; lazymatch goal with
                   | |- Contains (rangeText (handlerText _) _) _ = true =>
                       eapply Contains_rangeText;
                       [exact Hin | apply handlerText_signature]
                   end).
Qed.

Lemma clientMethodText_signature (svrType : string) (md : methodDesc) :
  Contains (clientMethodText svrType md) (clientSignature svrType md) = true.
Proof.
  unfold clientMethodText, clientSignature. cbv zeta.
  apply Contains_append_r.
  match goal with
  | |- Contains (?a +:+ ?b +:+ ?c +:+ ?d +:+ ?e +:+ ?f +:+ ?g +:+ ?h +:+ ?i +:+ ?rest) _
       = true =>
      replace (a +:+ b +:+ c +:+ d +:+ e +:+ f +:+ g +:+ h +:+ i +:+ rest)
        with ((a +:+ b +:+ c +:+ d +:+ e +:+ f +:+ g +:+ h +:+ i) +:+ rest)
        by (by rewrite !append_assoc)
  end.
  apply Contains_append_l, Contains_self.
Qed.

Lemma clientText_defines (s : serviceDesc) (md : methodDesc) :
  md ∈ map snd (sortedRange (sd_MethodSets s)) ->
  Contains (clientText s) (clientSignature (sd_ServiceType s) md) = true.
Proof.
  intros Hin. unfold clientText. cbv beta zeta.
  seek_range ltac:(idtac; lazymatch goal with
                   | |- Contains (rangeText (clientMethodText _) _) _ = true =>
                       eapply Contains_rangeText;
                       [exact Hin | apply clientMethodText_signature]
                   end).
Qed.

Lemma routeRegistration_shape svrType md :
  routeRegistration svrType md
  = String "r" (("." +:+ md_Method md +:+ "(" +:+ QT +:+ md_Path md +:+ QT
                 +:+ ", " +:+ handlerName svrType md +:+ "(srv)") +:+ str ")").
Proof.
  unfold routeRegistration, routeCall, QT, str.
  repeat (progress (rewrite ?append_assoc; simpl)). done.
Qed.

Lemma handlerSignature_shape svrType md :
  handlerSignature svrType md
  = String "f" (("unc " +:+ handlerName svrType md +:+ "(srv " +:+ svrType
                 +:+ "HTTPServer) func(ctx *gin.Context) ") +:+ str "{").
Proof.
  unfold handlerSignature, str.
  repeat (progress (rewrite ?append_assoc; simpl)). done.
Qed.

Lemma clientSignature_shape svrType md :
  clientSignature svrType md
  = String "f" (("unc (c *" +:+ svrType +:+ "HTTPClientImpl) " +:+ md_Name md
                 +:+ "(ctx context.Context, in *" +:+ md_Request md
                 +:+ ", opts ...client.CallOption) (*" +:+ md_Reply md
                 +:+ ", error) ") +:+ str "{").
Proof.
  unfold clientSignature, str.
  repeat (progress (rewrite ?append_assoc; simpl)). done.
Qed.

(** X19.  The text of a service registers a route for every descriptor, under
    its HTTP method and its router path, and defines the handler that
    the route names: one per binding. *)
Theorem execute_registers_and_defines_every_handler
    `{MapOrder} (s : serviceDesc) (md : methodDesc) :
  md ∈ sd_Methods s ->
  Contains (execute s) (routeRegistration (sd_ServiceType s) md) = true
  /\ Contains (execute s) (handlerSignature (sd_ServiceType s) md) = true.
Proof.
  intros Hmd. unfold execute. cbv zeta. split.
  - rewrite routeRegistration_shape. apply Contains_Trim; [done..|].
    rewrite <- routeRegistration_shape. do 4 apply Contains_append_l.
    by apply (serverText_registers (withMethodSets s)).
  - rewrite handlerSignature_shape. apply Contains_Trim; [done..|].
    rewrite <- handlerSignature_shape. do 4 apply Contains_append_l.
    by apply (serverText_defines (withMethodSets s)).
Qed.

(** X20.  The client gets one method for every Go name among the descriptors,
    with the request and reply types of the last descriptor of that
    name. *)
Theorem execute_defines_a_client_method_per_name
    `{MapOrder} (s : serviceDesc) (name : string) (md : methodDesc) :
  last (filter (fun md => md_Name md = name) (sd_Methods s)) = Some md ->
  Contains (execute s) (clientSignature (sd_ServiceType s) md) = true.
Proof.
  intros Hmd. unfold execute. cbv zeta.
  rewrite clientSignature_shape. apply Contains_Trim; [done..|].
  rewrite <- clientSignature_shape.
  do 2 apply Contains_append_l. apply Contains_append_r.
  apply (clientText_defines (withMethodSets s)), elem_of_sortedRange.
  exists name. simpl. unfold buildMethodSets. rewrite buildMethodSets_foldl.
  by rewrite Hmd.
Qed.

End MethodSets.

Lemma execute_registers_witness :
  Contains (execute Demo.pingerDesc) (routeRegistration "Pinger" Demo.pingDesc) = true
  /\ Contains (execute Demo.pingerDesc) (handlerSignature "Pinger" Demo.pingDesc) = true.
Proof.
  apply (execute_registers_and_defines_every_handler Demo.pingerDesc Demo.pingDesc).
  left.
Defined.

Lemma execute_client_method_witness :
  Contains (execute Demo.pingerDesc) (clientSignature "Pinger" Demo.pingDesc) = true.
Proof.
  apply (execute_defines_a_client_method_per_name Demo.pingerDesc "Ping" Demo.pingDesc).
  reflexivity.
Defined.

(** ** The parameters of a path *)

Section PathParams.

Context `{Regexp} `{MapOrder} `{Protogen}.
Variable MessageFields : string -> list FieldDescriptor.

(** The entry that [buildPathParams] makes of a match. *)
Lemma pathParams_foldl (matches : list (string * string)) :
  forall (acc : gmap string (option string)) (name : string),
    foldl (fun (res : gmap string (option string)) (m : string * string) =>
             let name := TrimSpace m.1 in
             if (1 <? len name) && (0 <? len m.2)
             then <[name := Some m.2]> res
             else <[name := None]> res) acc matches !! name
    = match last (filter (fun m : string * string => TrimSpace m.1 = name) matches) with
      | Some m => Some (if (1 <? len name) && (0 <? len m.2) then Some m.2 else None)
      | None => acc !! name
      end.
Proof.
  induction matches as [|m rest IH]; intros acc name; [done|].
  cbn [foldl]. rewrite IH, filter_cons. cbv zeta.
  destruct (decide (TrimSpace m.1 = name)) as [Heq|Hne].
  - destruct (filter _ rest) as [|m' rest'] eqn:Hrest.
    + cbn [last]. rewrite Heq.
      destruct ((1 <? len name) && (0 <? len m.2)); by rewrite lookup_insert_eq.
    + rewrite last_cons_cons.
      destruct (last (m' :: rest')) eqn:Hlast; [done|]. by apply last_None in Hlast.
  - destruct (last _); [done|].
    destruct ((1 <? len (TrimSpace m.1)) && (0 <? len m.2));
      by rewrite lookup_insert_ne.
Qed.


Lemma pathParams_empty_iff (path : string) :
  pathParams path = ∅ <-> pathParamSubmatches path = [].
Proof.
  split.
  - intros Hempty. destruct (pathParamSubmatches path) as [|m rest] eqn:Hmatches; [done|].
    exfalso.
    assert (Hlast : exists m', last (m :: rest) = Some m').
    { destruct (last (m :: rest)) eqn:Hl; [by eexists|]. by apply last_None in Hl. }
    destruct Hlast as [m' Hlast].
    assert (Hentry : is_Some (pathParams path !! TrimSpace m'.1)).
    { unfold pathParams. rewrite pathParams_foldl, Hmatches.
      assert (Hin : m' ∈ filter (fun m0 : string * string => TrimSpace m0.1 = TrimSpace m'.1)
                                (m :: rest)).
      { apply list_elem_of_filter. split; [done|]. by apply last_Some_elem_of. }
      destruct (last (filter _ (m :: rest))) eqn:Hl; [by eexists|].
      apply last_None in Hl. rewrite Hl in Hin. by apply elem_of_nil in Hin. }
    rewrite Hempty, lookup_empty in Hentry. by destruct Hentry.
  - intros Hnone. unfold pathParams. by rewrite Hnone.
Qed.

Lemma buildMethodDesc_Done_builtDesc m method path s md s' :
  buildMethodDesc MessageFields m method path s = Done md s' ->
  exists num request reply, builtDesc m method path num request reply = Some md.
Proof.
  rewrite buildMethodDesc_spec.
  destruct (pathResolves MessageFields m path); [|done]. cbv zeta.
  destruct (builtDesc _ _ _ _ _ _) as [md'|] eqn:Hbuilt; [|done].
  intros [= <- <-]. eauto.
Qed.

(** X22.  A handler binds the URI, and a client method replaces placeholders,
    exactly when the pattern of the path parameters matches somewhere in
    the path of the rule. *)
Theorem HasParams_iff_the_path_has_a_placeholder
    (m : Method) (method path : string) (s s' : GenState) (md : methodDesc) :
  buildMethodDesc MessageFields m method path s = Done md s' ->
  md_HasParams md = true <-> pathParamSubmatches path <> [].
Proof.
  intros (num & request & reply & Hbuilt)%buildMethodDesc_Done_builtDesc.
  unfold builtDesc in Hbuilt.
  destruct (transformPath _) as [routerPath|]; [|done].
  injection Hbuilt as <-. cbn [md_HasParams].
  rewrite <- pathParams_empty_iff, Nat.ltb_lt.
  rewrite <- map_size_empty_iff. lia.
Qed.

Lemma pathParams_no_pattern (path : string) :
  forallb (fun m : string * string => String.eqb m.2 "") (pathParamSubmatches path)
  = true ->
  forall name value, pathParams path !! name = Some value -> value = None.
Proof.
  intros Hall name value. unfold pathParams. rewrite pathParams_foldl.
  destruct (last _) as [m'|] eqn:Hlast; [|by rewrite lookup_empty].
  assert (Hin : m' ∈ pathParamSubmatches path).
  { apply last_Some_elem_of in Hlast. by apply list_elem_of_filter in Hlast as [_ ?]. }
  rewrite forallb_forall in Hall.
  apply list_elem_of_In, Hall, String.eqb_eq in Hin. rewrite Hin.
  rewrite andb_false_r. by intros [= <-].
Qed.

Lemma finalPath_no_pattern (params : list (string * option string)) (path : string) :
  Forall (fun p : string * option string => p.2 = None) params ->
  finalPath params path = path.
Proof.
  unfold finalPath. induction 1 as [|p params Hp _ IH]; [done|].
  cbn [foldl]. by rewrite Hp.
Qed.

(** X23.  When no placeholder of the path carries a pattern ([{name}], not
    [{name=...}]), the path is left as it is: the client path of the
    descriptor is the path of the rule, and the router path is what
    [transformPath] makes of it. *)
Theorem plain_placeholders_keep_the_path
    (m : Method) (method path : string) (s s' : GenState) (md : methodDesc) :
  forallb (fun m : string * string => String.eqb m.2 "") (pathParamSubmatches path)
  = true ->
  buildMethodDesc MessageFields m method path s = Done md s' ->
  md_ClientPath md = path /\ transformPath path = Some (md_Path md).
Proof.
  intros Hplain (num & request & reply & Hbuilt)%buildMethodDesc_Done_builtDesc.
  assert (Hfinal : finalPath (rangedParams path) path = path).
  { apply finalPath_no_pattern, Forall_forall. intros [name value] Hin.
    unfold rangedParams in Hin. rewrite mapRange_perm in Hin.
    apply elem_of_map_to_list in Hin. by eapply pathParams_no_pattern. }
  unfold builtDesc in Hbuilt. rewrite Hfinal in Hbuilt.
  destruct (transformPath path) as [routerPath|]; [|done].
  by injection Hbuilt as <-.
Qed.

End PathParams.

Lemma HasParams_witness :
  exists md s',
    buildMethodDesc Demo.MessageFields Demo.GetUser "GET" "/v1/users/{id}" Demo.start
    = Done md s'
    /\ (md_HasParams md = true <-> pathParamSubmatches "/v1/users/{id}" <> []).
Proof.
  assert (Hrun : exists md s',
             buildMethodDesc Demo.MessageFields Demo.GetUser "GET" "/v1/users/{id}"
                             Demo.start = Done md s')
    by (eexists _, _; vm_compute; reflexivity).
  destruct Hrun as (md & s' & Hrun). exists md, s'. split; [exact Hrun|].
  exact (HasParams_iff_the_path_has_a_placeholder Demo.MessageFields Demo.GetUser
           "GET" "/v1/users/{id}" Demo.start s' md Hrun).
Defined.

Lemma plain_placeholders_witness :
  exists md s',
    buildMethodDesc Demo.MessageFields Demo.GetUser "GET" "/v1/users/{id}" Demo.start
    = Done md s'
    /\ md_ClientPath md = "/v1/users/{id}"
    /\ transformPath "/v1/users/{id}" = Some (md_Path md).
Proof.
  assert (Hrun : exists md s',
             buildMethodDesc Demo.MessageFields Demo.GetUser "GET" "/v1/users/{id}"
                             Demo.start = Done md s')
    by (eexists _, _; vm_compute; reflexivity).
  destruct Hrun as (md & s' & Hrun). exists md, s'. split; [exact Hrun|].
  apply (plain_placeholders_keep_the_path Demo.MessageFields Demo.GetUser
           "GET" "/v1/users/{id}" Demo.start s' md); [reflexivity | exact Hrun].
Defined.

(** ** Derived contexts *)

Section DerivedContexts.

Context {Request Params ResponseWriter Other : Type} `{EqDecision Other}.

(** X24.  The gin data that [NewContext] stores is found again through any
    number of [context.WithValue] made on top of it under keys of other
    packages, whatever they store. *)
Theorem FromContext_through_derived_contexts
    (ctx : @metadata.GinContext Request Params ResponseWriter Other)
    (layers : list (Other * @metadata.Value Request Params ResponseWriter Other)) :
  metadata.FromContext (withValues (metadata.NewContext ctx) layers)
  = (Some {| metadata.gd_Request := metadata.gc_Request ctx;
             metadata.gd_Params := metadata.gc_Params ctx;
             metadata.gd_Writer := metadata.gc_Writer ctx |}, true).
Proof.
  unfold withValues.
  assert (Hsame : forall c : @metadata.Context Request Params ResponseWriter Other,
             metadata.FromContext
               (foldl (fun ctx kv =>
                         metadata.WithValue ctx (metadata.otherKey kv.1) kv.2) c layers)
             = metadata.FromContext c).
  { induction layers as [|[k v] rest IH]; intros c; [done|].
    cbn [foldl]. by rewrite IH. }
  by rewrite Hsame.
Qed.

End DerivedContexts.

(** ** Custom tags *)

Section CustomTags.

Lemma customPairs_foldl (pairs : list string) :
  forall (tags : gmap string string) (key : string),
    foldl (fun tags pair =>
             match SplitN2 pair ":" with
             | Some (k, v) => <[TrimSpace k := TrimSpace v]> tags
             | None => tags
             end) tags pairs !! key
    = match last (filter (fun kv : string * string => kv.1 = key)
                         (omap (fun pair => match SplitN2 pair ":" with
                                            | Some (k, v) => Some (TrimSpace k, TrimSpace v)
                                            | None => None
                                            end) pairs)) with
      | Some kv => Some kv.2
      | None => tags !! key
      end.
Proof.
  induction pairs as [|pair rest IH]; intros tags key; [done|].
  cbn [foldl omap list_omap]. rewrite IH.
  destruct (SplitN2 pair ":") as [[k v]|]; [|done].
  rewrite filter_cons. cbn [fst].
  destruct (decide (TrimSpace k = key)) as [Heq|Hne].
  - destruct (filter _ _) as [|kv' rest'] eqn:Hrest.
    + cbn [last snd]. rewrite Heq. apply lookup_insert_eq.
    + rewrite last_cons_cons.
      destruct (last (kv' :: rest')) eqn:Hlast; [done|]. by apply last_None in Hlast.
  - destruct (last _); [done|]. by rewrite lookup_insert_ne.
Qed.

(** X25.  The custom tags, when their text holds ASCII bytes only (where
    [TrimSpace] trims what [strings.TrimSpace] does), are read item by
    item between commas: an item without a colon is dropped, key and
    value are trimmed, a key given twice keeps its last value, and a
    custom tag replaces the tag of the same key that was there. *)
Theorem parseCustomTags_reads_pairs
    (custom : string) (tags : gmap string string) (key : string) :
  isASCII custom = true ->
  parseCustomTags custom tags !! key
  = match last (filter (fun kv : string * string => kv.1 = key) (customPairs custom)) with
    | Some kv => Some kv.2
    | None => tags !! key
    end.
Proof.
  intros _. unfold parseCustomTags, customPairs.
  destruct (String.eqb custom ""); [done|]. apply customPairs_foldl.
Qed.

End CustomTags.

Lemma parseCustomTags_reads_pairs_witness :
  isASCII "validate:min=1,max=3, bson : _id" = true
  /\ parseCustomTags "validate:min=1,max=3, bson : _id" ∅ !! "bson" = Some "_id".
Proof.
  split; [reflexivity|].
  rewrite (parseCustomTags_reads_pairs "validate:min=1,max=3, bson : _id" ∅ "bson")
    by reflexivity.
  reflexivity.
Defined.

(** A value with a comma in it is cut there, and what follows the comma
    is dropped for want of a colon. *)
Example customPairs_cut_at_commas :
  customPairs "validate:min=1,max=3, bson : _id" = [("validate", "min=1"); ("bson", "_id")].
Proof. reflexivity. Qed.

(** ** The counters over a run *)

Section Counters.

Context `{Regexp} `{MapOrder} `{ProtogenPlugin}.
Variable MessageFields : string -> list FieldDescriptor.

Lemma counting_ret {A : Type} (a : A) : counting (mret a : Gen A).
Proof. by intros s name. Qed.

Lemma counting_bind {A B : Type} (c : Gen A) (k : A -> Gen B) :
  counting c -> (forall a, counting (k a)) -> counting (c ≫= k).
Proof.
  intros Hc Hk s name. rewrite bind_unfold. specialize (Hc s name).
  destruct (c s) as [a s1|code s1|s1]; simpl in *; [|done..].
  specialize (Hk a s1 name). lia.
Qed.

(** A piece that leaves the counters as they are. *)
Lemma counting_same {A : Type} (c : Gen A) :
  (forall s, methodSets (finalState (c s)) = methodSets s) -> counting c.
Proof. intros Hc s name. unfold handlerCount. by rewrite Hc. Qed.

Lemma counting_when (b : bool) (c : Gen unit) : counting c -> counting (when b c).
Proof. intros Hc. destruct b; [done | apply counting_ret]. Qed.

Lemma counting_P (text : string) : counting (P text).
Proof. by apply counting_same. Qed.

Lemma counting_PIdent (prefix : string) (ident : GoIdent) (suffix : string) :
  counting (PIdent prefix ident suffix).
Proof.
  apply counting_same. intros s. unfold PIdent, qualifiedGoIdent.
  rewrite bind_unfold. by destruct (QualifiedGoIdent _ _).
Qed.

Lemma counting_buildMethodDesc m method path :
  counting (buildMethodDesc MessageFields m method path).
Proof.
  intros s name. rewrite buildMethodDesc_spec.
  destruct (pathResolves MessageFields m path); [|done]. cbv zeta.
  assert (Hbuilt : handlerCount s name
                   <= handlerCount (builtState MessageFields m path s) name).
  { unfold handlerCount, builtState. cbn [methodSets].
    destruct (decide (m_GoName m = name)) as [<-|Hne].
    - rewrite lookup_insert_eq. simpl. lia.
    - by rewrite lookup_insert_ne. }
  by destruct (builtDesc _ _ _ _ _ _).
Qed.

Lemma counting_buildHTTPRule m rule : counting (buildHTTPRule MessageFields m rule).
Proof.
  intros s name. rewrite buildHTTPRule_spec.
  pose proof (counting_buildMethodDesc m (rulePathMethod rule).2
                (rulePathMethod rule).1 s name) as Hmd.
  by destruct (buildMethodDesc _ _ _ _ s).
Qed.

Lemma counting_appendBindings m binds : forall methods,
  counting (appendBindings MessageFields m binds methods).
Proof.
  induction binds as [|bind rest IH]; intros methods; simpl.
  - apply counting_ret.
  - apply counting_bind; [apply counting_buildHTTPRule | intros md; apply IH].
Qed.

Lemma counting_genServiceMethod service omitempty method methods :
  counting (genServiceMethod MessageFields service omitempty method methods).
Proof.
  unfold genServiceMethod.
  destruct (_ || _); [apply counting_ret|].
  destruct (m_HttpRule method) as [rule|].
  - apply counting_bind; [apply counting_appendBindings|]. intros methods1.
    apply counting_bind; [apply counting_buildHTTPRule|]. intros md.
    apply counting_ret.
  - destruct (negb omitempty); [|apply counting_ret].
    apply counting_bind; [apply counting_buildMethodDesc|]. intros md.
    apply counting_ret.
Qed.

Lemma counting_genServiceMethods service omitempty todo : forall methods,
  counting (genServiceMethods MessageFields service omitempty todo methods).
Proof.
  induction todo as [|method rest IH]; intros methods; simpl.
  - apply counting_ret.
  - apply counting_bind; [apply counting_genServiceMethod | intros ?; apply IH].
Qed.

Lemma counting_genService file service omitempty :
  counting (genService MessageFields file service omitempty).
Proof.
  unfold genService.
  apply counting_bind.
  { apply counting_when, counting_bind;
      [apply counting_P | intros _; apply counting_P]. }
  intros _. apply counting_bind; [apply counting_genServiceMethods|].
  intros methods.
  apply counting_bind; [apply counting_when, counting_P|].
  intros _; apply counting_ret.
Qed.

Lemma counting_genServices file services omitempty :
  counting (genServices MessageFields file services omitempty).
Proof.
  induction services as [|service rest IH]; simpl.
  - apply counting_ret.
  - apply counting_bind; [apply counting_genService | intros _; apply IH].
Qed.

Lemma counting_generateFileContent file omitempty :
  counting (generateFileContent MessageFields file omitempty).
Proof.
  unfold generateFileContent. destruct (_ =? 0); [apply counting_ret|].
  repeat (apply counting_bind;
          [first [apply counting_P | apply counting_PIdent] | intros _]).
  apply counting_genServices.
Qed.

Lemma counting_GenerateFile gen file omitempty :
  counting (GenerateFile MessageFields gen file omitempty).
Proof.
  unfold GenerateFile. destruct (_ || _); [apply counting_ret|].
  apply counting_bind; [by apply counting_same | intros _].
  do 4 (apply counting_bind; [apply counting_P | intros _]).
  apply counting_bind; [destruct (pf_Deprecated file); apply counting_P | intros _].
  do 3 (apply counting_bind; [apply counting_P | intros _]).
  apply counting_bind; [apply counting_generateFileContent | intros _].
  apply counting_bind; [by apply counting_same | intros g; apply counting_ret].
Qed.

(** X26.  The counters of [methodSets] belong to the run, not to a file or a
    service: nothing in the loop of [main] resets or lowers one, so the
    numbers of the handlers of a Go name go on from file to file. *)
Theorem run_never_lowers_a_counter
    (gen : Plugin) (files : list ProtoFile) (omitempty : bool)
    (s : GenState) (name : string) :
  handlerCount s name
  <= handlerCount (finalState (generateFiles MessageFields gen files omitempty s)) name.
Proof.
  revert s. induction files as [|f rest IH]; intros s; simpl; [done|].
  destruct (negb (pf_Generate f)); [apply IH|].
  rewrite bind_unfold.
  pose proof (counting_GenerateFile gen f omitempty s name) as Hfile.
  destruct (GenerateFile _ _ _ _ s) as [g s1|code s1|s1]; simpl in *; [|done..].
  rewrite bind_unfold. specialize (IH s1).
  destruct (generateFiles _ _ _ _ s1) as [generated s2|code s2|s2]; simpl in *; lia.
Qed.

End Counters.

(** ** The Go types of the fields *)

Section GoTypes.

(** X27.  The three tables of Go types agree where they overlap: the type of a
    map value is the type of a field of the same kind, except that a
    message is named without the pointer and by the name given for it;
    the type of a map key is the type of a field of the same kind for
    strings and the ten integer kinds, and [string] for every other
    kind. *)
Theorem type_tables_agree (field : Field) (messageName : string) :
  getMapValueType (f_Kind field) messageName
  = (if bool_decide (f_Kind field = MessageKind) then messageName
     else getScalarGoType field)
  /\ getMapKeyType (f_Kind field)
     = (if bool_decide (f_Kind field ∈
                          [StringKind; Int32Kind; Sint32Kind; Sfixed32Kind;
                           Int64Kind; Sint64Kind; Sfixed64Kind;
                           Uint32Kind; Fixed32Kind; Uint64Kind; Fixed64Kind])
        then getScalarGoType field
        else "string").
Proof.
  unfold getMapValueType, getMapKeyType, getScalarGoType.
  destruct (f_Kind field); split; reflexivity.
Qed.

End GoTypes.
